(** * Generation-state reducer and canvas coordinator of mica-frontend

    A shallow embedding of
      - src/lib/generation-transformers.ts   (normaliser, transformers,
        corruption-recovery parser, connection extraction),
      - src/hooks/use-generation-state.ts    (the reducer inside
        [handleSSEMessage], [reset], [setMockNodes], [toggleChat], the
        transport-error callback),
      - src/components/generation-canvas.tsx (node projection, the node-count
        effect and the sequential edge reveal),
    followed by the properties the specification states about them.

    Events reach the hook as the result of [JSON.parse]; they are modelled as
    JSON values, and every test the source makes on them ([in], [typeof],
    [Array.isArray], truthiness, [===]) is made here on the same value.
    A [TypeError] raised by the source is the result [None]. *)

From Stdlib Require Import ZArith String Ascii List Bool Lia.
From stdpp Require Import base option list gmap strings pretty.

Open Scope string_scope.
Open Scope list_scope.

Set Warnings "-register-all".

(* ================================================================== *)
(** ** JavaScript values *)
(* ================================================================== *)

Module JS.

(** The values [JSON.parse] produces.  [undefined] is not one of them: a
    value that may be [undefined] has type [option JVal], [None] standing for
    [undefined].  A number is carried by its canonical decimal spelling (what
    [Number.prototype.toString] prints, so zero is spelt 0): the code never
    computes with a payload number, it only tests its truthiness, compares
    it and prints it.  Strings are sequences of code units below 256. *)
Inductive JVal : Type :=
| JNull
| JBool (b : bool)
| JNum (spelling : string)
| JStr (s : string)
| JArr (items : list JVal)
| JObj (fields : list (string * JVal)).

(** An object is the list of its own properties in insertion order. *)
Abbreviation Obj := (list (string * JVal)).

(** [ToBoolean]. *)
Definition truthy (v : JVal) : bool :=
  match v with
  | JNull => false
  | JBool b => b
  | JNum n => negb (String.eqb n "0")
  | JStr s => negb (String.eqb s EmptyString)
  | JArr _ | JObj _ => true
  end.

Definition truthy_opt (o : option JVal) : bool :=
  match o with Some v => truthy v | None => false end.

(** [a || b] on possibly undefined operands. *)
Definition or_else (a b : option JVal) : option JVal :=
  if truthy_opt a then a else b.

(** [typeof v === 'object'] (true of [null], arrays and objects). *)
Definition typeof_object (v : JVal) : bool :=
  match v with JNull | JArr _ | JObj _ => true | _ => false end.

Definition isArray (o : option JVal) : bool :=
  match o with Some (JArr _) => true | _ => false end.

(** [a === b].  Arrays and objects are compared by identity; two values read
    from different places of parsed payloads are never the same object. *)
Definition strict_eq (a b : option JVal) : bool :=
  match a, b with
  | None, None => true
  | Some JNull, Some JNull => true
  | Some (JBool x), Some (JBool y) => Bool.eqb x y
  | Some (JNum x), Some (JNum y) => String.eqb x y
  | Some (JStr x), Some (JStr y) => String.eqb x y
  | _, _ => false
  end.

(** [v === 'lit'] for a string literal. *)
Definition is_str (lit : string) (o : option JVal) : bool :=
  strict_eq o (Some (JStr lit)).

(** *** Property keys *)

Definition is_digit (c : ascii) : bool :=
  let n := nat_of_ascii c in (48 <=? n)%nat && (n <=? 57)%nat.

Fixpoint digits_value (acc : N) (l : list ascii) : N :=
  match l with
  | [] => acc
  | c :: l' => digits_value (acc * 10 + N.of_nat (nat_of_ascii c - 48)) l'
  end.

(** A key is an array index when it is the canonical decimal spelling of an
    integer in [0, 2^32 - 2]. *)
Definition array_index (k : string) : option N :=
  let l := list_ascii_of_string k in
  match l with
  | [] => None
  | c :: rest =>
      if forallb is_digit l
         && (negb (Ascii.eqb c "0") || match rest with [] => true | _ => false end)
         && (length l <=? 10)%nat
      then let n := digits_value 0 l in
           if (n <=? 4294967294)%N then Some n else None
      else None
  end.

Fixpoint assoc (k : string) (o : Obj) : option JVal :=
  match o with
  | [] => None
  | (k', v) :: o' => if String.eqb k k' then Some v else assoc k o'
  end.

(** ['k' in o]. *)
Definition has (k : string) (o : Obj) : bool :=
  match assoc k o with Some _ => true | None => false end.

(** [o[k] = v]: an existing property keeps its place, a new one goes last. *)
Fixpoint obj_set (k : string) (v : JVal) (o : Obj) : Obj :=
  match o with
  | [] => [(k, v)]
  | (k', v') :: o' =>
      if String.eqb k k' then (k, v) :: o' else (k', v') :: obj_set k v o'
  end.

Fixpoint insert_by_index (e : N * (string * JVal)) (l : list (N * (string * JVal)))
  : list (N * (string * JVal)) :=
  match l with
  | [] => [e]
  | e' :: l' => if (fst e <=? fst e')%N then e :: l else e' :: insert_by_index e l'
  end.

(** Own properties in enumeration order: array indices ascending, then the
    other keys in insertion order. *)
Definition ordered (o : Obj) : Obj :=
  let tagged := omap (fun kv => n ← array_index (fst kv); Some (n, kv)) o in
  let others := filter (fun kv => array_index (fst kv) = None) o in
  map snd (foldr insert_by_index [] tagged) ++ others.

Definition char_strings (s : string) : list JVal :=
  map (fun c => JStr (String c EmptyString)) (list_ascii_of_string s).

(** The own enumerable properties of a value, as [Object.entries] and the
    spread [{...v}] see them; [undefined], [null], numbers and booleans have
    none. *)
Definition entries (o : option JVal) : Obj :=
  match o with
  | Some (JObj fields) => ordered fields
  | Some (JArr items) => imap (fun i v => (pretty i, v)) items
  | Some (JStr s) => imap (fun i v => (pretty i, v)) (char_strings s)
  | _ => []
  end.

(** [{...a, ...b}] for an object [a] already built. *)
Definition spread_into (a : Obj) (b : Obj) : Obj :=
  fold_left (fun acc kv => obj_set (fst kv) (snd kv) acc) b a.

(** [v.k] for [v] neither [null] nor [undefined]. *)
Definition prop (k : string) (v : JVal) : option JVal :=
  match v with
  | JObj fields => assoc k fields
  | JArr items =>
      if String.eqb k "length" then Some (JNum (pretty (length items)))
      else n ← array_index k; items !! N.to_nat n
  | JStr s =>
      if String.eqb k "length" then Some (JNum (pretty (String.length s)))
      else n ← array_index k; char_strings s !! N.to_nat n
  | _ => None
  end.

(** [v.k] in general: reading a property of [null] or [undefined] throws. *)
Definition member (k : string) (o : option JVal) : option (option JVal) :=
  match o with
  | None | Some JNull => None
  | Some v => Some (prop k v)
  end.

(** *** Strings *)

Definition join (sep : string) (l : list string) : string :=
  match l with
  | [] => EmptyString
  | s :: l' => fold_left (fun acc x => acc +:+ sep +:+ x) l' s
  end.

(** [ToString]; inside [Array.prototype.join] a [null] element is empty. *)
Fixpoint ToString (v : JVal) : string :=
  match v with
  | JNull => "null"
  | JBool true => "true"
  | JBool false => "false"
  | JNum n => n
  | JStr s => s
  | JArr items =>
      join "," ((fix each (l : list JVal) : list string :=
                   match l with
                   | [] => []
                   | JNull :: l' => EmptyString :: each l'
                   | x :: l' => ToString x :: each l'
                   end) items)
  | JObj _ => "[object Object]"
  end.

Definition ToString_opt (o : option JVal) : string :=
  match o with Some v => ToString v | None => "undefined" end.

Definition lower_char (c : ascii) : ascii :=
  let n := nat_of_ascii c in
  if ((65 <=? n) && (n <=? 90) || (192 <=? n) && (n <=? 222) && negb (n =? 215))%nat
  then ascii_of_nat (n + 32) else c.

Definition toLowerCase (s : string) : string :=
  string_of_list_ascii (map lower_char (list_ascii_of_string s)).

Fixpoint strip_prefix (p s : list ascii) : option (list ascii) :=
  match p, s with
  | [], _ => Some s
  | a :: p', b :: s' => if Ascii.eqb a b then strip_prefix p' s' else None
  | _ :: _, [] => None
  end.

Definition startsWith (p s : string) : bool :=
  match strip_prefix (list_ascii_of_string p) (list_ascii_of_string s) with
  | Some _ => true
  | None => false
  end.

Definition endsWith (p s : string) : bool :=
  match strip_prefix (rev (list_ascii_of_string p)) (rev (list_ascii_of_string s)) with
  | Some _ => true
  | None => false
  end.

Fixpoint includes_l (p s : list ascii) : bool :=
  match strip_prefix p s with
  | Some _ => true
  | None => match s with [] => false | _ :: s' => includes_l p s' end
  end.

Definition includes (p s : string) : bool :=
  includes_l (list_ascii_of_string p) (list_ascii_of_string s).

(** [s.slice(1, -1)]. *)
Definition slice_1_m1 (s : string) : string :=
  string_of_list_ascii (removelast (tl (list_ascii_of_string s))).

Fixpoint take_until (stop : ascii -> bool) (l : list ascii) : list ascii :=
  match l with
  | [] => []
  | c :: l' => if stop c then [] else c :: take_until stop l'
  end.

(** [s.split('_')[0]]. *)
Definition before_underscore (s : string) : string :=
  string_of_list_ascii
    (take_until (fun c => Ascii.eqb c "_") (list_ascii_of_string s)).

End JS.
Import JS.

(* ================================================================== *)
(** ** Regular expressions *)
(* ================================================================== *)

(** Every regular expression literal of the source is a sequence of
    literals, single character classes, quantified character classes
    (possibly captured) and the end anchor.  [exec] is the backtracking
    matcher at one position, [search] the leftmost match ([String.match]
    without [g]), [match_all] the successive matches ([g]). *)
Module Regex.

Definition cls : Type := ascii -> bool.

Inductive quant : Type :=
| Star        (* c*  *)
| Plus        (* c+  *)
| LazyStar.   (* c*? *)

Inductive item : Type :=
| Lit (l : string)
| One (c : cls)
| Rep (q : quant) (c : cls) (captured : bool)
| Eol.

Record found : Type := Found {
  text : list ascii;            (* the matched text *)
  groups : list (list ascii);   (* the captures, in order *)
  rest : list ascii             (* the input after the match *)
}.

Definition push (w : list ascii) (captured : bool) (r : found) : found :=
  {| text := w ++ text r;
     groups := if captured then w :: groups r else groups r;
     rest := rest r |}.

Section Quantifiers.
Context {R : Type} (c : cls) (k : list ascii -> option R).

(** Longest run first, giving characters back one at a time. *)
Fixpoint greedy (s : list ascii) : option (list ascii * R) :=
  match s with
  | x :: s' =>
      if c x then
        match greedy s' with
        | Some (w, r) => Some (x :: w, r)
        | None => r ← k s; Some ([], r)
        end
      else r ← k s; Some ([], r)
  | [] => r ← k []; Some ([], r)
  end.

Definition greedy1 (s : list ascii) : option (list ascii * R) :=
  match s with
  | x :: s' => if c x then '(w, r) ← greedy s'; Some (x :: w, r) else None
  | [] => None
  end.

(** Shortest run first, taking characters one at a time. *)
Fixpoint lazy (s : list ascii) : option (list ascii * R) :=
  match k s with
  | Some r => Some ([], r)
  | None =>
      match s with
      | x :: s' => if c x then '(w, r) ← lazy s'; Some (x :: w, r) else None
      | [] => None
      end
  end.
End Quantifiers.

Definition run (q : quant) {R : Type} :=
  match q with Star => @greedy R | Plus => @greedy1 R | LazyStar => @lazy R end.

Fixpoint exec (re : list item) (s : list ascii) : option found :=
  match re with
  | [] => Some {| text := []; groups := []; rest := s |}
  | Lit l :: k =>
      s' ← strip_prefix (list_ascii_of_string l) s;
      r ← exec k s';
      Some (push (list_ascii_of_string l) false r)
  | One c :: k =>
      match s with
      | x :: s' => if c x then r ← exec k s'; Some (push [x] false r) else None
      | [] => None
      end
  | Rep q c captured :: k =>
      '(w, r) ← run q c (exec k) s;
      Some (push w captured r)
  | Eol :: k =>
      match s with [] => exec k [] | _ :: _ => None end
  end.

(** The leftmost match and the text before it. *)
Fixpoint search (re : list item) (s : list ascii) : option (list ascii * found) :=
  match exec re s with
  | Some r => Some ([], r)
  | None =>
      match s with
      | x :: s' => '(b, r) ← search re s'; Some (x :: b, r)
      | [] => None
      end
  end.

(** [s.match(re)] without [g]: the captures of the leftmost match. *)
Definition match1 (re : list item) (s : string) : option (list string) :=
  '(_, r) ← search re (list_ascii_of_string s);
  Some (map string_of_list_ascii (groups r)).

(** Successive matches; after an empty match the scan moves on by one. *)
Fixpoint scan (fuel : nat) (re : list item) (s : list ascii)
  : list (list ascii * found) :=
  match fuel with
  | O => []
  | S fuel' =>
      match search re s with
      | None => []
      | Some (b, r) =>
          (b, r) ::
          match text r, rest r with
          | [], [] => []
          | [], _ :: s' => scan fuel' re s'
          | _ :: _, s' => scan fuel' re s'
          end
      end
  end.

(** [s.match(re)] with [g]: the matched texts ([None] when there is none). *)
Definition match_all (re : list item) (s : string) : option (list string) :=
  match scan (S (String.length s)) re (list_ascii_of_string s) with
  | [] => None
  | ms => Some (map (fun m => string_of_list_ascii (text (snd m))) ms)
  end.

(** [s.replace(re, by)] without [g]; [by] sees the match. *)
Definition replace1 (re : list item) (by_ : found -> list ascii) (s : string) : string :=
  match search re (list_ascii_of_string s) with
  | None => s
  | Some (b, r) => string_of_list_ascii (b ++ by_ r ++ rest r)
  end.

(** [s.replace(/[c]/g, by)] for a single character class. *)
Definition replace_chars (c : cls) (by_ : string) (s : string) : string :=
  string_of_list_ascii
    (flat_map (fun x => if c x then list_ascii_of_string by_ else [x])
       (list_ascii_of_string s)).

(** *** Character classes *)

Definition chr (a : ascii) : cls := fun x => Ascii.eqb x a.
Definition one_of (l : string) : cls :=
  fun x => existsb (Ascii.eqb x) (list_ascii_of_string l).
Definition none_of (l : string) : cls := fun x => negb (one_of l x).
(** [.]: any character but a line terminator. *)
Definition dot : cls :=
  fun x => negb (Ascii.eqb x "010" || Ascii.eqb x "013").
Definition lower_or_digit : cls :=
  fun x => let n := nat_of_ascii x in
           ((97 <=? n) && (n <=? 122) || (48 <=? n) && (n <=? 57))%nat.

(** The class of the two quote characters: the single quote (code 39) and
    the double quote (code 34). *)
Definition quote : cls := fun x => Ascii.eqb x "039" || Ascii.eqb x "034".

End Regex.
Import Regex.

(* ================================================================== *)
(** ** Types (types/generation.ts) *)
(* ================================================================== *)

Inductive NodeStatus : Type := idle | configuring | configured | generating.
Inductive Category : Type := Input | Processing | AI | Output.

(** [InternalWorkflowNode].  The fields copied from a payload without a
    check keep the payload's value. *)
Record InternalWorkflowNode : Type := {
  nodeId : JVal;
  name : JVal;
  description : JVal;
  status : NodeStatus;
  params : option JVal;
  loop_text : option JVal;
  category : Category;
  icon : string;
  inputs : Obj;
  outputs : list (string * string);
  isMock : bool;
  isArchitecturePlanner : bool
}.

(** [InternalConnection]. *)
Record InternalConnection : Type := {
  source : option JVal;
  target : option JVal;
  conn_id : string
}.

Record InternalDatabaseInfo : Type := {
  db_name : option JVal;
  db_link : option JVal
}.

Inductive MessageType : Type := msg_step | msg_error | msg_system | msg_assistant.

(** [ChatMessage]. *)
Record ChatMessage : Type := {
  msg_id : string;
  msg_type : MessageType;
  content : JVal;
  timestamp : Z;
  step : option JVal
}.

(** [GenerationState].  [databases] is the property the reducer assigns
    ([None] until then, [Some None] for [null]); [chatMessages] may hold
    [null], which the transport-error callback appends. *)
Record GenerationState : Type := {
  currentStep : option JVal;
  isComplete : bool;
  hasError : bool;
  chatMessages : list (option ChatMessage);
  nodes : list InternalWorkflowNode;
  connections : list InternalConnection;
  mockNodes : list InternalWorkflowNode;
  hasMockNodes : bool;
  showCanvas : bool;
  isCollapsed : bool;
  generationId : option string;
  databases : option (option InternalDatabaseInfo)
}.

(** An event as received: the object [JSON.parse] returned. *)
Abbreviation SSEEvent := (list (string * JVal)).

(** Record updates, one per assigned field. *)
Definition set_currentStep (v : option JVal) (s : GenerationState) : GenerationState :=
  {| currentStep := v; isComplete := isComplete s; hasError := hasError s;
     chatMessages := chatMessages s; nodes := nodes s; connections := connections s;
     mockNodes := mockNodes s; hasMockNodes := hasMockNodes s;
     showCanvas := showCanvas s; isCollapsed := isCollapsed s;
     generationId := generationId s; databases := databases s |}.

Definition set_isComplete (v : bool) (s : GenerationState) : GenerationState :=
  {| currentStep := currentStep s; isComplete := v; hasError := hasError s;
     chatMessages := chatMessages s; nodes := nodes s; connections := connections s;
     mockNodes := mockNodes s; hasMockNodes := hasMockNodes s;
     showCanvas := showCanvas s; isCollapsed := isCollapsed s;
     generationId := generationId s; databases := databases s |}.

Definition set_hasError (v : bool) (s : GenerationState) : GenerationState :=
  {| currentStep := currentStep s; isComplete := isComplete s; hasError := v;
     chatMessages := chatMessages s; nodes := nodes s; connections := connections s;
     mockNodes := mockNodes s; hasMockNodes := hasMockNodes s;
     showCanvas := showCanvas s; isCollapsed := isCollapsed s;
     generationId := generationId s; databases := databases s |}.

Definition set_chatMessages (v : list (option ChatMessage)) (s : GenerationState)
  : GenerationState :=
  {| currentStep := currentStep s; isComplete := isComplete s; hasError := hasError s;
     chatMessages := v; nodes := nodes s; connections := connections s;
     mockNodes := mockNodes s; hasMockNodes := hasMockNodes s;
     showCanvas := showCanvas s; isCollapsed := isCollapsed s;
     generationId := generationId s; databases := databases s |}.

Definition set_nodes (v : list InternalWorkflowNode) (s : GenerationState)
  : GenerationState :=
  {| currentStep := currentStep s; isComplete := isComplete s; hasError := hasError s;
     chatMessages := chatMessages s; nodes := v; connections := connections s;
     mockNodes := mockNodes s; hasMockNodes := hasMockNodes s;
     showCanvas := showCanvas s; isCollapsed := isCollapsed s;
     generationId := generationId s; databases := databases s |}.

Definition set_connections (v : list InternalConnection) (s : GenerationState)
  : GenerationState :=
  {| currentStep := currentStep s; isComplete := isComplete s; hasError := hasError s;
     chatMessages := chatMessages s; nodes := nodes s; connections := v;
     mockNodes := mockNodes s; hasMockNodes := hasMockNodes s;
     showCanvas := showCanvas s; isCollapsed := isCollapsed s;
     generationId := generationId s; databases := databases s |}.

Definition set_mockNodes (v : list InternalWorkflowNode) (s : GenerationState)
  : GenerationState :=
  {| currentStep := currentStep s; isComplete := isComplete s; hasError := hasError s;
     chatMessages := chatMessages s; nodes := nodes s; connections := connections s;
     mockNodes := v; hasMockNodes := hasMockNodes s;
     showCanvas := showCanvas s; isCollapsed := isCollapsed s;
     generationId := generationId s; databases := databases s |}.

Definition set_hasMockNodes (v : bool) (s : GenerationState) : GenerationState :=
  {| currentStep := currentStep s; isComplete := isComplete s; hasError := hasError s;
     chatMessages := chatMessages s; nodes := nodes s; connections := connections s;
     mockNodes := mockNodes s; hasMockNodes := v;
     showCanvas := showCanvas s; isCollapsed := isCollapsed s;
     generationId := generationId s; databases := databases s |}.

Definition set_showCanvas (v : bool) (s : GenerationState) : GenerationState :=
  {| currentStep := currentStep s; isComplete := isComplete s; hasError := hasError s;
     chatMessages := chatMessages s; nodes := nodes s; connections := connections s;
     mockNodes := mockNodes s; hasMockNodes := hasMockNodes s;
     showCanvas := v; isCollapsed := isCollapsed s;
     generationId := generationId s; databases := databases s |}.

Definition set_isCollapsed (v : bool) (s : GenerationState) : GenerationState :=
  {| currentStep := currentStep s; isComplete := isComplete s; hasError := hasError s;
     chatMessages := chatMessages s; nodes := nodes s; connections := connections s;
     mockNodes := mockNodes s; hasMockNodes := hasMockNodes s;
     showCanvas := showCanvas s; isCollapsed := v;
     generationId := generationId s; databases := databases s |}.

Definition set_databases (v : option (option InternalDatabaseInfo)) (s : GenerationState)
  : GenerationState :=
  {| currentStep := currentStep s; isComplete := isComplete s; hasError := hasError s;
     chatMessages := chatMessages s; nodes := nodes s; connections := connections s;
     mockNodes := mockNodes s; hasMockNodes := hasMockNodes s;
     showCanvas := showCanvas s; isCollapsed := isCollapsed s;
     generationId := generationId s; databases := v |}.

(* ================================================================== *)
(** ** Transformers (lib/generation-transformers.ts) *)
(* ================================================================== *)

(** ['step' in event && 'status' in event]. *)
Definition isSSEStepEvent (event : SSEEvent) : bool :=
  has "step" event && has "status" event.

(** ['type' in event && !('step' in event)]. *)
Definition isSSESystemEvent (event : SSEEvent) : bool :=
  has "type" event && negb (has "step" event).

(** [a || b] where [b] is never undefined. *)
Definition or_val (a : option JVal) (b : JVal) : JVal :=
  match a with
  | Some v => if truthy v then v else b
  | None => b
  end.

(** [d?.k]. *)
Definition opt_prop (k : string) (d : option JVal) : option JVal :=
  match d with
  | None | Some JNull => None
  | Some v => prop k v
  end.

(** [x.toLowerCase()]: only a string has the method. *)
Definition lower_of (x : option JVal) : option string :=
  match x with
  | Some (JStr s) => Some (toLowerCase s)
  | _ => None
  end.

Definition inferNodeCategory (name description : option JVal) : Category :=
  let text := toLowerCase (ToString_opt name +:+ " " +:+ ToString_opt description) in
  if includes "input" text || includes "form" text || includes "enters" text then Input
  else if includes "ai" text || includes "gpt" text || includes "model" text
          || includes "reasoning" text then AI
  else if includes "output" text || includes "save" text || includes "insert" text
          || includes "store" text || includes "send" text || includes "email" text
          || includes "slack" text then Output
  else Processing.

Definition inferNodeIcon (name description : option JVal) : string :=
  let text := toLowerCase (ToString_opt name +:+ " " +:+ ToString_opt description) in
  if includes "user" text || includes "input" text || includes "form" text then "user"
  else if includes "ai" text || includes "reasoning" text || includes "gpt" text then "brain"
  else if includes "database" text || includes "save" text || includes "store" text
       then "database"
  else if includes "email" text || includes "mail" text then "mail"
  else if includes "search" text || includes "find" text then "search"
  else if includes "api" text || includes "web" text then "web"
  else if includes "document" text || includes "file" text then "document"
  else "settings".

(** [generateMockInputs] and [generateMockOutputs] on a string; on any
    other value [name.toLowerCase()] throws. *)
Definition mockInputs (name : string) : Obj :=
  let text := toLowerCase name in
  if includes "user" text || includes "input" text then
    [("firstName", JStr "{{user.firstName}}");
     ("lastName", JStr "{{user.lastName}}");
     ("email", JStr "{{user.email}}")]
  else if includes "ai" text || includes "reasoning" text then
    [("prompt", JStr "Analyze the data: {{input.data}}");
     ("model", JStr "gpt-4");
     ("temperature", JNum "0.7")]
  else [].

Definition mockOutputs (name : string) : list (string * string) :=
  let text := toLowerCase name in
  if includes "user" text || includes "input" text then
    [("userData", "Object"); ("isValid", "Boolean")]
  else if includes "ai" text || includes "reasoning" text then
    [("analysis", "String"); ("confidence", "Number")]
  else [("result", "Object"); ("success", "Boolean")].

Definition generateMockInputs (name : option JVal) : option Obj :=
  match name with
  | Some (JStr s) => Some (mockInputs s)
  | _ => None
  end.

Definition generateMockOutputs (name : option JVal) : option (list (string * string)) :=
  match name with
  | Some (JStr s) => Some (mockOutputs s)
  | _ => None
  end.

(** [arr.map((x, index) => f)] for an [f] that may throw. *)
Fixpoint map_from {A B : Type} (index : nat) (f : nat -> A -> option B) (l : list A)
  : option (list B) :=
  match l with
  | [] => Some []
  | x :: l' => y ← f index x; k ← map_from (S index) f l'; Some (y :: k)
  end.

Definition map_indexed {A B : Type} (f : nat -> A -> option B) (l : list A)
  : option (list B) :=
  map_from 0 f l.

(** [name.toLowerCase().replace(/[^a-z0-9]/g, '_')]. *)
Definition slug (nodeName : JVal) : option string :=
  low ← lower_of (Some nodeName);
  Some (replace_chars (fun c => negb (lower_or_digit c)) "_" low).

(** [transformArchitecturePlannerNodes]; [t] is the reading of [Date.now()]. *)
Definition transformArchitecturePlannerNodes (t : Z) (summary : JVal)
  : option (list InternalWorkflowNode) :=
  match summary with
  | JStr _ => Some []
  | JArr names =>
      map_indexed (fun index nodeName =>
        sl ← slug nodeName;
        ins ← generateMockInputs (Some nodeName);
        outs ← generateMockOutputs (Some nodeName);
        Some {| nodeId := JStr ("node_" +:+ sl +:+ "_" +:+ pretty t +:+ "_" +:+ pretty index);
                name := nodeName;
                description := JStr (ToString nodeName +:+ " node - finalizing nodes...");
                status := idle;
                params := None;
                loop_text := None;
                category := inferNodeCategory (Some nodeName) (Some nodeName);
                icon := inferNodeIcon (Some nodeName) (Some nodeName);
                inputs := ins;
                outputs := outs;
                isMock := false;
                isArchitecturePlanner := true |}) names
  | _ => None
  end.

(** [transformMockNodes]. *)
Definition transformMockNodes (t : Z) (nodeNames : list JVal)
  : option (list InternalWorkflowNode) :=
  map_indexed (fun index nodeName =>
    sl ← slug nodeName;
    ins ← generateMockInputs (Some nodeName);
    outs ← generateMockOutputs (Some nodeName);
    Some {| nodeId := JStr ("mock_" +:+ sl +:+ "_" +:+ pretty t +:+ "_" +:+ pretty index);
            name := nodeName;
            description := JStr (ToString nodeName +:+ " - generating details...");
            status := generating;
            params := None;
            loop_text := None;
            category := inferNodeCategory (Some nodeName) (Some nodeName);
            icon := inferNodeIcon (Some nodeName) (Some nodeName);
            inputs := ins;
            outputs := outs;
            isMock := true;
            isArchitecturePlanner := false |}) nodeNames.

(** The body of the [map] in [transformNodes]: [Some None] is the [null] the
    following [filter(Boolean)] drops. *)
Definition transformNode (node : JVal) : option (option InternalWorkflowNode) :=
  match (if truthy node then prop "nodeId" node else None) with
  | Some id =>
      if truthy id then
        ins ← generateMockInputs (prop "name" node);
        outs ← generateMockOutputs (prop "name" node);
        Some (Some {| nodeId := id;
                      name := or_val (prop "name" node) (JStr "Unnamed Node");
                      description := or_val (prop "description" node) (JStr "No description");
                      status := idle;
                      params := None;
                      loop_text := None;
                      category := inferNodeCategory (prop "name" node) (prop "description" node);
                      icon := inferNodeIcon (prop "name" node) (prop "description" node);
                      inputs := ins;
                      outputs := outs;
                      isMock := false;
                      isArchitecturePlanner := false |})
      else Some None
  | None => Some None
  end.

(** [transformNodes]. *)
Definition transformNodes (data : option JVal) : option (list InternalWorkflowNode) :=
  match opt_prop "nodes" data with
  | Some (JArr items) =>
      if truthy_opt data then
        l ← mapM transformNode items;
        Some (omap id l)
      else Some []
  | _ => Some []
  end.

(** [transformConnections]: [data.connections.map] throws unless the field
    is an array, and [conn.source] throws on a [null] element. *)
Definition transformConnections (data : option JVal) : option (list InternalConnection) :=
  field ← member "connections" data;
  match field with
  | Some (JArr items) =>
      map_indexed (fun index conn =>
        src ← member "source" (Some conn);
        tgt ← member "target" (Some conn);
        Some {| source := src;
                target := tgt;
                conn_id := "edge_" +:+ ToString_opt src +:+ "_" +:+ ToString_opt tgt
                           +:+ "_" +:+ pretty index |}) items
  | _ => None
  end.

(** [transformDatabaseInfo]; the result [Some None] is [null]. *)
Definition transformDatabaseInfo (data : option JVal)
  : option (option InternalDatabaseInfo) :=
  dbs ← member "databases" data;
  if negb (truthy_opt dbs) then Some None
  else
    len ← member "length" dbs;
    if strict_eq len (Some (JNum "0")) then Some None
    else
      firstDb ← member "0" dbs;
      nm ← member "name" firstDb;
      lk ← member "link" firstDb;
      Some (Some {| db_name := nm; db_link := lk |}).

(** [updateNodeStatus]. *)
Definition updateNodeStatus (nodes : list InternalWorkflowNode) (id : option JVal)
    (st : NodeStatus) : list InternalWorkflowNode :=
  map (fun node =>
         if strict_eq (Some (nodeId node)) id then
           {| nodeId := nodeId node; name := name node; description := description node;
              status := st; params := params node; loop_text := loop_text node;
              category := category node; icon := icon node; inputs := inputs node;
              outputs := outputs node; isMock := isMock node;
              isArchitecturePlanner := isArchitecturePlanner node |}
         else node) nodes.

(** *** The expressions of the corruption-recovery parser *)

Definition not_quote : cls := fun x => negb (quote x).

(** [/id=Q([^Q]+)Q/] where [Q] is the class of the two quote characters;
    the same expression is used for [name], [type] and [param_name]. *)
Definition re_attr (attr : string) : list item :=
  [Lit (attr +:+ "="); One quote; Rep Plus not_quote true; One quote].

(** [/params=\[(.*?)\]/] *)
Definition re_params : list item :=
  [Lit "params=["; Rep LazyStar dot true; Lit "]"].

(** [/NodeParams\(param_name=Q([^Q]+)Q, param_value=([^)]+)\)/g] *)
Definition re_NodeParams : list item :=
  [Lit "NodeParams(param_name="; One quote; Rep Plus not_quote true; One quote;
   Lit ", param_value="; Rep Plus (none_of ")") true; Lit ")"].

(** [/param_value=(.+)/] *)
Definition re_param_value : list item :=
  [Lit "param_value="; Rep Plus dot true].

(** [/\)$/] *)
Definition re_closing : list item := [Lit ")"; Eol].

(** [/loop_over=([^,\]]+)/] *)
Definition re_loop_over : list item :=
  [Lit "loop_over="; Rep Plus (none_of ",]") true].

(** [/\{\{\$([^.}]+)[^}]*\}\}/g] *)
Definition re_variable : list item :=
  [Lit "{{$"; Rep Plus (none_of ".}") true; Rep Star (none_of "}") false; Lit "}}"].

(** [/\{\{\$([^.}]+)/] *)
Definition re_variable_id : list item :=
  [Lit "{{$"; Rep Plus (none_of ".}") true].

(** The first capture of a match. *)
Definition group1 (m : option (list string)) : option string :=
  match m with
  | Some (g :: _) => Some g
  | _ => None
  end.

(** [params[k] = v]: the key [__proto__] names the prototype, and
    assigning it creates no own property. *)
Definition assign (k : string) (v : JVal) (o : Obj) : Obj :=
  if String.eqb k "__proto__" then o else obj_set k v o.

Section Recovery.

(** [JSON.parse]; [None] when it throws a [SyntaxError]. *)
Variable JSON_parse : string -> option JVal.

(** The clean-up of one [param_value] in [parseNodeString]. *)
Definition clean_param_value (raw : string) : JVal :=
  let paramValue := replace1 re_closing (fun _ => []) raw in
  if startsWith "'" paramValue && endsWith "'" paramValue then
    JStr (slice_1_m1 paramValue)
  else if startsWith "[" paramValue && endsWith "]" paramValue then
    match JSON_parse (replace_chars (chr "'") (String "034" EmptyString) paramValue) with
    | Some v => v
    | None => JStr paramValue
    end
  else JStr paramValue.

(** The loop over [paramMatches] in [parseNodeString]. *)
Definition parse_params (paramsStr : string) : Obj :=
  match match_all re_NodeParams paramsStr with
  | None => []
  | Some paramMatches =>
      fold_left (fun params paramMatch =>
                   match group1 (match1 (re_attr "param_name") paramMatch),
                         group1 (match1 re_param_value paramMatch) with
                   | Some paramName, Some raw =>
                       assign paramName (clean_param_value raw) params
                   | _, _ => params
                   end) paramMatches []
  end.

(** [parseNodeString]; [None] is the [null] it returns, also from its
    [catch] when [nodeStr] is not a string. *)
Definition parseNodeString (nodeStr : JVal) : option InternalWorkflowNode :=
  match nodeStr with
  | JStr str =>
      match group1 (match1 (re_attr "id") str),
            group1 (match1 (re_attr "name") str),
            group1 (match1 (re_attr "type") str) with
      | Some id, Some nm, Some ty =>
          let ps := match group1 (match1 re_params str) with
                    | Some paramsStr => parse_params paramsStr
                    | None => []
                    end in
          let lp := match group1 (match1 re_loop_over str) with
                    | Some l => if String.eqb l "None" then JNull
                                else JStr (replace_chars quote EmptyString l)
                    | None => JNull
                    end in
          Some {| nodeId := JStr id;
                  name := JStr nm;
                  description := JStr (ty +:+ " node");
                  status := configured;
                  params := Some (JObj ps);
                  loop_text := Some lp;
                  category := inferNodeCategory (Some (JStr nm)) (Some (JStr ty));
                  icon := inferNodeIcon (Some (JStr nm)) (Some (JStr ty));
                  inputs := ps;
                  outputs := mockOutputs nm;
                  isMock := false;
                  isArchitecturePlanner := false |}
      | _, _, _ => None
      end
  | _ => None
  end.

(** The [try] block of [updateNodeConfiguration]: the nodes extracted from
    the name field ([None] when [JSON.parse] or the iteration throws). *)
Definition extract_nodes (nm : string) : option (list InternalWorkflowNode) :=
  parsed ← JSON_parse nm;
  match parsed with
  | JArr nodeStrings => Some (omap parseNodeString nodeStrings)
  | JStr s => Some (omap parseNodeString (char_strings s))
  | _ => None
  end.

(** The normal update of one node by a configurator payload. *)
Definition configure (data : JVal) (node : InternalWorkflowNode) : InternalWorkflowNode :=
  if strict_eq (Some (nodeId node)) (prop "nodeId" data) then
    {| nodeId := nodeId node;
       name := or_val (prop "name" data) (name node);
       description := or_val (prop "description" data) (description node);
       status := configured;
       params := Some (or_val (prop "params" data) (JObj []));
       loop_text := prop "loop_text" data;
       category := category node;
       icon := icon node;
       inputs := spread_into (ordered (inputs node)) (entries (prop "params" data));
       outputs := outputs node;
       isMock := isMock node;
       isArchitecturePlanner := isArchitecturePlanner node |}
  else node.

(** The corruption pattern: [data.nodeId === 'unknown'] and [data.name] is a
    string that starts with an opening bracket. *)
Definition corrupted (data : JVal) : option string :=
  if is_str "unknown" (prop "nodeId" data) then
    match prop "name" data with
    | Some (JStr nm) => if startsWith "[" nm then Some nm else None
    | _ => None
    end
  else None.

(** [updateNodeConfiguration]; reading [data.nodeId] throws when [data] is
    [null] or [undefined]. *)
Definition updateNodeConfiguration (nodes : list InternalWorkflowNode)
    (data : option JVal) : option (list InternalWorkflowNode) :=
  match data with
  | None | Some JNull => None
  | Some d =>
      let normal := map (configure d) nodes in
      match corrupted d with
      | Some nm =>
          match extract_nodes nm with
          | Some (n :: extractedNodes) => Some (n :: extractedNodes)
          | _ => Some normal
          end
      | None => Some normal
      end
  end.

End Recovery.

(** The source node ids referred to by one parameter value, in order. *)
Definition references (paramValue : string) : list string :=
  match match_all re_variable paramValue with
  | None => []
  | Some variableMatches =>
      omap (fun m => group1 (match1 re_variable_id m)) variableMatches
  end.

(** The innermost step of [extractConnectionsFromNodes]: one reference
    found in a parameter of [node]. *)
Definition add_connection (nodes : list InternalWorkflowNode)
    (node : InternalWorkflowNode)
    (acc : list InternalConnection * gset string) (sourceNodeId : string)
  : list InternalConnection * gset string :=
  if existsb (fun n => strict_eq (Some (nodeId n)) (Some (JStr sourceNodeId))) nodes
     && negb (strict_eq (Some (JStr sourceNodeId)) (Some (nodeId node)))
  then
    let connectionId := sourceNodeId +:+ "_to_" +:+ ToString (nodeId node) in
    if decide (connectionId ∈ acc.2) then acc
    else (acc.1 ++ [{| source := Some (JStr sourceNodeId);
                       target := Some (nodeId node);
                       conn_id := "edge_" +:+ sourceNodeId +:+ "_"
                                  +:+ ToString (nodeId node) |}],
          {[connectionId]} ∪ acc.2)
  else acc.

Definition scan_param (nodes : list InternalWorkflowNode) (node : InternalWorkflowNode)
    (acc : list InternalConnection * gset string) (entry : string * JVal)
  : list InternalConnection * gset string :=
  match snd entry with
  | JStr paramValue => fold_left (add_connection nodes node) (references paramValue) acc
  | _ => acc
  end.

Definition scan_node (nodes : list InternalWorkflowNode)
    (acc : list InternalConnection * gset string) (node : InternalWorkflowNode)
  : list InternalConnection * gset string :=
  if truthy_opt (params node)
  then fold_left (scan_param nodes node) (entries (params node)) acc
  else acc.

(** [extractConnectionsFromNodes]. *)
Definition extractConnectionsFromNodes (nodes : list InternalWorkflowNode)
  : list InternalConnection :=
  (fold_left (scan_node nodes) nodes ([], ∅)).1.

(** [sanitizeEventData]. *)
Definition sanitizeEventData (event : SSEEvent) : SSEEvent :=
  if negb (isSSEStepEvent event) then event
  else
    match assoc "data" event with
    | Some ((JArr _ | JObj _) as data) =>
        let repair field :=
          if isArray (prop field data) then event
          else obj_set "data" (JObj [(field, JArr [])]) (ordered event) in
        if is_str "node_selector" (assoc "step" event) then repair "nodes"
        else if is_str "connection_builder" (assoc "step" event) then repair "connections"
        else if is_str "database_setup" (assoc "step" event) then repair "databases"
        else event
    | _ => obj_set "data" (JObj []) (ordered event)
    end.

(** [createChatMessage(event, content)]; [rnd] is the text
    [Math.random().toString(36).substr(2, 9)] produced.  The outer [None] is
    a [TypeError], [Some None] the [null] it returns. *)
Definition createChatMessage (t : Z) (rnd : string) (event : JVal)
    (content : option JVal) : option (option ChatMessage) :=
  step ← member "step" (Some event);
  status ← member "status" (Some event);
  data ← member "data" (Some event);
  let id := "msg_" +:+ pretty t +:+ "_" +:+ rnd in
  let done_message (messageContent : JVal) :=
    {| msg_id := id; msg_type := msg_step; content := messageContent;
       timestamp := t; step := step |} in
  let counted :=
    databases ← member "databases" data;
    let dbCount := or_val (opt_prop "length" databases) (JNum "0") in
    if strict_eq (Some dbCount) (Some (JNum "0")) then Some None
    else Some (Some (done_message
                       (JStr (ToString dbCount +:+ " database"
                              +:+ (if strict_eq (Some dbCount) (Some (JNum "1"))
                                   then EmptyString else "s")
                              +:+ " set up successfully")))) in
  if negb (is_str "database_setup" step) then Some None
  else if is_str "error" status then
    message ← member "message" data;
    Some (Some {| msg_id := id; msg_type := msg_error;
                  content := or_val message (JStr ("Error in " +:+ ToString_opt step));
                  timestamp := t; step := step |})
  else if negb (is_str "done" status) then Some None
  else
    match content with
    | Some messageContent =>
        if truthy messageContent then Some (Some (done_message messageContent))
        else counted
    | None => counted
    end.

(* ================================================================== *)
(** ** The generation-state hook (hooks/use-generation-state.ts) *)
(* ================================================================== *)

Definition createInitialState (generationId : option string) : GenerationState :=
  {| currentStep := Some JNull;
     isComplete := false;
     hasError := false;
     chatMessages := [];
     nodes := [];
     connections := [];
     mockNodes := [];
     hasMockNodes := false;
     showCanvas := false;
     isCollapsed := false;
     generationId := generationId;
     databases := None |}.

Definition append_message (m : ChatMessage) (s : GenerationState) : GenerationState :=
  set_chatMessages (chatMessages s ++ [Some m]) s.

Section Reducer.

Variable JSON_parse : string -> option JVal.

(** The branch of the state updater for system events. *)
Definition reduce_system (t : Z) (prevState : GenerationState) (ev : SSEEvent)
  : GenerationState :=
  if is_str "connected" (assoc "type" ev) then
    set_currentStep (Some (JStr "connected")) prevState
  else if is_str "status" (assoc "type" ev) then
    if is_str "COMPLETED" (assoc "status" ev) then
      append_message {| msg_id := "msg_" +:+ pretty t +:+ "_completed";
                        msg_type := msg_assistant;
                        content := JStr "Agent generation complete!";
                        timestamp := t;
                        step := Some (JStr "completed") |}
        (set_currentStep (Some (JStr "completed")) (set_isComplete true prevState))
    else if is_str "ERROR" (assoc "status" ev) then
      append_message {| msg_id := "msg_" +:+ pretty t +:+ "_error";
                        msg_type := msg_error;
                        content := JStr "An error occurred during generation";
                        timestamp := t;
                        step := Some (JStr "error") |}
        (set_currentStep (Some (JStr "error")) (set_hasError true prevState))
    else prevState
  else prevState.

(** The successive [if] blocks of the branch for step events; each one
    reads the state the previous one left. *)

Definition on_prompt (t : Z) (step status data : option JVal) (s : GenerationState)
  : GenerationState :=
  match opt_prop "summary" data with
  | Some summary =>
      if is_str "architecture_planner" step && is_str "started" status && truthy summary
      then append_message {| msg_id := "msg_" +:+ pretty t +:+ "_prompt";
                             msg_type := msg_system;
                             content := summary;
                             timestamp := t;
                             step := Some (JStr "architecture_planner") |} s
      else s
  | None => s
  end.

Definition on_architecture_done (t : Z) (step status data : option JVal)
    (s : GenerationState) : option GenerationState :=
  if is_str "architecture_planner" step && is_str "done" status
     && truthy_opt (opt_prop "summary" data)
  then
    let mockNodeNames := match opt_prop "summary" data with
                         | Some (JArr names) => names
                         | _ => []
                         end in
    mockNodes ← transformArchitecturePlannerNodes t (JArr mockNodeNames);
    Some (set_showCanvas true
            (set_hasMockNodes (0 <? length mockNodes)%nat
               (set_mockNodes mockNodes s)))
  else Some s.

Definition on_nodes_selected (step status data : option JVal) (s : GenerationState)
  : option GenerationState :=
  if is_str "node_selector" step && is_str "done" status
     && truthy_opt (opt_prop "nodes" data)
  then
    transformedNodes ← transformNodes data;
    Some (set_mockNodes [] (set_hasMockNodes false (set_nodes transformedNodes s)))
  else Some s.

Definition on_connections_built (step status data : option JVal) (s : GenerationState)
  : option GenerationState :=
  if is_str "connection_builder" step && is_str "done" status
  then
    transformedConnections ← transformConnections data;
    Some (set_connections transformedConnections s)
  else Some s.

Definition on_configurator (step status data : option JVal) (s : GenerationState)
  : option GenerationState :=
  if is_str "node_configurator" step then
    if is_str "started" status && truthy_opt (opt_prop "nodeId" data) then
      Some (set_nodes (updateNodeStatus (nodes s) (opt_prop "nodeId" data) configuring) s)
    else if is_str "done" status then
      let previousNodeCount := length (nodes s) in
      updatedNodes ← updateNodeConfiguration JSON_parse (nodes s) data;
      if (previousNodeCount <? length updatedNodes)%nat then
        Some (set_showCanvas true
                (set_connections (extractConnectionsFromNodes updatedNodes)
                   (set_nodes updatedNodes s)))
      else Some (set_nodes updatedNodes s)
    else Some s
  else Some s.

Definition on_database_setup (step status data : option JVal) (s : GenerationState)
  : option GenerationState :=
  if is_str "database_setup" step && is_str "done" status
     && truthy_opt (opt_prop "databases" data)
  then
    databases ← transformDatabaseInfo (opt_prop "databases" data);
    Some (set_databases (Some databases) s)
  else Some s.

Definition on_step_error (t : Z) (step status data : option JVal) (s : GenerationState)
  : GenerationState :=
  if is_str "error" status then
    append_message {| msg_id := "msg_" +:+ pretty t +:+ "_step_error";
                      msg_type := msg_error;
                      content := or_val (opt_prop "message" data)
                                   (JStr ("Error in " +:+ ToString_opt step));
                      timestamp := t;
                      step := step |}
      (set_hasError true s)
  else s.

(** The branch of the state updater for step events. *)
Definition reduce_step (t : Z) (prevState : GenerationState) (ev : SSEEvent)
  : option GenerationState :=
  let step := assoc "step" ev in
  let status := assoc "status" ev in
  let data := assoc "data" ev in
  let s0 := set_currentStep step prevState in
  let s1 := on_prompt t step status data s0 in
  s2 ← on_architecture_done t step status data s1;
  s3 ← on_nodes_selected step status data s2;
  s4 ← on_connections_built step status data s3;
  s5 ← on_configurator step status data s4;
  s6 ← on_database_setup step status data s5;
  Some (on_step_error t step status data s6).

(** The function [handleSSEMessage] passes to [setState]: the new snapshot,
    or [None] when the updater throws.  [t] is the clock read inside it. *)
Definition reduce (t : Z) (prevState : GenerationState) (sanitizedEvent : SSEEvent)
  : option GenerationState :=
  if isSSESystemEvent sanitizedEvent then Some (reduce_system t prevState sanitizedEvent)
  else if isSSEStepEvent sanitizedEvent then reduce_step t prevState sanitizedEvent
  else Some prevState.

(** What the hook holds: the snapshot, the two refs and the two flags. *)
Record HookState : Type := {
  state : GenerationState;
  processedEventIds : gset string;
  received : nat;
  processed : nat;
  sseCompleted : bool;
  isConnecting : bool
}.

Definition initialHook (generationId : option string) : HookState :=
  {| state := createInitialState generationId;
     processedEventIds := ∅;
     received := 0;
     processed := 0;
     sseCompleted := false;
     isConnecting := false |}.

(** The identity key of an event: [`${event.step || event.type}_${Date.now()}`]. *)
Definition eventId (now : Z) (event : SSEEvent) : string :=
  ToString_opt (or_else (assoc "step" event) (assoc "type" event)) +:+ "_" +:+ pretty now.

(** [handleSSEMessage]; [now] is the clock read on arrival.  An updater that
    throws commits no snapshot: the state stays the one before the event. *)
Definition handleSSEMessage (now t : Z) (event : SSEEvent) (h : HookState) : HookState :=
  if decide (eventId now event ∈ processedEventIds h) then h
  else
    let sanitizedEvent := sanitizeEventData event in
    let ids := {[eventId now event]} ∪ processedEventIds h in
    match reduce t (state h) sanitizedEvent with
    | Some newState =>
        {| state := newState;
           processedEventIds := ids;
           received := S (received h);
           processed := if isSSESystemEvent sanitizedEvent then processed h
                        else S (processed h);
           sseCompleted := sseCompleted h;
           isConnecting := isConnecting h |}
    | None =>
        {| state := state h;
           processedEventIds := ids;
           received := S (received h);
           processed := processed h;
           sseCompleted := sseCompleted h;
           isConnecting := isConnecting h |}
    end.

(** [reset]. *)
Definition reset (generationId : option string) (h : HookState) : HookState :=
  {| state := createInitialState generationId;
     processedEventIds := ∅;
     received := 0;
     processed := 0;
     sseCompleted := false;
     isConnecting := isConnecting h |}.

Definition with_state (s : GenerationState) (h : HookState) : HookState :=
  {| state := s;
     processedEventIds := processedEventIds h;
     received := received h;
     processed := processed h;
     sseCompleted := sseCompleted h;
     isConnecting := isConnecting h |}.

(** [toggleChat]. *)
Definition toggleChat (h : HookState) : HookState :=
  with_state (set_isCollapsed (negb (isCollapsed (state h))) (state h)) h.

(** [setMockNodes]. *)
Definition setMockNodes (t : Z) (nodeNames : list JVal) (h : HookState) : HookState :=
  match transformMockNodes t nodeNames with
  | Some mockNodes =>
      with_state
        (set_showCanvas (0 <? length mockNodes)%nat
           (set_hasMockNodes (0 <? length mockNodes)%nat
              (set_mockNodes mockNodes (state h)))) h
  | None => h
  end.

(** The [onError] callback given to the transport: it calls
    [createChatMessage('error', ..., 'error')], whose first argument is a
    string and not an event. *)
Definition onError (t : Z) (rnd : string) (message : string) (h : HookState) : HookState :=
  match createChatMessage t rnd (JStr "error")
          (Some (JStr ("Connection error: " +:+ message))) with
  | Some m =>
      {| state := set_chatMessages (chatMessages (state h) ++ [m])
                    (set_hasError true (state h));
         processedEventIds := processedEventIds h;
         received := received h;
         processed := processed h;
         sseCompleted := true;
         isConnecting := false |}
  | None =>
      {| state := state h;
         processedEventIds := processedEventIds h;
         received := received h;
         processed := processed h;
         sseCompleted := true;
         isConnecting := false |}
  end.

(** Everything that can happen to the hook. *)
Inductive Action : Type :=
| Deliver (now t : Z) (event : SSEEvent)
| Reset (generationId : option string)
| ToggleChat
| SetMockNodes (t : Z) (nodeNames : list JVal)
| TransportError (t : Z) (rnd message : string).

Definition act (a : Action) (h : HookState) : HookState :=
  match a with
  | Deliver now t event => handleSSEMessage now t event h
  | Reset generationId => reset generationId h
  | ToggleChat => toggleChat h
  | SetMockNodes t nodeNames => setMockNodes t nodeNames h
  | TransportError t rnd message => onError t rnd message h
  end.

(** A session: the actions in arrival order. *)
Definition run_session (l : list Action) (h : HookState) : HookState :=
  fold_left (fun h a => act a h) l h.

End Reducer.

(* ================================================================== *)
(** ** The canvas (components/generation-canvas.tsx) *)
(* ================================================================== *)

Module Canvas.

(** What [convertToFlowNode] returns: the id, the seed position and the
    data shown by the node card ([data] keeps the source node for the fields
    copied as they are). *)
Record FlowNode : Type := {
  id : JVal;
  x : Z;
  y : Z;
  nodeType : string;
  shown_loop_text : option JVal;
  shown_status : NodeStatus;
  data : InternalWorkflowNode
}.

(** What [convertToFlowEdge] returns. *)
Record Edge : Type := {
  edge_id : string;
  edge_source : option JVal;
  edge_target : option JVal
}.

(** [/^\{\{\$(.+)\}\}$/], tried at the start of the text only. *)
Definition re_whole_variable : list item :=
  [Lit "{{$"; Rep Plus dot true; Lit "}}"; Eol].

(** [s.replace(/^\{\{\$(.+)\}\}$/, '$1')]. *)
Definition unwrap_variable (s : string) : string :=
  match exec re_whole_variable (list_ascii_of_string s) with
  | Some r => match groups r with
              | g :: _ => string_of_list_ascii (g ++ rest r)
              | [] => s
              end
  | None => s
  end.

(** [convertToFlowNode]; [None] when [nodeId.split] or [loop_text.replace]
    is not a function. *)
Definition convertToFlowNode (node : InternalWorkflowNode) (index : nat)
  : option FlowNode :=
  ty ← (if isMock node then Some "node"
        else match nodeId node with
             | JStr s => Some (before_underscore s)
             | _ => None
             end);
  lp ← match loop_text node with
       | None | Some JNull => Some None
       | Some (JStr s) => Some (Some (JStr (unwrap_variable s)))
       | Some _ => None
       end;
  Some {| id := nodeId node;
          x := 100 + Z.of_nat index * 350;
          y := 200;
          nodeType := ty;
          shown_loop_text := lp;
          shown_status := status node;
          data := node |}.

(** [convertToFlowEdge]; it does not use [index]. *)
Definition convertToFlowEdge (connection : InternalConnection) (index : nat) : Edge :=
  {| edge_id := if String.eqb (conn_id connection) EmptyString
                then "edge-" +:+ ToString_opt (source connection) +:+ "-"
                     +:+ ToString_opt (target connection)
                else conn_id connection;
     edge_source := source connection;
     edge_target := target connection |}.

(** The node population the projector renders: the real nodes when there
    are any, the mock nodes otherwise. *)
Definition nodesToRender (generationState : GenerationState)
  : list InternalWorkflowNode :=
  if (0 <? length (nodes generationState))%nat
  then nodes generationState
  else mockNodes generationState.

(** The [flowNodes] memo. *)
Definition flowNodes (generationState : GenerationState) : option (list FlowNode) :=
  map_indexed (fun index node => convertToFlowNode node index)
    (nodesToRender generationState).

(** One running [processConnections]: the connection list its closure
    captured and the value of its loop variable. *)
Record Reveal : Type := {
  captured : list InternalConnection;
  i : nat
}.

(** The state of the component that the edge reveal reads and writes, and
    the [processConnections] calls that are suspended in a timer.  Node
    positions (the layout passes) are not part of it. *)
Record Coordinator : Type := {
  edges : list Edge;
  isProcessingConnections : bool;
  lastNodeCount : nat;
  reveals : list Reveal
}.

Definition initial : Coordinator :=
  {| edges := []; isProcessingConnections := false; lastNodeCount := 0; reveals := [] |}.

Definition currentNodeCount (generationState : GenerationState) : nat :=
  if (0 <? length (nodes generationState))%nat
  then length (nodes generationState)
  else length (mockNodes generationState).

(** The effect that watches the node count. *)
Definition nodeCountEffect (generationState : GenerationState) (c : Coordinator)
  : Coordinator :=
  let n := currentNodeCount generationState in
  if (lastNodeCount c <? n)%nat && (0 <? n)%nat then
    {| edges := []; isProcessingConnections := false; lastNodeCount := n;
       reveals := reveals c |}
  else if (n <? lastNodeCount c)%nat then
    {| edges := []; isProcessingConnections := false; lastNodeCount := n;
       reveals := reveals c |}
  else if (lastNodeCount c =? 0)%nat && (0 <? n)%nat then
    {| edges := edges c; isProcessingConnections := isProcessingConnections c;
       lastNodeCount := n; reveals := reveals c |}
  else c.

(** The effect that starts a reveal.  [processConnections] runs up to its
    first [await]: it appends the edge of the first connection. *)
Definition connectionsEffect (generationState : GenerationState) (c : Coordinator)
  : Coordinator :=
  match connections generationState with
  | first :: _ =>
      if negb (isProcessingConnections c) && (length (edges c) =? 0)%nat then
        {| edges := edges c ++ [convertToFlowEdge first 0];
           isProcessingConnections := true;
           lastNodeCount := lastNodeCount c;
           reveals := reveals c ++ [{| captured := connections generationState; i := 0 |}] |}
      else c
  | [] => c
  end.

(** The timers of the [k]-th suspended [processConnections] have run out:
    its loop goes on to the next connection of the list it captured, or ends
    and clears the flag.  (The two waits of one round are taken together:
    between them only node positions are set.) *)
Definition resume (k : nat) (c : Coordinator) : Coordinator :=
  match reveals c !! k with
  | None => c
  | Some r =>
      match captured r !! S (i r) with
      | Some connection =>
          {| edges := edges c ++ [convertToFlowEdge connection (S (i r))];
             isProcessingConnections := isProcessingConnections c;
             lastNodeCount := lastNodeCount c;
             reveals := <[k := {| captured := captured r; i := S (i r) |}]> (reveals c) |}
      | None =>
          {| edges := edges c;
             isProcessingConnections := false;
             lastNodeCount := lastNodeCount c;
             reveals := delete k (reveals c) |}
      end
  end.

End Canvas.

(* ================================================================== *)
(** ** The other functions of the three files, their callee and caller *)
(* ================================================================== *)

(** *** lib/generation-transformers.ts *)

Section Parse.

Variable JSON_parse : string -> option JVal.

(** [parseSSEMessage]; [None] is the [null] it returns, also from its
    [catch]: [JSON.parse] throws on a text that is no JSON, and the [in] of
    the type guards throws on [null] and on a string, a number or a
    boolean.  An array has none of the three keys. *)
Definition parseSSEMessage (rawData : string) : option JVal :=
  match JSON_parse rawData with
  | Some (JObj parsed) =>
      if isSSEStepEvent parsed then Some (JObj parsed)
      else if isSSESystemEvent parsed then Some (JObj parsed)
      else None
  | Some (JArr _) => None
  | Some _ => None
  | None => None
  end.

End Parse.

(** What [internalNodesToReactFlowNodes] returns for one node. *)
Record ReactFlowNode : Type := {
  rf_id : JVal;
  rf_type : string;
  rf_x : Z;
  rf_y : Z;
  rf_label : JVal;
  rf_description : JVal
}.

(** What [internalConnectionsToReactFlowEdges] returns for one connection. *)
Record ReactFlowEdge : Type := {
  rfe_id : string;
  rfe_source : option JVal;
  rfe_target : option JVal;
  rfe_type : string
}.

(** The workflow the two converters below return. *)
Record Workflow : Type := {
  wf_name : JVal;
  wf_nodes : list ReactFlowNode;
  wf_edges : list ReactFlowEdge
}.

(** [internalNodesToReactFlowNodes]. *)
Definition internalNodesToReactFlowNodes (nodes : list InternalWorkflowNode)
  : list ReactFlowNode :=
  imap (fun index node =>
          {| rf_id := nodeId node;
             rf_type := "simple";
             rf_x := 100;
             rf_y := Z.of_nat index * 100;
             rf_label := name node;
             rf_description := description node |}) nodes.

(** [internalConnectionsToReactFlowEdges]. *)
Definition internalConnectionsToReactFlowEdges (connections : list InternalConnection)
  : list ReactFlowEdge :=
  map (fun conn =>
         {| rfe_id := conn_id conn;
            rfe_source := source conn;
            rfe_target := target conn;
            rfe_type := "default" |}) connections.

(** [s.slice(0, 50)]. *)
Definition slice_0_50 (s : string) : string :=
  string_of_list_ascii (take 50 (list_ascii_of_string s)).

(** [mockNodesToWorkflow]. *)
Definition mockNodesToWorkflow (mockNodes : list InternalWorkflowNode)
    (originalPrompt : string) : Workflow :=
  {| wf_name := JStr ("Generating: " +:+ slice_0_50 originalPrompt
                      +:+ (if (50 <? String.length originalPrompt)%nat
                           then "..." else EmptyString));
     wf_nodes := internalNodesToReactFlowNodes mockNodes;
     wf_edges := [] |}.

(** [chatMessages.find(msg => msg.type === 'system')]: [Some None] when
    there is none, [None] when the search reaches a [null] element, whose
    [type] cannot be read. *)
Fixpoint find_system (msgs : list (option ChatMessage))
  : option (option ChatMessage) :=
  match msgs with
  | [] => Some None
  | None :: _ => None
  | Some msg :: msgs' =>
      match msg_type msg with
      | msg_system => Some (Some msg)
      | _ => find_system msgs'
      end
  end.

(** [generationStateToWorkflow]; [customName] is [None] when the argument
    is left out. *)
Definition generationStateToWorkflow (state : GenerationState)
    (customName : option string) : option Workflow :=
  workflowName ←
    (match customName with
     | Some n =>
         if negb (String.eqb n EmptyString) then Some (JStr n)
         else initialPrompt ← find_system (chatMessages state);
              Some (match initialPrompt with
                    | Some msg => content msg
                    | None => JStr "Generated Workflow"
                    end)
     | None =>
         initialPrompt ← find_system (chatMessages state);
         Some (match initialPrompt with
               | Some msg => content msg
               | None => JStr "Generated Workflow"
               end)
     end);
  Some {| wf_name := workflowName;
          wf_nodes := internalNodesToReactFlowNodes (nodes state);
          wf_edges := internalConnectionsToReactFlowEdges (connections state) |}.

(** *** hooks/use-generation-state.ts: the derived values *)

(** [state.currentStep !== null && !state.isComplete && !state.hasError]. *)
Definition isProcessing (s : GenerationState) : bool :=
  negb (strict_eq (currentStep s) (Some JNull))
  && negb (isComplete s) && negb (hasError s).

(** [state.showCanvas || state.nodes.length > 0 || state.hasMockNodes]. *)
Definition canShowCanvas (s : GenerationState) : bool :=
  showCanvas s || (0 <? length (nodes s))%nat || hasMockNodes s.

Definition hasNodes (s : GenerationState) : bool := (0 <? length (nodes s))%nat.

Definition hasConnections (s : GenerationState) : bool :=
  (0 <? length (connections s))%nat.

(** [isCompleted: state.isComplete || sseCompleted]. *)
Definition isCompleted (h : HookState) : bool :=
  isComplete (state h) || sseCompleted h.

(** *** hooks/use-sse.ts *)

Section Transport.

Variable JSON_parse : string -> option JVal.

(** The identity key of whatever [JSON.parse] returned, read as
    [handleSSEMessage] reads it. *)
Definition messageId (now : Z) (data : JVal) : string :=
  ToString_opt (or_else (prop "step" data) (prop "type" data))
  +:+ "_" +:+ pretty now.

(** [eventSource.onmessage], with [handleSSEMessage] as [onMessage].  Its
    [try] block catches what [JSON.parse] and the callback throw:
    - on [null] the callback throws when it reads [event.step], before it
      has done anything;
    - on a string, a number or a boolean it records the key and counts the
      event, and then [sanitizeEventData] throws on ['step' in event];
    - on an array nothing throws: the event is neither a step nor a system
      event, and the updater returns a copy of the snapshot. *)
Definition onmessage (now t : Z) (raw : string) (h : HookState) : HookState :=
  match JSON_parse raw with
  | None => h
  | Some JNull => h
  | Some (JObj event) => handleSSEMessage JSON_parse now t event h
  | Some data =>
      if decide (messageId now data ∈ processedEventIds h) then h
      else
        {| state := state h;
           processedEventIds := {[messageId now data]} ∪ processedEventIds h;
           received := S (received h);
           processed := match data with
                        | JArr _ => S (processed h)
                        | _ => processed h
                        end;
           sseCompleted := sseCompleted h;
           isConnecting := isConnecting h |}
  end.

End Transport.

(** *** app/workflows/[workflow-id]/page.tsx *)

Inductive Role : Type := role_user | role_assistant.

(** One element of [chatMessages] through
    [filter(msg => msg && msg.content)] and the [map] that follows. *)
Definition chatLine (m : option ChatMessage) : option (Role * JVal) :=
  match m with
  | Some msg =>
      if truthy (content msg)
      then Some (match msg_type msg with
                 | msg_system => role_user
                 | _ => role_assistant
                 end,
                 or_val (Some (content msg)) (JStr EmptyString))
      else None
  | None => None
  end.

Definition chatLines (msgs : list (option ChatMessage)) : list (Role * JVal) :=
  omap chatLine msgs.

(** The effect that copies the messages of the snapshot into the chat
    history of the page. *)
Definition chatEffect (generationState : GenerationState)
    (chatHistory : list (Role * JVal)) : list (Role * JVal) :=
  if (0 <? length (chatMessages generationState))%nat
  then chatLines (chatMessages generationState)
  else chatHistory.

(** *** components/generation-canvas.tsx: the status indicator *)

(** The text [getStatusInfo] of [StatusIndicator] chooses. *)
Definition getStatusInfo (state : GenerationState) (isProcessingConnections : bool)
  : string :=
  if hasError state then "Generation failed"
  else if isComplete state && negb isProcessingConnections
  then "Workflow generation complete"
  else if isComplete state && isProcessingConnections
  then "Animating connections & progressive layout..."
  else if is_str "workflow_saver" (currentStep state) then "Saving workflow..."
  else if is_str "node_configurator" (currentStep state) then "Configuring nodes..."
  else if is_str "connection_builder" (currentStep state) || isProcessingConnections
  then "Building connections & organizing layout..."
  else if is_str "node_selector" (currentStep state) then "Selecting nodes..."
  else if (0 <? length (nodes state))%nat && negb (truthy_opt (currentStep state))
          && negb (isComplete state)
  then "Generation loaded"
  else "Initializing...".

(** *** components/workflow-generation-node.tsx: template variables *)

(** [/(\{\{\$[^}]+\}\})/g], the separator of [HighlightedText]; its one
    group is the whole match. *)
Definition re_pill : list item :=
  [Lit "{{$"; Rep Plus (none_of "}") false; Lit "}}"].

(** [/^\{\{\$([^}]+)\}\}$/], tried at the start of a part. *)
Definition re_whole_pill : list item :=
  [Lit "{{$"; Rep Plus (none_of "}") true; Lit "}}"; Eol].

(** [text.split(re_pill)]: the texts between the matches and, the group
    being the whole match, the matches themselves.  The expression matches
    no empty text, so each round goes on from the end of its match. *)
Fixpoint split_at (fuel : nat) (s : list ascii) : list (list ascii) :=
  match fuel with
  | O => [s]
  | S fuel' =>
      match search re_pill s with
      | None => [s]
      | Some (b, r) => b :: text r :: split_at fuel' (rest r)
      end
  end.

Definition split_pills (txt : string) : list string :=
  map string_of_list_ascii (split_at (S (String.length txt)) (list_ascii_of_string txt)).

(** What [HighlightedText] renders for one part: a pill that shows the
    inside of a template variable, or the part as it is. *)
Inductive Piece : Type :=
| Pill (inside : string)
| Span (part : string).

Definition piece (part : string) : Piece :=
  match exec re_whole_pill (list_ascii_of_string part) with
  | Some r => match groups r with
              | g :: _ => Pill (string_of_list_ascii g)
              | [] => Span part
              end
  | None => Span part
  end.

(** [HighlightedText]. *)
Definition HighlightedText (txt : string) : list Piece :=
  map piece (split_pills txt).

(* ================================================================== *)
(** ** The vocabulary of the properties *)
(* ================================================================== *)

(** The statements below are written with the following predicates,
    sample values and auxiliary functions; none of them is part of the
    program. *)

Abbreviation chars := list_ascii_of_string.

(** Every action of the hook but the explicit reset. *)
Definition not_reset (a : Action) : Prop :=
  match a with Reset _ => False | _ => True end.

(** The terminal flags only ever go up. *)
Definition flags_kept (s s' : GenerationState) : Prop :=
  (isComplete s = true -> isComplete s' = true)
  /\ (hasError s = true -> hasError s' = true).

(** [hasMockNodes] says whether there are mock nodes. *)
Definition mock_flag_ok (s : GenerationState) : Prop :=
  hasMockNodes s = true <-> mockNodes s <> [].

(** A node built as a placeholder carries one of the two marks
    ([isMock] from the seeding operation, [isArchitecturePlanner] from the
    planner summary); an authoritative node carries neither. *)
Definition is_mock (n : InternalWorkflowNode) : bool :=
  isMock n || isArchitecturePlanner n.

(** The real nodes carry no mark and the mock nodes carry one. *)
Definition populations_ok (s : GenerationState) : Prop :=
  Forall (fun n => is_mock n = false) (nodes s)
  /\ Forall (fun n => is_mock n = true) (mockNodes s).

(** The key under which [extractConnectionsFromNodes] remembers an edge. *)
Definition connection_key (c : InternalConnection) : string :=
  match source c, target c with
  | Some (JStr sourceNodeId), Some tgt => sourceNodeId +:+ "_to_" +:+ ToString tgt
  | _, _ => EmptyString
  end.

(** What the loop of [extractConnectionsFromNodes] maintains. *)
Record extraction_ok (nodes : list InternalWorkflowNode)
    (acc : list InternalConnection * gset string) : Prop := {
  sources_exist :
    Forall (fun c => exists n, n ∈ nodes /\ source c = Some (nodeId n)) acc.1;
  no_self_reference : Forall (fun c => source c <> target c) acc.1;
  keys_recorded : Forall (fun c => connection_key c ∈ acc.2) acc.1;
  shaped : Forall (fun c => exists s t, source c = Some (JStr s) /\ target c = Some t) acc.1;
  pairs_distinct : NoDup (map (fun c => (source c, target c)) acc.1)
}.

(** The first test of the normaliser on a step event,
    [!event.data || typeof event.data !== 'object']. *)
Definition data_missing (event : SSEEvent) : bool :=
  match assoc "data" event with
  | Some d => negb (truthy d && typeof_object d)
  | None => true
  end.

(** The events whose reduction replaces the node list: [node_selector/done],
    and [node_configurator/done] carrying the corruption pattern. *)
Definition replaces_nodes (event : SSEEvent) : bool :=
  is_str "done" (assoc "status" event)
  && (is_str "node_selector" (assoc "step" event)
      || is_str "node_configurator" (assoc "step" event)
         && match assoc "data" event with
            | Some d => match corrupted d with Some _ => true | None => false end
            | None => false
            end).

(** The actions that may replace the node list. *)
Definition may_replace_nodes (a : Action) : bool :=
  match a with
  | Deliver _ _ event => replaces_nodes event
  | Reset _ => true
  | _ => false
  end.

(** The next character, if any, is outside the class. *)
Definition stops (c : cls) (s : list ascii) : Prop :=
  match s with
  | [] => True
  | x :: _ => c x = false
  end.

(** A literal and a text differ at a position both have. *)
Fixpoint clash (l p : list ascii) : bool :=
  match l, p with
  | a :: l', b :: p' => if Ascii.eqb a b then clash l' p' else true
  | _, _ => false
  end.

(** The literal clashes with the text at each of its positions. *)
Fixpoint all_clash (l p : list ascii) : bool :=
  match p with
  | [] => true
  | _ :: p' => clash l p && all_clash l p'
  end.

(** The characters that end a piece of a record: the quotes, the equals
    sign, the closing parenthesis and bracket, and the line breaks. *)
Definition delimiters : list ascii :=
  ["'"; "034"; "="; ")"; "]"; "010"; "013"]%char.

(** A character that is no delimiter. *)
Definition value_char (c : ascii) : bool :=
  negb (existsb (Ascii.eqb c) delimiters).

(** A text that opens no reference: free of delimiters and of opening
    braces (it may be empty). *)
Definition plain_char (c : ascii) : bool :=
  value_char c && negb (Ascii.eqb c "{").

Definition plain (s : string) : bool := forallb plain_char (chars s).

(** An identifier, a name, a type or a field: not empty, and free of
    delimiters, dots and braces. *)
Definition clean_char (c : ascii) : bool :=
  value_char c && none_of ".{}" c.

Definition clean (s : string) : bool :=
  negb (String.eqb s EmptyString) && forallb clean_char (chars s).

(** A record as the upstream process prints it, the example in the comment
    of [parseNodeString]: [id='...' name='...' type='...' params=[...]
    loop_over=None]. *)
Definition record (id nm ty ps : string) : string :=
  "id='" +:+ id +:+ "' name='" +:+ nm +:+ "' type='" +:+ ty +:+ "' params=["
  +:+ ps +:+ "] loop_over=None".

(** One parameter between the brackets, with a quoted value. *)
Definition node_param (p v : string) : string :=
  "NodeParams(param_name='" +:+ p +:+ "', param_value='" +:+ v +:+ "')".

(** The parameters after the first one, each behind a comma and a space. *)
Fixpoint more_params (l : list (string * string)) : string :=
  match l with
  | [] => EmptyString
  | (p, v) :: l' => ", " +:+ node_param p v +:+ more_params l'
  end.

(** The parameters between the brackets. *)
Definition node_params (l : list (string * string)) : string :=
  match l with
  | [] => EmptyString
  | (p, v) :: l' => node_param p v +:+ more_params l'
  end.

(** Parameters the parser reads back: clean names, and values free of
    delimiters. *)
Definition params_ok (l : list (string * string)) : Prop :=
  Forall (fun pv => clean (fst pv) = true
                    /\ Forall (fun c => value_char c = true) (chars (snd pv))) l.

(** Parameters that refer to no node: clean names and plain values. *)
Definition plain_params (l : list (string * string)) : bool :=
  forallb (fun pv => clean (fst pv) && plain (snd pv)) l.

(** Two things in one of the two orders. *)
Definition in_order {X : Type} (swapped : bool) (a b : X) : list X :=
  if swapped then [b; a] else [a; b].

(** A reference to a field of another node. *)
Definition reference (id field : string) : string :=
  "{{$" +:+ id +:+ "." +:+ field +:+ "}}".

Arguments record : simpl never.
Arguments node_param : simpl never.
Arguments reference : simpl never.

(** The captures of the leftmost match. *)
Definition captures (re : list item) (s : list ascii) : option (list (list ascii)) :=
  '(_, r) ← search re s; Some (groups r).

(** The text between the brackets of [params=[...]]: no line break and no
    closing bracket. *)
Definition params_text (ps : string) : bool :=
  forallb (fun c => dot c && negb (Ascii.eqb c "]")) (chars ps).

Module Sample.

Definition dq : string := String "034" EmptyString.

(** Two records; the second refers to the body of the first. *)
Definition recordA : string :=
  record "A" "Fetch" "HttpRequestNode"
    (node_params [("url", "https://example.com/feed"); ("method", "GET")]).

Definition recordB : string :=
  record "B" "Summarize" "AiNode"
    (node_param "prompt" ("Summarize " +:+ reference "A" "body" +:+ " briefly")).

(** The JSON text of the array of the two records. *)
Definition payload : string :=
  "[" +:+ dq +:+ recordA +:+ dq +:+ ", " +:+ dq +:+ recordB +:+ dq +:+ "]".

(** [JSON.parse] on the only text the samples hand to it. *)
Definition parse (text : string) : option JVal :=
  if String.eqb text payload then Some (JArr [JStr recordA; JStr recordB]) else None.

(** A step event with an object as data. *)
Definition step_event (step status : string) (data : Obj) : SSEEvent :=
  [("step", JStr step); ("status", JStr status); ("data", JObj data)].

(** [node_configurator/done] carrying the corruption pattern. *)
Definition corrupted_event : SSEEvent :=
  step_event "node_configurator" "done"
    [("nodeId", JStr "unknown"); ("name", JStr payload);
     ("description", JStr "unknown"); ("params", JObj []); ("loop_text", JNull)].

(** [node_selector/done] with the nodes of the given ids. *)
Definition selector_item (id : string) : JVal :=
  JObj [("nodeId", JStr id); ("name", JStr id); ("description", JStr "a node")].

Definition selector_event (ids : list string) : SSEEvent :=
  step_event "node_selector" "done" [("nodes", JArr (map selector_item ids))].

(** [connection_builder/done] with the given edges. *)
Definition builder_event (pairs : list (string * string)) : SSEEvent :=
  step_event "connection_builder" "done"
    [("connections",
      JArr (map (fun p => JObj [("source", JStr (fst p)); ("target", JStr (snd p))]) pairs))].

(** [architecture_planner/done] with the given summary. *)
Definition planner_event (names : list string) : SSEEvent :=
  step_event "architecture_planner" "done" [("summary", JArr (map JStr names))].

(** The system events [status COMPLETED] and [error]. *)
Definition completed_event : SSEEvent :=
  [("type", JStr "status"); ("status", JStr "COMPLETED")].

Definition system_error_event : SSEEvent :=
  [("type", JStr "error"); ("message", JStr "upstream failed")].

(** The hook after a session from the initial state. *)
Definition after (l : list Action) : HookState :=
  run_session parse l (initialHook None).

End Sample.

(** A session in which two nodes and two connections arrive and the reveal
    shows its first edge. *)
Definition reveal_before : GenerationState :=
  state (Sample.after [Deliver 1 1 (Sample.selector_event ["A"; "B"]);
                       Deliver 2 2 (Sample.builder_event [("A", "B"); ("B", "A")])]).

(** The snapshot after the next event, which brings a third node. *)
Definition reveal_after : GenerationState :=
  state (Sample.after [Deliver 1 1 (Sample.selector_event ["A"; "B"]);
                       Deliver 2 2 (Sample.builder_event [("A", "B"); ("B", "A")]);
                       Deliver 3 3 (Sample.selector_event ["A"; "B"; "C"])]).

(** The coordinator once the reveal has shown its first edge. *)
Definition mid_flight : Canvas.Coordinator :=
  Canvas.connectionsEffect reveal_before
    (Canvas.nodeCountEffect reveal_before Canvas.initial).

(** The ids of the rendered edges. *)
Definition edge_ids (c : Canvas.Coordinator) : list string :=
  map Canvas.edge_id (Canvas.edges c).

(** Two hooks that differ at most in [isConnecting]. *)
Definition hook_agree (h1 h2 : HookState) : Prop :=
  state h1 = state h2
  /\ processedEventIds h1 = processedEventIds h2
  /\ received h1 = received h2
  /\ processed h1 = processed h2
  /\ sseCompleted h1 = sseCompleted h2.

(** The counters of the hook against the keys it recorded. *)
Definition counters_ok (h : HookState) : Prop :=
  received h = size (processedEventIds h) /\ (processed h <= received h)%nat.

(** Every message that is not [null] has a content the page shows. *)
Definition messages_ok (s : GenerationState) : Prop :=
  Forall (fun m => forall msg, m = Some msg -> truthy (content msg) = true)
    (chatMessages s).

(** The chat line of a message, whatever its content. *)
Definition line_of (m : option ChatMessage) : option (Role * JVal) :=
  msg ← m;
  Some (match msg_type msg with msg_system => role_user | _ => role_assistant end,
        content msg).

(** A node [convertToFlowNode] cannot convert: [split] is not a method of
    its [nodeId] (asked for unless the node is a mock node), or [replace]
    is not a method of its [loop_text]. *)
Definition unprojectable (n : InternalWorkflowNode) : Prop :=
  (isMock n = false /\ forall id, nodeId n <> JStr id)
  \/ (exists v, loop_text n = Some v /\ v <> JNull /\ forall s, v <> JStr s).

(** The placeholders the hook builds can always be converted. *)
Definition placeholders_ok (s : GenerationState) : Prop :=
  Forall (fun n => ~ unprojectable n) (mockNodes s).

(** The coordinator a finished, undisturbed reveal of the connections
    leaves. *)
Definition revealed (connections : list InternalConnection) (c : Canvas.Coordinator)
  : Canvas.Coordinator :=
  {| Canvas.edges := imap (fun i conn => Canvas.convertToFlowEdge conn i) connections;
     Canvas.isProcessingConnections := false;
     Canvas.lastNodeCount := Canvas.lastNodeCount c;
     Canvas.reveals := [] |}.

(** The ids [transformNodes] keeps: the truthy [nodeId]s of the truthy
    elements of [data.nodes], in order. *)
Definition kept_ids (data : option JVal) : list JVal :=
  match opt_prop "nodes" data with
  | Some (JArr items) =>
      omap (fun item =>
              id ← (if truthy item then prop "nodeId" item else None);
              if truthy id then Some id else None) items
  | _ => []
  end.

(** What an update of a node never touches. *)
Definition fixed_part (n : InternalWorkflowNode) :=
  (nodeId n, category n, icon n, outputs n, isMock n, isArchitecturePlanner n).

(** No node of the list has the id the payload names. *)
Definition names_no_node (nodes : list InternalWorkflowNode) (data : JVal) : Prop :=
  Forall (fun n => strict_eq (Some (nodeId n)) (prop "nodeId" data) = false) nodes.

(** The text of a list of parts, one after the other. *)
Definition joined (parts : list string) : string :=
  fold_right append EmptyString parts.

(** The text of the source a piece of [HighlightedText] stands for. *)
Definition shown (p : Piece) : string :=
  match p with
  | Pill inside => "{{$" +:+ inside +:+ "}}"
  | Span part => part
  end.

(** A non-empty text without quote characters. *)
Definition quoted_value (s : string) : Prop :=
  s <> EmptyString /\ Forall (fun x => not_quote x = true) (chars s).

(** The three steps whose payload the normaliser repairs, each with the
    field it expects to be an array. *)
Definition repaired_steps : list (string * string) :=
  [("node_selector", "nodes"); ("connection_builder", "connections");
   ("database_setup", "databases")].

(** The text [inferNodeCategory] and [inferNodeIcon] look into. *)
Definition node_text (name description : option JVal) : string :=
  toLowerCase (ToString_opt name +:+ " " +:+ ToString_opt description).

(* ================================================================== *)
(** ** Properties *)
(* ================================================================== *)

(** *** The updater, block by block *)

Ltac block f :=
  intros; unfold f in *;
  repeat first [ progress simplify_option_eq | case_match ];
  simplify_eq/=; auto.

Ltac blocks :=
  solve [ block reduce_system | block on_prompt | block on_architecture_done
        | block on_nodes_selected | block on_connections_built
        | block on_configurator | block on_database_setup
        | block on_step_error ].

(** A relation between the snapshot before and after that every block of
    the updater respects is respected by the updater. *)
Section Blockwise.

Variable JSON_parse : string -> option JVal.
Variable t : Z.
Variable ev : SSEEvent.
Variable R : GenerationState -> GenerationState -> Prop.

Let step := assoc "step" ev.
Let status := assoc "status" ev.
Let data := assoc "data" ev.

Hypothesis R_refl : forall s, R s s.
Hypothesis R_trans : forall s1 s2 s3, R s1 s2 -> R s2 s3 -> R s1 s3.
Hypothesis R_system : forall s, R s (reduce_system t s ev).
Hypothesis R_currentStep : forall s, R s (set_currentStep step s).
Hypothesis R_prompt : forall s, R s (on_prompt t step status data s).
Hypothesis R_architecture : forall s s',
  on_architecture_done t step status data s = Some s' -> R s s'.
Hypothesis R_selected : forall s s',
  on_nodes_selected step status data s = Some s' -> R s s'.
Hypothesis R_connections : forall s s',
  on_connections_built step status data s = Some s' -> R s s'.
Hypothesis R_configurator : forall s s',
  on_configurator JSON_parse step status data s = Some s' -> R s s'.
Hypothesis R_database : forall s s',
  on_database_setup step status data s = Some s' -> R s s'.
Hypothesis R_error : forall s, R s (on_step_error t step status data s).

Lemma reduce_step_blockwise s s' :
  reduce_step JSON_parse t s ev = Some s' -> R s s'.
Proof.
  unfold reduce_step. fold step status data. intros H.
  destruct (on_architecture_done _ _ _ _ _) as [s2|] eqn:E2; [simpl in H|done].
  destruct (on_nodes_selected _ _ _ s2) as [s3|] eqn:E3; [simpl in H|done].
  destruct (on_connections_built _ _ _ s3) as [s4|] eqn:E4; [simpl in H|done].
  destruct (on_configurator _ _ _ _ s4) as [s5|] eqn:E5; [simpl in H|done].
  destruct (on_database_setup _ _ _ s5) as [s6|] eqn:E6; [simpl in H|done].
  injection H as <-.
  eapply R_trans; [apply R_currentStep|].
  eapply R_trans; [apply R_prompt|].
  eapply R_trans; [apply R_architecture, E2|].
  eapply R_trans; [apply R_selected, E3|].
  eapply R_trans; [apply R_connections, E4|].
  eapply R_trans; [apply R_configurator, E5|].
  eapply R_trans; [apply R_database, E6|].
  apply R_error.
Qed.

Lemma reduce_blockwise s s' :
  reduce JSON_parse t s ev = Some s' -> R s s'.
Proof.
  unfold reduce. intros H.
  destruct (isSSESystemEvent ev).
  - injection H as <-. apply R_system.
  - destruct (isSSEStepEvent ev).
    + by apply reduce_step_blockwise.
    + injection H as <-. apply R_refl.
Qed.

End Blockwise.

(** *** The terminal flags *)

Lemma flags_kept_refl s : flags_kept s s.
Proof. by split. Qed.

Lemma flags_kept_trans s1 s2 s3 :
  flags_kept s1 s2 -> flags_kept s2 s3 -> flags_kept s1 s3.
Proof. intros [? ?] [? ?]; split; auto. Qed.

Lemma reduce_flags JSON_parse t s ev s' :
  reduce JSON_parse t s ev = Some s' -> flags_kept s s'.
Proof.
  apply reduce_blockwise;
    [ apply flags_kept_refl | apply flags_kept_trans | .. ]; split.
  all: blocks.
Qed.

(** *** From the updater to the hook *)

(** A delivery either leaves the snapshot alone (a repeated key, or an
    updater that throws) or commits what the updater returned. *)
Lemma handleSSEMessage_state JSON_parse now t event h :
  state (handleSSEMessage JSON_parse now t event h) = state h
  \/ reduce JSON_parse t (state h) (sanitizeEventData event)
     = Some (state (handleSSEMessage JSON_parse now t event h)).
Proof.
  unfold handleSSEMessage. case_decide; [by left|].
  destruct (reduce _ _ _ _) eqn:E; [by right|by left].
Qed.

Lemma setMockNodes_state t nodeNames h :
  state (setMockNodes t nodeNames h) = state h
  \/ exists mock,
       transformMockNodes t nodeNames = Some mock
       /\ state (setMockNodes t nodeNames h)
          = set_showCanvas (0 <? length mock)%nat
              (set_hasMockNodes (0 <? length mock)%nat (set_mockNodes mock (state h))).
Proof.
  unfold setMockNodes. destruct (transformMockNodes _ _); [right; eauto|by left].
Qed.

Lemma onError_state t rnd message h :
  state (onError t rnd message h) = state h
  \/ exists m, state (onError t rnd message h)
               = set_chatMessages (chatMessages (state h) ++ [m])
                   (set_hasError true (state h)).
Proof.
  unfold onError. destruct (createChatMessage _ _ _ _); [right; eauto|by left].
Qed.

(** The transport-error callback sets [hasError] and appends [null]
    to the chat messages: [createChatMessage] is given a string where it
    expects an event, finds no [step] in it and returns [null]. *)
Lemma onError_appends_null t rnd message h :
  chatMessages (state (onError t rnd message h)) = chatMessages (state h) ++ [None]
  /\ hasError (state (onError t rnd message h)) = true.
Proof. done. Qed.

Lemma act_flags JSON_parse a h :
  not_reset a -> flags_kept (state h) (state (act JSON_parse a h)).
Proof.
  destruct a as [now t event|g| |t names|t rnd message]; cbn [act not_reset]; intros Hr.
  - destruct (handleSSEMessage_state JSON_parse now t event h) as [->|E];
      [apply flags_kept_refl|by eapply reduce_flags].
  - done.
  - by split.
  - destruct (setMockNodes_state t names h) as [->|(mock & _ & ->)]; by split.
  - destruct (onError_state t rnd message h) as [->|(m & ->)]; by split.
Qed.

Lemma reset_clears_flags generationId h :
  isComplete (state (reset generationId h)) = false
  /\ hasError (state (reset generationId h)) = false.
Proof. done. Qed.

(** *** The mock-node flag *)

Lemma nonempty_ltb {A} (l : list A) : (0 <? length l)%nat = true <-> l <> [].
Proof. destruct l; simpl; split; (done || lia || auto). Qed.

Lemma reduce_mock_flag JSON_parse t s ev s' :
  reduce JSON_parse t s ev = Some s' -> mock_flag_ok s -> mock_flag_ok s'.
Proof.
  apply (reduce_blockwise JSON_parse t ev (fun s s' => mock_flag_ok s -> mock_flag_ok s'));
    [ auto | auto | .. ].
  all: try blocks.
  - intros s0 s1 H Hi. unfold on_architecture_done in H.
    destruct (_ && _) in H; [|by simplify_eq].
    destruct (transformArchitecturePlannerNodes _ _) in H; simplify_eq/=.
    apply nonempty_ltb.
  - intros s0 s1 H Hi. unfold on_nodes_selected in H.
    destruct (_ && _) in H; [|by simplify_eq].
    destruct (transformNodes _) in H; simplify_eq/=. done.
Qed.

Lemma act_mock_flag JSON_parse a h :
  mock_flag_ok (state h) -> mock_flag_ok (state (act JSON_parse a h)).
Proof.
  destruct a as [now t event|g| |t names|t rnd message]; cbn [act]; intros Hi.
  - destruct (handleSSEMessage_state JSON_parse now t event h) as [->|E];
      [done|by eapply reduce_mock_flag].
  - done.
  - done.
  - destruct (setMockNodes_state t names h) as [->|(mock & _ & ->)]; [done|].
    apply nonempty_ltb.
  - destruct (onError_state t rnd message h) as [->|(m & ->)]; done.
Qed.

(** *** The two node populations *)

Lemma mapM_Forall {A B} (f : A -> option B) (P : B -> Prop) l k :
  (forall x y, f x = Some y -> P y) -> mapM f l = Some k -> Forall P k.
Proof.
  intros Hf H. apply mapM_Some_1 in H.
  induction H; constructor; eauto.
Qed.

Lemma omap_Forall_from {A B} (f : A -> option B) (Q : A -> Prop) (P : B -> Prop) l :
  (forall x y, Q x -> f x = Some y -> P y) -> Forall Q l -> Forall P (omap f l).
Proof.
  intros Hf H. induction H as [|x l Hx Hl IH]; simpl; [constructor|].
  destruct (f x) eqn:E; [constructor; eauto|done].
Qed.

Lemma omap_Forall {A B} (f : A -> option B) (P : B -> Prop) l :
  (forall x y, f x = Some y -> P y) -> Forall P (omap f l).
Proof.
  intros Hf. apply (omap_Forall_from f (fun _ => True)); [eauto|].
  by apply Forall_forall.
Qed.

Lemma map_from_Forall {A B} (f : nat -> A -> option B) (P : B -> Prop) l i k :
  (forall i x y, f i x = Some y -> P y) -> map_from i f l = Some k -> Forall P k.
Proof.
  intros Hf. revert i k. induction l as [|x l IH]; intros i k H; simpl in H.
  - injection H as <-. constructor.
  - destruct (f i x) as [y|] eqn:Ey; [|done]. simpl in H.
    destruct (map_from (S i) f l) as [k'|] eqn:Ek; [|done]. simpl in H.
    injection H as <-. constructor; eauto.
Qed.

Lemma map_indexed_Forall {A B} (f : nat -> A -> option B) (P : B -> Prop) l k :
  (forall i x y, f i x = Some y -> P y) -> map_indexed f l = Some k -> Forall P k.
Proof. apply map_from_Forall. Qed.

(** The elements of a successful indexed map stand in the order of their
    originals. *)
Lemma map_from_inv {A B} (f : nat -> A -> option B) (g : B -> A) l i k :
  (forall i x y, f i x = Some y -> g y = x) ->
  map_from i f l = Some k -> map g k = l.
Proof.
  intros Hf. revert i k. induction l as [|x l IH]; intros i k H; simpl in H.
  - by injection H as <-.
  - destruct (f i x) as [y|] eqn:Ey; [|done]. simpl in H.
    destruct (map_from (S i) f l) as [k'|] eqn:Ek; [|done]. simpl in H.
    injection H as <-. simpl. f_equal; eauto.
Qed.

Lemma transformNodes_real data l :
  transformNodes data = Some l -> Forall (fun n => is_mock n = false) l.
Proof.
  unfold transformNodes. intros H.
  destruct (opt_prop "nodes" data) as [[| | | |items|]|]; simplify_eq; try by constructor.
  destruct (truthy_opt data); simplify_eq; [|by constructor].
  destruct (mapM transformNode items) as [l0|] eqn:E; simplify_eq/=.
  eapply (omap_Forall_from id (fun o => forall n, o = Some n -> is_mock n = false)).
  { intros o n Ho Hn. by apply Ho. }
  eapply mapM_Forall; [|exact E].
  intros v o Hv n ->. unfold transformNode in Hv.
  repeat case_match; simplify_option_eq; done.
Qed.

Lemma parseNodeString_real JSON_parse v n :
  parseNodeString JSON_parse v = Some n -> is_mock n = false.
Proof. unfold parseNodeString. intros H. repeat case_match; by simplify_eq. Qed.

Lemma configure_mock d n : is_mock (configure d n) = is_mock n.
Proof. unfold configure. by case_match. Qed.

Lemma updateNodeConfiguration_real JSON_parse l data l' :
  updateNodeConfiguration JSON_parse l data = Some l' ->
  Forall (fun n => is_mock n = false) l ->
  Forall (fun n => is_mock n = false) l'.
Proof.
  intros H Hl.
  assert (Hnormal : forall d, Forall (fun n => is_mock n = false) (map (configure d) l)).
  { intros d. apply Forall_map. eapply Forall_impl; [exact Hl|].
    intros n Hn. simpl. by rewrite configure_mock. }
  unfold updateNodeConfiguration in H.
  destruct data as [[]|]; try done;
    (destruct (corrupted _) as [nm|]; [|by simplify_eq]);
    (destruct (extract_nodes _ _) as [[|n0 ex]|] eqn:E; simplify_eq; auto).
  all: unfold extract_nodes in E; destruct (JSON_parse nm) as [[]|]; simplify_eq/=.
  all: rewrite <- E; apply omap_Forall; intros; by eapply parseNodeString_real.
Qed.

Lemma updateNodeStatus_mock l id st :
  Forall (fun n => is_mock n = false) l ->
  Forall (fun n => is_mock n = false) (updateNodeStatus l id st).
Proof.
  intros Hl. unfold updateNodeStatus. apply Forall_map.
  eapply Forall_impl; [exact Hl|]. intros n Hn. simpl. by case_match.
Qed.

Lemma transformArchitecturePlannerNodes_mock t v l :
  transformArchitecturePlannerNodes t v = Some l ->
  Forall (fun n => is_mock n = true) l.
Proof.
  unfold transformArchitecturePlannerNodes. intros H.
  destruct v; simplify_eq; [constructor|].
  eapply map_indexed_Forall; [|exact H].
  intros i x y Hy. simplify_option_eq. done.
Qed.

Lemma transformMockNodes_mock t names l :
  transformMockNodes t names = Some l -> Forall (fun n => is_mock n = true) l.
Proof.
  unfold transformMockNodes. intros H.
  eapply map_indexed_Forall; [|exact H].
  intros i x y Hy. simplify_option_eq. done.
Qed.

Lemma reduce_populations JSON_parse t s ev s' :
  reduce JSON_parse t s ev = Some s' -> populations_ok s -> populations_ok s'.
Proof.
  apply (reduce_blockwise JSON_parse t ev
           (fun s s' => populations_ok s -> populations_ok s')); [ auto | auto | .. ].
  all: try blocks.
  - intros s0 s1 H [Hn Hm]. unfold on_architecture_done in H.
    destruct (_ && _) in H; [|by simplify_eq].
    destruct (transformArchitecturePlannerNodes _ _) eqn:E in H; [|done].
    simpl in H. injection H as <-.
    split; [done|by eapply transformArchitecturePlannerNodes_mock].
  - intros s0 s1 H [Hn Hm]. unfold on_nodes_selected in H.
    destruct (_ && _) in H; [|by simplify_eq].
    destruct (transformNodes _) eqn:E in H; [|done].
    simpl in H. injection H as <-.
    split; [by eapply transformNodes_real|constructor].
  - intros s0 s1 H [Hn Hm]. unfold on_configurator in H.
    destruct (is_str "node_configurator" _) in H; [|by simplify_eq].
    destruct (_ && _) in H.
    { simplify_eq. split; [by apply updateNodeStatus_mock|done]. }
    destruct (is_str "done" _) in H; [|by simplify_eq].
    destruct (updateNodeConfiguration _ _ _) eqn:E in H; [|done].
    eapply updateNodeConfiguration_real in E; [|exact Hn].
    simpl in H. destruct (_ <? _)%nat in H; simplify_eq; by split.
Qed.

Lemma act_populations JSON_parse a h :
  populations_ok (state h) -> populations_ok (state (act JSON_parse a h)).
Proof.
  destruct a as [now t event|g| |t names|t rnd message]; cbn [act]; intros Hi.
  - destruct (handleSSEMessage_state JSON_parse now t event h) as [->|E];
      [done|by eapply reduce_populations].
  - by split.
  - done.
  - destruct (setMockNodes_state t names h) as [->|(mock & E & ->)]; [done|].
    destruct Hi. split; [done|by eapply transformMockNodes_mock].
  - destruct (onError_state t rnd message h) as [->|(m & ->)]; done.
Qed.

Lemma session_invariant JSON_parse (P : GenerationState -> Prop) l h :
  (forall a h, P (state h) -> P (state (act JSON_parse a h))) ->
  P (state h) -> P (state (run_session JSON_parse l h)).
Proof.
  intros Hstep. revert h. induction l as [|a l IH]; intros h Hh; simpl; [done|].
  apply IH, Hstep, Hh.
Qed.

(** *** The projector *)

Lemma convertToFlowNode_data node index fn :
  Canvas.convertToFlowNode node index = Some fn -> Canvas.data fn = node.
Proof. unfold Canvas.convertToFlowNode. intros H. by simplify_option_eq. Qed.

Lemma flowNodes_data s fl :
  Canvas.flowNodes s = Some fl -> map Canvas.data fl = Canvas.nodesToRender s.
Proof.
  apply map_from_inv. intros i x y. apply convertToFlowNode_data.
Qed.

Lemma nodesToRender_real s :
  nodes s <> [] -> Canvas.nodesToRender s = nodes s.
Proof. intros H. unfold Canvas.nodesToRender. by destruct (nodes s). Qed.

Lemma nodesToRender_mock s :
  nodes s = [] -> Canvas.nodesToRender s = mockNodes s.
Proof. intros H. unfold Canvas.nodesToRender. by rewrite H. Qed.

(** When the conversion of a node throws. *)
Lemma convertToFlowNode_None n index :
  Canvas.convertToFlowNode n index = None <-> unprojectable n.
Proof.
  unfold Canvas.convertToFlowNode, unprojectable.
  destruct (isMock n), (nodeId n) as [| | |id| |], (loop_text n) as [[| | |lp| |]|];
    simpl; split; try done.
  all: try (intros [[? Hid]|(v & Hv & Hn & Hs)];
            first [ done | by destruct (Hid _ eq_refl)
                  | injection Hv as <-; first [ done | by destruct (Hs _ eq_refl) ] ]).
  all: try (intros _; right; eexists; by repeat split).
  all: try (intros _; left; by split).
Qed.

Lemma convert_all_None l i :
  map_from i (fun index node => Canvas.convertToFlowNode node index) l = None
  <-> Exists unprojectable l.
Proof.
  revert i. induction l as [|n l IH]; intros i; simpl.
  - split; [done|]. by intros ?%Exists_nil.
  - rewrite Exists_cons, <- (convertToFlowNode_None n i), <- (IH (S i)).
    destruct (Canvas.convertToFlowNode n i); simpl; [|split; [by left|done]].
    destruct (map_from _ _ l); simpl; split; try done; [by intros [?|?]|by right].
Qed.

(** *** Connection extraction *)

Lemma strict_eq_str_r s v :
  strict_eq (Some v) (Some (JStr s)) = true <-> v = JStr s.
Proof.
  destruct v; simpl; split; try done.
  - by intros ->%String.eqb_eq.
  - intros [= ->]. apply String.eqb_refl.
Qed.

Lemma add_connection_ok nodes node acc sourceNodeId :
  extraction_ok nodes acc ->
  extraction_ok nodes (add_connection nodes node acc sourceNodeId).
Proof.
  intros [Hs Hn Hk Hsh Hd]. unfold add_connection.
  destruct (existsb _ nodes) eqn:Hex; [|done]. simpl.
  destruct (negb _) eqn:Hne; [|done]. simpl.
  case_decide as Hin; [done|].
  apply existsb_exists in Hex as (n & Hn_in & Heq).
  apply strict_eq_str_r in Heq.
  apply negb_true_iff in Hne.
  split; simpl.
  - apply Forall_app; split; [done|]. constructor; [|constructor].
    exists n. split; [by apply list_elem_of_In|]. simpl. by rewrite Heq.
  - apply Forall_app; split; [done|]. constructor; [|constructor].
    simpl. intros [= E]. rewrite <- E, String.eqb_refl in Hne. done.
  - apply Forall_app; split.
    + eapply Forall_impl; [exact Hk|]. intros c Hc. simpl. set_solver.
    + constructor; [|constructor]. unfold connection_key. simpl. set_solver.
  - apply Forall_app; split; [done|]. constructor; [|constructor]. simpl. eauto.
  - rewrite map_app. simpl. apply NoDup_app. split; [done|]. split.
    + intros p Hp Hp'. apply list_elem_of_singleton in Hp'. subst p.
      apply list_elem_of_fmap in Hp as (c & Hc & Hc_in).
      injection Hc as Hsrc Htgt.
      apply Hin. rewrite Forall_forall in Hk. specialize (Hk c Hc_in).
      unfold connection_key in Hk. by rewrite <- Hsrc, <- Htgt in Hk.
    + apply NoDup_singleton.
Qed.

Lemma fold_left_invariant {A B} (P : A -> Prop) (f : A -> B -> A) l a :
  (forall a b, P a -> P (f a b)) -> P a -> P (fold_left f l a).
Proof.
  intros Hf. revert a. induction l as [|b l IH]; intros a Ha; simpl; auto.
Qed.

Lemma scan_node_ok nodes acc node :
  extraction_ok nodes acc -> extraction_ok nodes (scan_node nodes acc node).
Proof.
  intros H. unfold scan_node. destruct (truthy_opt _); [|done].
  apply fold_left_invariant; [|done].
  intros a [k v] Ha. unfold scan_param. simpl. destruct v; try done.
  apply fold_left_invariant; [|done]. intros. by apply add_connection_ok.
Qed.

Lemma extraction_invariant nodes :
  extraction_ok nodes (fold_left (scan_node nodes) nodes ([], ∅)).
Proof.
  apply fold_left_invariant; [intros; by apply scan_node_ok|].
  split; simpl; constructor.
Qed.

(** *** The normaliser *)

Lemma is_str_true lit o : is_str lit o = true <-> o = Some (JStr lit).
Proof.
  unfold is_str. destruct o as [v|]; [|done].
  rewrite strict_eq_str_r. split; congruence.
Qed.

Lemma is_str_other a b o : is_str a o = true -> a <> b -> is_str b o = false.
Proof.
  intros ->%is_str_true Hab. simpl. by apply String.eqb_neq.
Qed.

Lemma assoc_app k l1 l2 :
  assoc k (l1 ++ l2) = match assoc k l1 with Some v => Some v | None => assoc k l2 end.
Proof.
  induction l1 as [|[k' v] l1 IH]; simpl; [done|]. by destruct (String.eqb k k').
Qed.

Lemma assoc_other_keys k l : Forall (fun kv => fst kv <> k) l -> assoc k l = None.
Proof.
  induction 1 as [|[k' v] l Hk Hl IH]; simpl; [done|].
  destruct (String.eqb_spec k k'); [by subst|done].
Qed.

Lemma assoc_obj_set k k' v o :
  assoc k (obj_set k' v o) = if String.eqb k k' then Some v else assoc k o.
Proof.
  induction o as [|[k0 v0] o IH]; simpl; [done|].
  destruct (String.eqb_spec k' k0) as [->|Hne]; simpl.
  - by destruct (String.eqb k k0).
  - rewrite IH.
    destruct (String.eqb_spec k k0) as [->|], (String.eqb_spec k0 k'); congruence.
Qed.

Lemma insert_by_index_Forall (P : N * (string * JVal) -> Prop) e l :
  P e -> Forall P l -> Forall P (insert_by_index e l).
Proof.
  intros He. induction 1 as [|e' l He' Hl IH]; simpl.
  - by repeat constructor.
  - destruct (_ <=? _)%N; repeat constructor; auto.
Qed.

(** Enumeration order moves only the array indices. *)
Lemma assoc_ordered k o : array_index k = None -> assoc k (ordered o) = assoc k o.
Proof.
  intros Hk. unfold ordered. rewrite assoc_app, assoc_other_keys.
  - induction o as [|[k' v] o IH]; [done|].
    rewrite filter_cons. simpl. case_decide as Hk'; simpl.
    + destruct (String.eqb k k'); [done|apply IH].
    + destruct (String.eqb_spec k k') as [->|]; [congruence|apply IH].
  - apply Forall_map.
    induction o as [|[k' v] o IH]; simpl; [constructor|].
    destruct (array_index k') as [n|] eqn:E; simpl; [|exact IH].
    apply insert_by_index_Forall; [|exact IH]. simpl. congruence.
Qed.

Lemma sanitize_keeps k event :
  k <> "data" -> array_index k = None ->
  assoc k (sanitizeEventData event) = assoc k event.
Proof.
  intros Hd Hk. apply String.eqb_neq in Hd.
  assert (Hset : forall v, assoc k (obj_set "data" v (ordered event)) = assoc k event).
  { intros v. by rewrite assoc_obj_set, Hd, assoc_ordered. }
  unfold sanitizeEventData. repeat case_match; auto.
Qed.

Lemma sanitize_system event :
  isSSEStepEvent event = false -> sanitizeEventData event = event.
Proof. unfold sanitizeEventData. by intros ->. Qed.

Lemma replaces_nodes_sanitize event :
  replaces_nodes (sanitizeEventData event) = replaces_nodes event.
Proof.
  destruct (isSSEStepEvent event) eqn:Hstep; [|by rewrite sanitize_system].
  unfold replaces_nodes.
  rewrite !sanitize_keeps by done.
  destruct (is_str "done" _); [simpl|done].
  destruct (is_str "node_selector" _) eqn:Hsel; [done|simpl].
  destruct (is_str "node_configurator" _) eqn:Hcfg; [simpl|done].
  unfold sanitizeEventData. rewrite Hstep, Hsel. simpl.
  rewrite !(is_str_other _ _ _ Hcfg) by done.
  destruct (assoc "data" event) as [[]|] eqn:Hdata; rewrite ?Hdata; try done.
  all: by rewrite assoc_obj_set.
Qed.

(** *** The node count *)

Lemma updateNodeStatus_length l id st : length (updateNodeStatus l id st) = length l.
Proof. apply length_map. Qed.

Lemma updateNodeConfiguration_normal JSON_parse l d l' :
  corrupted d = None ->
  updateNodeConfiguration JSON_parse l (Some d) = Some l' ->
  l' = map (configure d) l.
Proof.
  intros H. unfold updateNodeConfiguration. rewrite H.
  destruct d; congruence.
Qed.

Lemma reduce_node_count JSON_parse t s ev s' :
  replaces_nodes ev = false ->
  reduce JSON_parse t s ev = Some s' -> length (nodes s') = length (nodes s).
Proof.
  intros Hno.
  apply (reduce_blockwise JSON_parse t ev
           (fun s s' => length (nodes s') = length (nodes s))); [ done | congruence | .. ].
  all: try blocks.
  - intros s0 s1 H. unfold on_nodes_selected in H.
    destruct (is_str "node_selector" _) eqn:Hsel; [|by simplify_eq/=].
    destruct (is_str "done" _) eqn:Hdone; [|by simplify_eq/=].
    unfold replaces_nodes in Hno. by rewrite Hsel, Hdone in Hno.
  - intros s0 s1 H. unfold on_configurator in H.
    destruct (is_str "node_configurator" _) eqn:Hcfg; [|by simplify_eq/=].
    destruct (_ && _) in H.
    { injection H as <-. apply updateNodeStatus_length. }
    destruct (is_str "done" _) eqn:Hdone; [|by simplify_eq/=].
    unfold replaces_nodes in Hno. rewrite Hcfg, Hdone in Hno.
    rewrite (is_str_other _ _ _ Hcfg) in Hno by done. simpl in Hno.
    destruct (assoc "data" ev) as [d|]; [|done].
    destruct (corrupted d) eqn:Hc; [done|].
    destruct (updateNodeConfiguration _ _ _) as [l'|] eqn:E in H; [|done].
    apply updateNodeConfiguration_normal in E as ->; [|done].
    simpl in H. rewrite length_map, Nat.ltb_irrefl in H.
    injection H as <-. simpl. apply length_map.
Qed.

(* ================================================================== *)
(** ** Sample data *)
(* ================================================================== *)

(* ================================================================== *)
(** ** The properties of the specification *)
(* ================================================================== *)

(** C3.  Terminal stability: once [isComplete] or [hasError] is true, no
    delivered event, and no operation of the hook other than the explicit
    reset, sets it back to false; the reset sets both to false. *)
Theorem terminal_stability JSON_parse (a : Action) (h : HookState) :
  not_reset a ->
  ((isComplete (state h) = true -> isComplete (state (act JSON_parse a h)) = true)
   /\ (hasError (state h) = true -> hasError (state (act JSON_parse a h)) = true))
  /\ (forall g, isComplete (state (reset g h)) = false
                /\ hasError (state (reset g h)) = false).
Proof.
  intros Hr. split.
  - by apply act_flags.
  - intros g. apply reset_clears_flags.
Qed.

Lemma terminal_stability_witness :
  let h := Sample.after [Deliver 1 1 Sample.completed_event] in
  let a := Deliver 2 2 (Sample.selector_event ["A"]) in
  isComplete (state h) = true
  /\ isComplete (state (act Sample.parse a h)) = true.
Proof.
  intros h a. split; [reflexivity|].
  apply (terminal_stability Sample.parse a h I). reflexivity.
Defined.

(** C4.  Idempotence of duplicate delivery: an event delivered a second
    time under the same identity key (same step or type, same arrival
    reading of the clock) is discarded; the hook, and so the snapshot, is
    what it was after the first delivery. *)
Theorem duplicate_delivery_discarded JSON_parse (now t t' : Z) (event : SSEEvent)
    (h : HookState) :
  handleSSEMessage JSON_parse now t' event (handleSSEMessage JSON_parse now t event h)
  = handleSSEMessage JSON_parse now t event h.
Proof.
  unfold handleSSEMessage at 1.
  rewrite decide_True; [done|].
  unfold handleSSEMessage. case_decide; [done|].
  destruct (reduce _ _ _ _); simpl; set_solver.
Qed.

(** C9.  A system event whose type is neither [connected] nor [status]
    ([status_change], [complete], [heartbeat], [error], ...) leaves every
    field of the snapshot as it was: the updater returns the snapshot it was
    given, so an [error] system event neither sets [hasError] nor appends a
    chat message. *)
Theorem other_system_events_ignored JSON_parse (now t : Z) (event : SSEEvent)
    (h : HookState) :
  isSSESystemEvent event = true ->
  is_str "connected" (assoc "type" event) = false ->
  is_str "status" (assoc "type" event) = false ->
  reduce JSON_parse t (state h) (sanitizeEventData event) = Some (state h)
  /\ state (handleSSEMessage JSON_parse now t event h) = state h.
Proof.
  intros Hsys Hc Hs.
  assert (Hsan : sanitizeEventData event = event).
  { unfold sanitizeEventData, isSSEStepEvent.
    unfold isSSESystemEvent in Hsys. apply andb_true_iff in Hsys as [_ Hn].
    apply negb_true_iff in Hn. by rewrite Hn. }
  assert (Hred : reduce JSON_parse t (state h) event = Some (state h)).
  { unfold reduce, reduce_system. by rewrite Hsys, Hc, Hs. }
  split; [by rewrite Hsan|].
  destruct (handleSSEMessage_state JSON_parse now t event h) as [E|E]; [done|].
  rewrite Hsan, Hred in E. by injection E.
Qed.

Lemma other_system_events_ignored_witness :
  let h := Sample.after [Deliver 1 1 (Sample.selector_event ["A"])] in
  state (handleSSEMessage Sample.parse 2 2 Sample.system_error_event h) = state h
  /\ hasError (state (handleSSEMessage Sample.parse 2 2 Sample.system_error_event h))
     = false.
Proof.
  intros h.
  destruct (other_system_events_ignored Sample.parse 2 2 Sample.system_error_event h)
    as [_ E]; [reflexivity..|].
  split; [exact E|]. rewrite E. reflexivity.
Defined.

(** C10.  Every operation that changes the snapshot (the delivery of an
    event, the reset, the seeding of mock nodes, and also the chat toggle and
    the transport-error callback) keeps [hasMockNodes] true exactly when
    [mockNodes] is not empty. *)
Theorem mock_flag_preserved JSON_parse (a : Action) (h : HookState) :
  (hasMockNodes (state h) = true <-> mockNodes (state h) <> []) ->
  (hasMockNodes (state (act JSON_parse a h)) = true
   <-> mockNodes (state (act JSON_parse a h)) <> []).
Proof. apply act_mock_flag. Qed.

Lemma mock_flag_preserved_witness :
  let h := Sample.after [SetMockNodes 1 [JStr "Fetch"; JStr "Summarize"]] in
  let a := Deliver 2 2 (Sample.planner_event ["Fetch"]) in
  hasMockNodes (state h) = true
  /\ (hasMockNodes (state (act Sample.parse a h)) = true
      <-> mockNodes (state (act Sample.parse a h)) <> []).
Proof.
  intros h a. split; [reflexivity|].
  apply (mock_flag_preserved Sample.parse a h).
  split; [discriminate|reflexivity].
Defined.

(** C2.  Mutual exclusion of the two node populations: in every state a
    session can reach, the projector renders the real nodes whenever there
    are any and the mock nodes only when there are none; the rendered list
    never holds a placeholder next to an authoritative node, and the flow
    nodes are exactly the rendered population, in order.  The projector
    does build them whenever each node of that population can be converted
    (its [nodeId] is a string unless it is a mock node, and its [loop_text]
    is a string, [null] or left out). *)
Theorem projector_mutual_exclusion JSON_parse (g : option string) (l : list Action) :
  let s := state (run_session JSON_parse l (initialHook g)) in
  (nodes s <> [] -> Canvas.nodesToRender s = nodes s)
  /\ (nodes s = [] -> Canvas.nodesToRender s = mockNodes s)
  /\ (Exists (fun n => is_mock n = true) (Canvas.nodesToRender s) -> nodes s = [])
  /\ ~ (Exists (fun n => is_mock n = true) (Canvas.nodesToRender s)
        /\ Exists (fun n => is_mock n = false) (Canvas.nodesToRender s))
  /\ (forall fl, Canvas.flowNodes s = Some fl ->
                 map Canvas.data fl = Canvas.nodesToRender s)
  /\ (Forall (fun n => ~ unprojectable n) (Canvas.nodesToRender s) ->
      exists fl, Canvas.flowNodes s = Some fl
                 /\ map Canvas.data fl = Canvas.nodesToRender s).
Proof.
  intros s.
  assert (Hpop : populations_ok s).
  { apply session_invariant; [apply act_populations|]. split; constructor. }
  destruct Hpop as [Hreal Hmock].
  assert (Hcases : (nodes s <> [] /\ Canvas.nodesToRender s = nodes s)
                   \/ (nodes s = [] /\ Canvas.nodesToRender s = mockNodes s)).
  { destruct (nodes s) eqn:E; [right|left]; split; try done;
      unfold Canvas.nodesToRender; by rewrite E. }
  split; [apply nodesToRender_real|].
  split; [apply nodesToRender_mock|].
  split; [|split; [|split; [apply flowNodes_data|]]].
  - intros Hex. destruct Hcases as [[Hne Hr]|[He _]]; [|done].
    rewrite Hr in Hex. apply Exists_exists in Hex as (n & Hn & Hm).
    rewrite Forall_forall in Hreal. specialize (Hreal n Hn). congruence.
  - intros [Hm Hr]. apply Exists_exists in Hm as (n & Hn & Hnm).
    apply Exists_exists in Hr as (n' & Hn' & Hnr).
    rewrite Forall_forall in Hreal, Hmock.
    destruct Hcases as [[_ E]|[_ E]]; rewrite E in Hn, Hn'.
    + specialize (Hreal n Hn). congruence.
    + specialize (Hmock n' Hn'). congruence.
  - intros Hall. destruct (Canvas.flowNodes s) as [fl|] eqn:E.
    + exists fl. split; [done|]. by apply flowNodes_data.
    + apply convert_all_None in E. apply Exists_exists in E as (n & Hn & Hu).
      rewrite Forall_forall in Hall. by destruct (Hall n Hn).
Qed.

Lemma projector_mutual_exclusion_witness :
  let s := state (Sample.after [SetMockNodes 1 [JStr "Fetch"; JStr "Summarize"];
                                Deliver 2 2 Sample.corrupted_event]) in
  mockNodes s <> [] /\ Canvas.nodesToRender s = nodes s
  /\ exists fl, Canvas.flowNodes s = Some fl /\ map Canvas.data fl = nodes s.
Proof.
  intros s.
  destruct (projector_mutual_exclusion Sample.parse None
              [SetMockNodes 1 [JStr "Fetch"; JStr "Summarize"];
               Deliver 2 2 Sample.corrupted_event])
    as (Hreal & _ & _ & _ & _ & Hbuilt).
  fold s in Hreal, Hbuilt.
  assert (Hr : Canvas.nodesToRender s = nodes s) by (apply Hreal; discriminate).
  split; [discriminate|]. split; [exact Hr|].
  rewrite <- Hr. apply Hbuilt.
  apply Forall_forall. intros n Hn Hu%(convertToFlowNode_None n 0).
  vm_compute in Hn.
  repeat (apply elem_of_cons in Hn as [->|Hn]; [vm_compute in Hu; discriminate|]).
  by apply elem_of_nil in Hn.
Defined.

(** C7.  Connection extraction: every edge [extractConnectionsFromNodes]
    emits has as source the [nodeId] of a node of the list, has a source
    different from its target, and no two emitted edges have the same
    source and target. *)
Theorem extracted_connections_well_formed (nodes : list InternalWorkflowNode) :
  Forall (fun c => (exists n, n ∈ nodes /\ source c = Some (nodeId n))
                   /\ source c <> target c)
    (extractConnectionsFromNodes nodes)
  /\ NoDup (map (fun c => (source c, target c)) (extractConnectionsFromNodes nodes)).
Proof.
  destruct (extraction_invariant nodes) as [Hs Hn _ _ Hd].
  split; [|exact Hd].
  apply Forall_forall. intros c Hc.
  rewrite Forall_forall in Hs, Hn. split; [by apply Hs|by apply Hn].
Qed.

(** C5, as the code has it.  The length of [nodes] is left as it was by
    every operation of the hook other than the reset, the delivery of a
    [node_selector/done] event and the delivery of a [node_configurator/done]
    event that carries the corruption pattern: these replace the node list
    by the one their payload holds. *)
Theorem node_count_kept JSON_parse (a : Action) (h : HookState) :
  may_replace_nodes a = false ->
  length (nodes (state (act JSON_parse a h))) = length (nodes (state h)).
Proof.
  destruct a as [now t event|g| |t names|t rnd message]; cbn [act may_replace_nodes];
    intros Hno.
  - destruct (handleSSEMessage_state JSON_parse now t event h) as [->|E]; [done|].
    eapply reduce_node_count; [|exact E]. by rewrite replaces_nodes_sanitize.
  - done.
  - done.
  - by destruct (setMockNodes_state t names h) as [->|(mock & _ & ->)].
  - by destruct (onError_state t rnd message h) as [->|(m & ->)].
Qed.

Lemma node_count_kept_witness :
  let h := Sample.after [Deliver 1 1 (Sample.selector_event ["A"; "B"])] in
  let a := Deliver 2 2 (Sample.step_event "node_configurator" "done"
                          [("nodeId", JStr "A"); ("name", JStr "Fetch");
                           ("description", JStr "fetches"); ("params", JObj []);
                           ("loop_text", JNull)]) in
  length (nodes (state h)) = 2%nat
  /\ length (nodes (state (act Sample.parse a h))) = 2%nat.
Proof.
  intros h a. split; [reflexivity|].
  rewrite (node_count_kept Sample.parse a h); reflexivity.
Defined.

(** C5, as the specification states it, fails: after three nodes were
    selected, a second [node_selector/done] event with one node leaves one
    node, and a [node_configurator/done] event with the corruption pattern
    of two records leaves two. *)
Lemma node_count_can_decrease :
  let h := Sample.after [Deliver 1 1 (Sample.selector_event ["A"; "B"; "C"])] in
  length (nodes (state h)) = 3%nat
  /\ length (nodes (state (handleSSEMessage Sample.parse 2 2
                             (Sample.selector_event ["A"]) h))) = 1%nat
  /\ length (nodes (state (handleSSEMessage Sample.parse 2 2
                             Sample.corrupted_event h))) = 2%nat.
Proof. vm_compute. auto. Qed.

(** *** What the normaliser does repair *)

Lemma has_assoc k o v : assoc k o = Some v -> has k o = true.
Proof. unfold has. by intros ->. Qed.

(** X1.  After normalisation the data of a step event is an object or an
    array. *)
Lemma sanitize_data_is_object event :
  isSSEStepEvent event = true ->
  exists d, assoc "data" (sanitizeEventData event) = Some d
            /\ truthy d = true /\ typeof_object d = true.
Proof.
  intros Hstep. unfold sanitizeEventData. rewrite Hstep. simpl.
  destruct (assoc "data" event) as [[]|] eqn:Hd; repeat case_match.
  all: rewrite ?assoc_obj_set, ?Hd; simpl; eauto.
Qed.

Lemma sanitize_data_is_object_witness :
  exists d, assoc "data" (sanitizeEventData
                            [("step", JStr "node_selector"); ("status", JStr "done");
                             ("data", JStr "none")]) = Some d
            /\ truthy d = true /\ typeof_object d = true.
Proof. apply sanitize_data_is_object. reflexivity. Defined.

(** X2.  When the data of the event is an object, the three steps that
    expect an array end up with one. *)
Lemma sanitize_field_is_array event d :
  isSSEStepEvent event = true ->
  assoc "data" event = Some d -> truthy d = true -> typeof_object d = true ->
  let data' := assoc "data" (sanitizeEventData event) in
  (is_str "node_selector" (assoc "step" event) = true ->
   isArray (opt_prop "nodes" data') = true)
  /\ (is_str "connection_builder" (assoc "step" event) = true ->
      isArray (opt_prop "connections" data') = true)
  /\ (is_str "database_setup" (assoc "step" event) = true ->
      isArray (opt_prop "databases" data') = true).
Proof.
  intros Hstep Hd Ht Ho. unfold sanitizeEventData. rewrite Hstep, Hd. simpl.
  destruct d; try done.
  all: repeat split; intros Hs;
    rewrite ?(is_str_other _ "node_selector" _ Hs),
            ?(is_str_other _ "connection_builder" _ Hs), ?Hs by done.
  all: destruct (isArray (prop _ _)) eqn:E; by rewrite ?Hd, ?assoc_obj_set.
Qed.

Lemma sanitize_field_is_array_witness :
  let event := Sample.step_event "connection_builder" "done"
                 [("connections", JStr "none")] in
  isArray (opt_prop "connections" (assoc "data" (sanitizeEventData event))) = true.
Proof.
  apply (sanitize_field_is_array
           (Sample.step_event "connection_builder" "done" [("connections", JStr "none")])
           (JObj [("connections", JStr "none")])); reflexivity.
Defined.

(** System events pass through the normaliser as they are. *)
Lemma system_events_pass_unchanged event :
  isSSESystemEvent event = true -> sanitizeEventData event = event.
Proof.
  unfold isSSESystemEvent, isSSEStepEvent. intros [_ H%negb_true_iff]%andb_true_iff.
  apply sanitize_system. unfold isSSEStepEvent. by rewrite H.
Qed.

Lemma system_events_pass_unchanged_witness :
  sanitizeEventData Sample.system_error_event = Sample.system_error_event.
Proof. apply system_events_pass_unchanged. reflexivity. Defined.

(** C6, where the code departs from it.  A [connection_builder/done] event
    whose data field is missing or is no object leaves the normaliser with
    the data [{}]: the early return for missing data skips the repair of
    the [connections] field, and the state updater then throws on
    [data.connections.map]. *)
Theorem sanitize_skips_field_repair JSON_parse (t : Z) (s : GenerationState)
    (event : SSEEvent) :
  assoc "step" event = Some (JStr "connection_builder") ->
  assoc "status" event = Some (JStr "done") ->
  data_missing event = true ->
  assoc "data" (sanitizeEventData event) = Some (JObj [])
  /\ isArray (opt_prop "connections" (assoc "data" (sanitizeEventData event))) = false
  /\ reduce JSON_parse t s (sanitizeEventData event) = None.
Proof.
  intros Hstep Hstatus Hdata.
  assert (Hsan : sanitizeEventData event = obj_set "data" (JObj []) (ordered event)).
  { unfold sanitizeEventData, isSSEStepEvent.
    rewrite (has_assoc _ _ _ Hstep), (has_assoc _ _ _ Hstatus). simpl.
    unfold data_missing in Hdata.
    by destruct (assoc "data" event) as [[]|]. }
  assert (Hd : assoc "data" (sanitizeEventData event) = Some (JObj []))
    by by rewrite Hsan, assoc_obj_set.
  assert (Hs : assoc "step" (sanitizeEventData event) = Some (JStr "connection_builder"))
    by by rewrite sanitize_keeps.
  assert (Hst : assoc "status" (sanitizeEventData event) = Some (JStr "done"))
    by by rewrite sanitize_keeps.
  rewrite Hd. repeat split.
  unfold reduce, isSSESystemEvent, isSSEStepEvent.
  rewrite (has_assoc _ _ _ Hs), (has_assoc _ _ _ Hst), andb_false_r. simpl.
  unfold reduce_step. by rewrite Hd, Hs, Hst.
Qed.

Lemma sanitize_skips_field_repair_witness :
  let event := [("step", JStr "connection_builder"); ("status", JStr "done")] in
  sanitizeEventData event
  = [("step", JStr "connection_builder"); ("status", JStr "done"); ("data", JObj [])]
  /\ reduce Sample.parse 1 (createInitialState None) (sanitizeEventData event) = None.
Proof.
  split; [reflexivity|].
  apply (sanitize_skips_field_repair Sample.parse 1 (createInitialState None)
           [("step", JStr "connection_builder"); ("status", JStr "done")]);
    reflexivity.
Defined.

(** *** The edge reveal *)

Lemma nodeCountEffect_increase gs c :
  (Canvas.lastNodeCount c < Canvas.currentNodeCount gs)%nat ->
  Canvas.nodeCountEffect gs c
  = {| Canvas.edges := [];
       Canvas.isProcessingConnections := false;
       Canvas.lastNodeCount := Canvas.currentNodeCount gs;
       Canvas.reveals := Canvas.reveals c |}.
Proof.
  intros H. unfold Canvas.nodeCountEffect.
  assert ((Canvas.lastNodeCount c <? Canvas.currentNodeCount gs)%nat = true) as ->
    by by apply Nat.ltb_lt.
  assert ((0 <? Canvas.currentNodeCount gs)%nat = true) as -> by (apply Nat.ltb_lt; lia).
  done.
Qed.

(** The node-count effect never touches the suspended reveals: it
    has no handle on a [processConnections] call that is waiting in a
    timer. *)
Lemma nodeCountEffect_reveals gs c :
  Canvas.reveals (Canvas.nodeCountEffect gs c) = Canvas.reveals c.
Proof. unfold Canvas.nodeCountEffect. by repeat case_match. Qed.

(** C8, where the code departs from it.  When the node count grows while a
    reveal is suspended with connections still to come, the node-count
    effect clears the edges and the flag, but the suspended reveal stays:
    when its timer runs out it appends the next connection of the list it
    captured to the cleared edge list. *)
Theorem stale_reveal_keeps_running (gs : GenerationState) (c : Canvas.Coordinator)
    (k : nat) (r : Canvas.Reveal) (connection : InternalConnection) :
  Canvas.reveals c !! k = Some r ->
  Canvas.captured r !! S (Canvas.i r) = Some connection ->
  (Canvas.lastNodeCount c < Canvas.currentNodeCount gs)%nat ->
  let c' := Canvas.nodeCountEffect gs c in
  Canvas.edges c' = []
  /\ Canvas.isProcessingConnections c' = false
  /\ Canvas.reveals c' !! k = Some r
  /\ Canvas.edges (Canvas.resume k c')
     = [Canvas.convertToFlowEdge connection (S (Canvas.i r))].
Proof.
  intros Hk Hnext Hgrow c'. subst c'.
  rewrite nodeCountEffect_increase by done. simpl.
  repeat split; [done|].
  unfold Canvas.resume. simpl. by rewrite Hk, Hnext.
Qed.

Lemma stale_reveal_keeps_running_witness :
  edge_ids mid_flight = ["edge_A_B_0"]
  /\ edge_ids (Canvas.nodeCountEffect reveal_after mid_flight) = []
  /\ edge_ids (Canvas.resume 0 (Canvas.nodeCountEffect reveal_after mid_flight))
     = ["edge_B_A_1"].
Proof.
  split; [reflexivity|]. split; [reflexivity|].
  unfold edge_ids.
  destruct (stale_reveal_keeps_running reveal_after mid_flight 0
              {| Canvas.captured := connections reveal_before; Canvas.i := 0 |}
              {| source := Some (JStr "B"); target := Some (JStr "A");
                 conn_id := "edge_B_A_1" |})
    as (_ & _ & _ & ->); [reflexivity | reflexivity | vm_compute; lia | reflexivity].
Defined.

(** The whole scenario: the restarted reveal shows its first edge, the
    old reveal then adds the edge it had still to show, and the restarted
    reveal adds that edge once more: three edges for two connections. *)
Lemma reveal_restart_scenario :
  let restarted :=
    Canvas.connectionsEffect reveal_after
      (Canvas.nodeCountEffect reveal_after mid_flight) in
  edge_ids restarted = ["edge_A_B_0"]
  /\ length (Canvas.reveals restarted) = 2%nat
  /\ edge_ids (Canvas.resume 0 restarted) = ["edge_A_B_0"; "edge_B_A_1"]
  /\ edge_ids (Canvas.resume 1 (Canvas.resume 0 restarted))
     = ["edge_A_B_0"; "edge_B_A_1"; "edge_B_A_1"].
Proof. vm_compute. auto. Qed.

(** *** Corruption recovery *)

(** A configurator event whose data is an object goes through the
    normaliser as it is. *)
Lemma sanitize_configurator event d :
  is_str "node_configurator" (assoc "step" event) = true ->
  assoc "data" event = Some (JObj d) ->
  sanitizeEventData event = event.
Proof.
  intros Hs Hd. unfold sanitizeEventData.
  destruct (isSSEStepEvent event); [simpl|done].
  by rewrite Hd, !(is_str_other _ _ _ Hs).
Qed.

(** The updater on [node_configurator/done] when the recovery branch
    extracts more nodes than the snapshot holds. *)
Lemma reduce_recovery JSON_parse t s event d nm extracted :
  is_str "node_configurator" (assoc "step" event) = true ->
  is_str "done" (assoc "status" event) = true ->
  assoc "data" event = Some (JObj d) ->
  corrupted (JObj d) = Some nm ->
  extract_nodes JSON_parse nm = Some extracted ->
  (length (nodes s) < length extracted)%nat ->
  reduce JSON_parse t s event
  = Some (set_showCanvas true
            (set_connections (extractConnectionsFromNodes extracted)
               (set_nodes extracted
                  (set_currentStep (Some (JStr "node_configurator")) s)))).
Proof.
  intros Hs Hst Hd Hc He Hlen.
  pose proof Hs as Hs'. apply is_str_true in Hs'.
  pose proof Hst as Hst'. apply is_str_true in Hst'.
  unfold reduce, isSSESystemEvent, isSSEStepEvent.
  rewrite (has_assoc _ _ _ Hs'), (has_assoc _ _ _ Hst'), andb_false_r. simpl.
  unfold reduce_step. rewrite Hd, Hs', Hst'.
  unfold on_prompt, on_architecture_done, on_nodes_selected, on_connections_built,
    on_database_setup, on_step_error, on_configurator.
  cbn [is_str strict_eq String.eqb Ascii.eqb Bool.eqb andb opt_prop prop].
  destruct (assoc "summary" d); cbn [mbind option_bind].
  all: unfold updateNodeConfiguration; rewrite Hc, He.
  all: destruct extracted as [|n0 ex]; [simpl in Hlen; lia|].
  all: cbn [mbind option_bind]; apply Nat.ltb_lt in Hlen.
  all: change (nodes (set_currentStep (Some (JStr "node_configurator")) s)) with (nodes s).
  all: by rewrite Hlen.
Qed.

(** The updater on [node_configurator/done] when the recovery branch
    extracts nodes: the test of the hook decides between the two
    outcomes. *)
Lemma reduce_recovery_either JSON_parse t s event d nm n0 extracted :
  is_str "node_configurator" (assoc "step" event) = true ->
  is_str "done" (assoc "status" event) = true ->
  assoc "data" event = Some (JObj d) ->
  corrupted (JObj d) = Some nm ->
  extract_nodes JSON_parse nm = Some (n0 :: extracted) ->
  reduce JSON_parse t s event
  = Some (let s0 := set_currentStep (Some (JStr "node_configurator")) s in
          if (length (nodes s) <? length (n0 :: extracted))%nat
          then set_showCanvas true
                 (set_connections (extractConnectionsFromNodes (n0 :: extracted))
                    (set_nodes (n0 :: extracted) s0))
          else set_nodes (n0 :: extracted) s0).
Proof.
  intros Hs Hst Hd Hc He.
  pose proof Hs as Hs'. apply is_str_true in Hs'.
  pose proof Hst as Hst'. apply is_str_true in Hst'.
  unfold reduce, isSSESystemEvent, isSSEStepEvent.
  rewrite (has_assoc _ _ _ Hs'), (has_assoc _ _ _ Hst'), andb_false_r. simpl.
  unfold reduce_step. rewrite Hd, Hs', Hst'.
  unfold on_prompt, on_architecture_done, on_nodes_selected, on_connections_built,
    on_database_setup, on_step_error, on_configurator.
  cbn [is_str strict_eq String.eqb Ascii.eqb Bool.eqb andb opt_prop prop].
  destruct (assoc "summary" d); cbn [mbind option_bind].
  all: unfold updateNodeConfiguration; rewrite Hc, He.
  all: cbn [mbind option_bind].
  all: change (nodes (set_currentStep (Some (JStr "node_configurator")) s)) with (nodes s).
  all: by destruct (_ <? _)%nat.
Qed.

(** X3.  The same event when the snapshot already holds as many nodes: the
    node list is replaced, and the connections and the canvas flag are left
    as they were. *)
Lemma reduce_recovery_undetected JSON_parse t s event d nm n0 extracted :
  is_str "node_configurator" (assoc "step" event) = true ->
  is_str "done" (assoc "status" event) = true ->
  assoc "data" event = Some (JObj d) ->
  corrupted (JObj d) = Some nm ->
  extract_nodes JSON_parse nm = Some (n0 :: extracted) ->
  (length (n0 :: extracted) <= length (nodes s))%nat ->
  reduce JSON_parse t s event
  = Some (set_nodes (n0 :: extracted)
            (set_currentStep (Some (JStr "node_configurator")) s)).
Proof.
  intros Hs Hst Hd Hc He Hlen.
  pose proof Hs as Hs'. apply is_str_true in Hs'.
  pose proof Hst as Hst'. apply is_str_true in Hst'.
  unfold reduce, isSSESystemEvent, isSSEStepEvent.
  rewrite (has_assoc _ _ _ Hs'), (has_assoc _ _ _ Hst'), andb_false_r. simpl.
  unfold reduce_step. rewrite Hd, Hs', Hst'.
  unfold on_prompt, on_architecture_done, on_nodes_selected, on_connections_built,
    on_database_setup, on_step_error, on_configurator.
  cbn [is_str strict_eq String.eqb Ascii.eqb Bool.eqb andb opt_prop prop].
  destruct (assoc "summary" d); cbn [mbind option_bind].
  all: unfold updateNodeConfiguration; rewrite Hc, He.
  all: cbn [mbind option_bind]; apply Nat.ltb_ge in Hlen.
  all: change (nodes (set_currentStep (Some (JStr "node_configurator")) s)) with (nodes s).
  all: by rewrite Hlen.
Qed.

Lemma reduce_recovery_undetected_witness :
  let s := state (Sample.after [Deliver 1 1 (Sample.selector_event ["X"; "Y"])]) in
  exists extracted,
    reduce Sample.parse 2 s Sample.corrupted_event
    = Some (set_nodes extracted (set_currentStep (Some (JStr "node_configurator")) s)).
Proof.
  eexists.
  eapply (reduce_recovery_undetected Sample.parse 2 _ Sample.corrupted_event
            _ Sample.payload);
    [reflexivity|reflexivity|reflexivity|reflexivity|vm_compute; reflexivity
    |vm_compute; lia].
Defined.

(** *** The matcher on texts with unknown parts *)

Lemma chars_app a b : chars (a +:+ b) = chars a ++ chars b.
Proof. induction a as [|c a IH]; simpl; [done|]. by rewrite IH. Qed.

Lemma strip_prefix_app l s : strip_prefix l (l ++ s) = Some s.
Proof. induction l as [|c l IH]; simpl; [done|]. by rewrite Ascii.eqb_refl. Qed.

Lemma exec_Lit l k s :
  exec (Lit l :: k) (chars l ++ s) = r ← exec k s; Some (push (chars l) false r).
Proof. simpl. by rewrite strip_prefix_app. Qed.

Lemma exec_One c k x s :
  c x = true -> exec (One c :: k) (x :: s) = r ← exec k s; Some (push [x] false r).
Proof. simpl. by intros ->. Qed.

Lemma greedy_run {R} (c : cls) (k : list ascii -> option R) w s r :
  Forall (fun x => c x = true) w -> stops c s -> k s = Some r ->
  greedy c k (w ++ s) = Some (w, r).
Proof.
  intros Hw Hs Hk. induction Hw as [|x w Hx Hw IH]; simpl.
  - destruct s as [|y s]; simpl in *; [by rewrite Hk|]. by rewrite Hs, Hk.
  - by rewrite Hx, IH.
Qed.

Lemma exec_Plus c captured k w s r :
  w <> [] -> Forall (fun x => c x = true) w -> stops c s -> exec k s = Some r ->
  exec (Rep Plus c captured :: k) (w ++ s) = Some (push w captured r).
Proof.
  intros Hne Hw Hs Hk. destruct Hw as [|x w Hx Hw]; [done|].
  simpl. rewrite Hx. by rewrite (greedy_run c (exec k) w s r).
Qed.

Lemma exec_Star c captured k w s r :
  Forall (fun x => c x = true) w -> stops c s -> exec k s = Some r ->
  exec (Rep Star c captured :: k) (w ++ s) = Some (push w captured r).
Proof.
  intros Hw Hs Hk. simpl. by rewrite (greedy_run c (exec k) w s r).
Qed.

Lemma lazy_run {R} (c : cls) (k : list ascii -> option R) w s r :
  Forall (fun x => c x = true) w ->
  (forall w1 w2, w = w1 ++ w2 -> w2 <> [] -> k (w2 ++ s) = None) ->
  k s = Some r ->
  lazy c k (w ++ s) = Some (w, r).
Proof.
  intros Hw. induction Hw as [|x w Hx Hw IH]; intros Hfail Hk.
  - simpl. destruct s; simpl; by rewrite Hk.
  - pose proof (Hfail [] (x :: w) eq_refl ltac:(done)) as H0.
    simpl in *. rewrite H0, Hx, IH; [done| |done].
    intros w1 w2 -> Hne. by apply (Hfail (x :: w1) w2).
Qed.

Lemma exec_Lazy c captured k w s r :
  Forall (fun x => c x = true) w ->
  (forall w1 w2, w = w1 ++ w2 -> w2 <> [] -> exec k (w2 ++ s) = None) ->
  exec k s = Some r ->
  exec (Rep LazyStar c captured :: k) (w ++ s) = Some (push w captured r).
Proof.
  intros Hw Hfail Hk. simpl. by rewrite (lazy_run c (exec k) w s r).
Qed.

Lemma search_here re s r : exec re s = Some r -> search re s = Some ([], r).
Proof. intros H. destruct s; simpl; by rewrite H. Qed.

Lemma search_skip re w s :
  (forall w1 w2, w = w1 ++ w2 -> w2 <> [] -> exec re (w2 ++ s) = None) ->
  search re (w ++ s) = '(b, r) ← search re s; Some (w ++ b, r).
Proof.
  induction w as [|x w IH]; intros Hfail.
  - simpl. by destruct (search re s) as [[b r]|].
  - pose proof (Hfail [] (x :: w) eq_refl ltac:(done)) as H0.
    simpl in *. rewrite H0.
    rewrite IH; [by destruct (search re s) as [[b r]|]|].
    intros w1 w2 -> Hne. by apply (Hfail (x :: w1) w2).
Qed.

Lemma clash_strip l p s : clash l p = true -> strip_prefix l (p ++ s) = None.
Proof.
  revert p. induction l as [|a l IH]; intros [|b p]; simpl; try done.
  destruct (Ascii.eqb a b); [apply IH|done].
Qed.

Lemma all_clash_suffix l w1 w2 :
  all_clash l (w1 ++ w2) = true -> w2 <> [] -> clash l w2 = true.
Proof.
  induction w1 as [|x w1 IH]; simpl.
  - destruct w2; [done|]. simpl. by intros [? _]%andb_true_iff.
  - intros [_ ?]%andb_true_iff. by apply IH.
Qed.

(** No occurrence of the literal starts inside a text that clashes with it
    at every position. *)
Lemma search_skip_clash l k p s :
  all_clash (chars l) p = true ->
  search (Lit l :: k) (p ++ s) = '(b, r) ← search (Lit l :: k) s; Some (p ++ b, r).
Proof.
  intros H. apply search_skip. intros w1 w2 -> Hne. simpl.
  by rewrite clash_strip by by eapply all_clash_suffix.
Qed.

Lemma Forall_forallb (f : ascii -> bool) l :
  forallb f l = true -> Forall (fun c => f c = true) l.
Proof.
  intros H. apply Forall_forall. intros c Hc.
  eapply forallb_forall in H; [exact H|]. by apply list_elem_of_In.
Qed.

Lemma forallb_Forall (f : ascii -> bool) l :
  Forall (fun c => f c = true) l -> forallb f l = true.
Proof. induction 1; simpl; [done|]. by apply andb_true_iff. Qed.

Lemma value_char_not c d : value_char c = true -> d ∈ delimiters -> Ascii.eqb c d = false.
Proof.
  unfold value_char. intros H%negb_true_iff Hd.
  destruct (Ascii.eqb c d) eqn:E; [|done].
  rewrite <- H. symmetry. apply existsb_exists. exists d.
  split; [by apply list_elem_of_In|done].
Qed.

(** What a clean text is made of. *)
Lemma clean_chars s :
  clean s = true -> chars s <> [] /\ Forall (fun c => value_char c = true) (chars s).
Proof.
  unfold clean. intros [Hne Hall]%andb_true_iff. split.
  - by destruct s.
  - eapply Forall_impl; [by apply Forall_forallb|].
    unfold clean_char. by intros c [? _]%andb_true_iff.
Qed.

Lemma clean_ref_id s :
  clean s = true -> Forall (fun c => none_of ".}" c = true) (chars s).
Proof.
  unfold clean. intros [_ Hall]%andb_true_iff.
  eapply Forall_impl; [by apply Forall_forallb|].
  unfold clean_char, none_of, one_of. simpl. intros c [_ H]%andb_true_iff.
  by destruct (Ascii.eqb c "."), (Ascii.eqb c "{"), (Ascii.eqb c "}").
Qed.

Lemma clean_not_brace s :
  clean s = true -> Forall (fun c => none_of "}" c = true) (chars s).
Proof.
  intros H. eapply Forall_impl; [by apply clean_ref_id|].
  unfold none_of, one_of. simpl. intros c.
  by destruct (Ascii.eqb c "."), (Ascii.eqb c "}").
Qed.

(** What a plain text is made of. *)
Lemma plain_chars s :
  plain s = true -> Forall (fun c => value_char c = true) (chars s).
Proof.
  intros H. eapply Forall_impl; [by apply Forall_forallb|].
  unfold plain_char. by intros c [? _]%andb_true_iff.
Qed.

Lemma plain_no_brace s :
  plain s = true -> Forall (fun c => Ascii.eqb c "{" = false) (chars s).
Proof.
  intros H. eapply Forall_impl; [by apply Forall_forallb|].
  unfold plain_char. by intros c [_ ?%negb_true_iff]%andb_true_iff.
Qed.

(** A literal that holds a delimiter does not start inside a text free of
    delimiters that is followed by a character foreign to the literal. *)
Lemma strip_prefix_value l w s :
  Forall (fun c => value_char c = true) w -> w <> [] ->
  existsb (fun c => negb (value_char c)) l = true ->
  match s with [] => True | x :: _ => existsb (Ascii.eqb x) l = false end ->
  strip_prefix l (w ++ s) = None.
Proof.
  intros Hw. revert l. induction Hw as [|b w Hb Hw IH]; intros l Hne Hl Hs; [done|].
  destruct l as [|a l]; [done|]. simpl.
  destruct (Ascii.eqb_spec a b) as [->|]; [|done].
  simpl in Hl. rewrite Hb in Hl. simpl in Hl.
  destruct w as [|b' w].
  - simpl. destruct l as [|a' l]; [done|].
    destruct s as [|x s]; [done|]. simpl.
    simpl in Hs. apply orb_false_iff in Hs as [_ Hs].
    apply orb_false_iff in Hs as [Hx _].
    rewrite Ascii.eqb_sym in Hx. by rewrite Hx.
  - apply IH; [done|done|].
    destruct s as [|x s]; [done|]. simpl in Hs. by apply orb_false_iff in Hs as [_ ?].
Qed.

Lemma search_skip_value l k w s :
  Forall (fun c => value_char c = true) w ->
  existsb (fun c => negb (value_char c)) (chars l) = true ->
  match s with [] => True | x :: _ => existsb (Ascii.eqb x) (chars l) = false end ->
  search (Lit l :: k) (w ++ s) = '(b, r) ← search (Lit l :: k) s; Some (w ++ b, r).
Proof.
  intros Hw Hl Hs. apply search_skip. intros w1 w2 -> Hne. simpl.
  rewrite strip_prefix_value; try done. by apply Forall_app in Hw as [_ ?].
Qed.

(** A literal does not start where its first character does not occur. *)
Lemma exec_Lit_head_fail c l k x s :
  Ascii.eqb x c = false -> exec (Lit (String c l) :: k) (x :: s) = None.
Proof. intros H. simpl. rewrite Ascii.eqb_sym. by rewrite H. Qed.

Lemma search_skip_char c l k w s :
  Forall (fun x => Ascii.eqb x c = false) w ->
  search (Lit (String c l) :: k) (w ++ s)
  = '(b, r) ← search (Lit (String c l) :: k) s; Some (w ++ b, r).
Proof.
  intros Hw. apply search_skip. intros w1 [|x w2] -> Hne; [done|].
  apply exec_Lit_head_fail.
  apply Forall_app in Hw as [_ Hw]. by apply Forall_cons in Hw as [? _].
Qed.

Lemma search_absent c l k w :
  Forall (fun x => Ascii.eqb x c = false) w -> search (Lit (String c l) :: k) w = None.
Proof.
  intros Hw. rewrite <- (app_nil_r w). by rewrite search_skip_char.
Qed.

(** *** Records in the form the upstream process prints them *)

Lemma match1_captures re str :
  match1 re str = l ← captures re (chars str); Some (map string_of_list_ascii l).
Proof.
  unfold match1, captures. by destruct (search re (chars str)) as [[b r]|].
Qed.

Lemma captures_here re s r : exec re s = Some r -> captures re s = Some (groups r).
Proof. intros H. unfold captures. by rewrite (search_here re s r). Qed.

Lemma captures_skip_clash l k p s :
  all_clash (chars l) p = true ->
  captures (Lit l :: k) (p ++ s) = captures (Lit l :: k) s.
Proof.
  intros H. unfold captures. rewrite search_skip_clash by done.
  by destruct (search _ s) as [[b r]|].
Qed.

Lemma captures_skip_value l k w s :
  Forall (fun c => value_char c = true) w ->
  existsb (fun c => negb (value_char c)) (chars l) = true ->
  match s with [] => True | x :: _ => existsb (Ascii.eqb x) (chars l) = false end ->
  captures (Lit l :: k) (w ++ s) = captures (Lit l :: k) s.
Proof.
  intros Hw Hl Hs. unfold captures. rewrite search_skip_value by done.
  by destruct (search _ s) as [[b r]|].
Qed.

(** Move the search over the pieces of a text in which the literal the
    expression starts with cannot begin. *)
Ltac skip_to_match :=
  repeat first [ rewrite captures_skip_clash by reflexivity
               | rewrite captures_skip_value by done ].

(** A character that is no delimiter belongs to every class the parser
    stops at a delimiter for. *)
Lemma value_class (f : cls) w :
  (forall c, value_char c = true -> f c = true) ->
  Forall (fun c => value_char c = true) w -> Forall (fun c => f c = true) w.
Proof. intros Hf H. eapply Forall_impl; [exact H|]. done. Qed.

Lemma value_not_quote c : value_char c = true -> not_quote c = true.
Proof.
  intros H. unfold not_quote, quote.
  rewrite !(value_char_not c) by (done || set_solver). done.
Qed.

Lemma value_params_char c :
  value_char c = true -> dot c && negb (Ascii.eqb c "]") = true.
Proof.
  intros H. unfold dot. rewrite !(value_char_not c) by (done || set_solver). done.
Qed.

Lemma value_dot c : value_char c = true -> dot c = true.
Proof.
  intros H. unfold dot. rewrite !(value_char_not c) by (done || set_solver). done.
Qed.

Lemma value_not_paren c : value_char c = true -> none_of ")" c = true.
Proof.
  intros H. unfold none_of, one_of. simpl.
  rewrite !(value_char_not c) by (done || set_solver). done.
Qed.

Lemma value_no_closing c : value_char c = true -> Ascii.eqb c ")" = false.
Proof. intros H. apply value_char_not; [done|set_solver]. Qed.

(** [Forall] over a text made of literal pieces and pieces free of
    delimiters. *)
Ltac pieces lem :=
  repeat (apply Forall_app; split);
  first [ by (apply (value_class _ _ lem))
        | by (apply Forall_forallb; vm_compute) ].

Lemma exec_attr attr v post :
  v <> [] -> Forall (fun c => value_char c = true) v ->
  exec (re_attr attr) (chars (attr +:+ "=") ++ "'"%char :: v ++ "'"%char :: post)
  = Some {| text := chars (attr +:+ "=") ++ "'"%char :: v ++ ["'"%char];
            groups := [v]; rest := post |}.
Proof.
  intros Hne Hv. unfold re_attr. rewrite exec_Lit, exec_One by done.
  rewrite (exec_Plus _ _ _ v ("'"%char :: post)
             {| text := ["'"%char]; groups := []; rest := post |}); try done.
  by apply (value_class _ _ value_not_quote).
Qed.

Lemma chars_record id nm ty ps :
  chars (record id nm ty ps)
  = chars "id='" ++ chars id ++ chars "' " ++ chars "name='" ++ chars nm
    ++ chars "' " ++ chars "type='" ++ chars ty ++ chars "' "
    ++ chars "params=[" ++ chars ps ++ chars "]" ++ chars " "
    ++ chars "loop_over=" ++ chars "None".
Proof. unfold record. rewrite !chars_app. reflexivity. Qed.

Section Record.
Variables id nm ty ps : string.
Hypothesis Hid : clean id = true.
Hypothesis Hnm : clean nm = true.
Hypothesis Hty : clean ty = true.

Lemma record_id : match1 (re_attr "id") (record id nm ty ps) = Some [id].
Proof.
  destruct (clean_chars _ Hid) as [Hne Hc].
  rewrite match1_captures, chars_record.
  erewrite captures_here; [|apply (exec_attr "id" (chars id)); done].
  simpl. by rewrite string_of_list_ascii_of_string.
Qed.

Lemma record_name : match1 (re_attr "name") (record id nm ty ps) = Some [nm].
Proof.
  destruct (clean_chars _ Hid) as [_ Hc].
  destruct (clean_chars _ Hnm) as [Hne' Hc'].
  rewrite match1_captures, chars_record.
  unfold re_attr.
  skip_to_match.
  erewrite captures_here; [|apply (exec_attr "name" (chars nm)); done].
  simpl. by rewrite string_of_list_ascii_of_string.
Qed.

Lemma record_type : match1 (re_attr "type") (record id nm ty ps) = Some [ty].
Proof.
  destruct (clean_chars _ Hid) as [_ Hc].
  destruct (clean_chars _ Hnm) as [_ Hc'].
  destruct (clean_chars _ Hty) as [Hne'' Hc''].
  rewrite match1_captures, chars_record.
  unfold re_attr.
  skip_to_match.
  erewrite captures_here; [|apply (exec_attr "type" (chars ty)); done].
  simpl. by rewrite string_of_list_ascii_of_string.
Qed.

Hypothesis Hps : params_text ps = true.
Hypothesis Hps_loop : forall s,
  captures re_loop_over (chars ps ++ s) = captures re_loop_over s.

Lemma record_params : match1 re_params (record id nm ty ps) = Some [ps].
Proof.
  destruct (clean_chars _ Hid) as [_ Hc].
  destruct (clean_chars _ Hnm) as [_ Hc'].
  destruct (clean_chars _ Hty) as [_ Hc''].
  rewrite match1_captures, chars_record.
  unfold re_params.
  skip_to_match.
  erewrite captures_here.
  2: { rewrite exec_Lit.
       erewrite exec_Lazy; [reflexivity| | |reflexivity].
       - apply Forall_forall. intros c Hin.
         eapply forallb_forall in Hps; [|by apply list_elem_of_In].
         by apply andb_true_iff in Hps as [? _].
       - intros w1 [|x w2] E Hne; [done|].
         assert (Hx : x ∈ chars ps) by (rewrite E; set_solver).
         eapply forallb_forall in Hps; [|by apply list_elem_of_In].
         apply andb_true_iff in Hps as [_ Hx'%negb_true_iff].
         by apply exec_Lit_head_fail. }
  simpl. by rewrite string_of_list_ascii_of_string.
Qed.

Lemma record_loop_over :
  match1 re_loop_over (record id nm ty ps) = Some ["None"].
Proof.
  destruct (clean_chars _ Hid) as [_ Hc].
  destruct (clean_chars _ Hnm) as [_ Hc'].
  destruct (clean_chars _ Hty) as [_ Hc''].
  rewrite match1_captures, chars_record.
  unfold re_loop_over.
  skip_to_match.
  fold re_loop_over. rewrite Hps_loop. unfold re_loop_over.
  skip_to_match.
  reflexivity.
Qed.

Lemma parse_record JSON_parse :
  parseNodeString JSON_parse (JStr (record id nm ty ps))
  = Some {| nodeId := JStr id;
            name := JStr nm;
            description := JStr (ty +:+ " node");
            status := configured;
            params := Some (JObj (parse_params JSON_parse ps));
            loop_text := Some JNull;
            category := inferNodeCategory (Some (JStr nm)) (Some (JStr ty));
            icon := inferNodeIcon (Some (JStr nm)) (Some (JStr ty));
            inputs := parse_params JSON_parse ps;
            outputs := mockOutputs nm;
            isMock := false;
            isArchitecturePlanner := false |}.
Proof.
  unfold parseNodeString.
  rewrite record_id, record_name, record_type, record_params, record_loop_over.
  reflexivity.
Qed.
End Record.

Lemma exec_NodeParams p raw post :
  p <> [] -> Forall (fun c => not_quote c = true) p ->
  raw <> [] -> Forall (fun c => none_of ")" c = true) raw ->
  exec re_NodeParams
    (chars "NodeParams(param_name=" ++ "'"%char :: p ++ "'"%char
     :: chars ", param_value=" ++ raw ++ ")"%char :: post)
  = Some {| text := chars "NodeParams(param_name=" ++ "'"%char :: p ++ "'"%char
                    :: chars ", param_value=" ++ raw ++ [")"%char];
            groups := [p; raw];
            rest := post |}.
Proof.
  intros Hp Hpq Hr Hrp. unfold re_NodeParams.
  rewrite exec_Lit, exec_One by done.
  rewrite (exec_Plus _ _ _ p
             ("'"%char :: chars ", param_value=" ++ raw ++ ")"%char :: post)
             {| text := "'"%char :: chars ", param_value=" ++ raw ++ [")"%char];
                groups := [raw]; rest := post |}); try done.
  rewrite exec_One by done. rewrite exec_Lit.
  rewrite (exec_Plus _ _ _ raw (")"%char :: post)
             {| text := [")"%char]; groups := []; rest := post |}); try done.
Qed.

Lemma exec_param_value raw :
  raw <> [] -> Forall (fun c => dot c = true) raw ->
  exec re_param_value (chars "param_value=" ++ raw)
  = Some {| text := chars "param_value=" ++ raw; groups := [raw]; rest := [] |}.
Proof.
  intros Hne Hd. unfold re_param_value. rewrite exec_Lit.
  rewrite <- (app_nil_r raw) at 1.
  rewrite (exec_Plus _ _ _ raw [] {| text := []; groups := []; rest := [] |});
    try done.
  unfold push. simpl. by rewrite !app_nil_r.
Qed.

(** One parameter with a quoted value free of delimiters. *)
Section Param.
Variables p val : string.
Hypothesis Hp : clean p = true.
Hypothesis Hval : Forall (fun c => value_char c = true) (chars val).

Local Abbreviation P := (node_param p val).

Lemma chars_param :
  chars P = chars "NodeParams(param_name='" ++ chars p ++ chars "', param_value='"
            ++ chars val ++ chars "')".
Proof. unfold node_param. rewrite !chars_app. reflexivity. Qed.

Lemma param_params_text :
  Forall (fun c => dot c && negb (Ascii.eqb c "]") = true) (chars P).
Proof.
  destruct (clean_chars _ Hp) as [_ Hcp].
  rewrite chars_param. pieces value_params_char.
Qed.

Lemma param_loop_over s :
  captures re_loop_over (chars P ++ s) = captures re_loop_over s.
Proof.
  destruct (clean_chars _ Hp) as [_ Hcp].
  rewrite chars_param. rewrite <- !app_assoc.
  unfold re_loop_over.
  skip_to_match.
  reflexivity.
Qed.

Lemma exec_param post :
  exec re_NodeParams (chars P ++ post)
  = Some {| text := chars P;
            groups := [chars p; "'"%char :: chars val ++ ["'"%char]];
            rest := post |}.
Proof.
  destruct (clean_chars _ Hp) as [Hnp Hcp].
  assert (Hshape : chars P
                   = chars "NodeParams(param_name=" ++ "'"%char :: chars p ++ "'"%char
                     :: chars ", param_value=" ++ ("'"%char :: chars val ++ ["'"%char])
                     ++ [")"%char]).
  { rewrite chars_param. cbn [app]. rewrite <- !app_assoc. reflexivity. }
  assert (Hpost : chars P ++ post
                  = chars "NodeParams(param_name=" ++ "'"%char :: chars p ++ "'"%char
                    :: chars ", param_value=" ++ ("'"%char :: chars val ++ ["'"%char])
                    ++ ")"%char :: post).
  { rewrite chars_param. cbn [app]. rewrite <- !app_assoc. reflexivity. }
  rewrite Hpost.
  rewrite exec_NodeParams; try done.
  - by rewrite Hshape.
  - by apply (value_class _ _ value_not_quote).
  - constructor; [done|]. apply Forall_app. split; [|by constructor].
    by apply (value_class _ _ value_not_paren).
Qed.

Lemma param_name : match1 (re_attr "param_name") P = Some [p].
Proof.
  destruct (clean_chars _ Hp) as [Hnp Hcp].
  rewrite match1_captures, chars_param.
  change (chars "NodeParams(param_name='")
    with (chars "NodeParams(" ++ chars "param_name='").
  rewrite <- !app_assoc. unfold re_attr.
  skip_to_match.
  erewrite captures_here; [|apply (exec_attr "param_name" (chars p)); done].
  simpl. by rewrite string_of_list_ascii_of_string.
Qed.

Lemma param_value :
  match1 re_param_value P = Some ["'" +:+ val +:+ "')"].
Proof.
  destruct (clean_chars _ Hp) as [Hnp Hcp].
  rewrite match1_captures, chars_param.
  change (chars "', param_value='")
    with (chars "', " ++ chars "param_value=" ++ chars "'").
  rewrite <- !app_assoc. unfold re_param_value.
  skip_to_match.
  erewrite captures_here.
  2: { apply exec_param_value; [done|].
       apply Forall_app; split; [by apply Forall_forallb|].
       apply Forall_app; split; [|by apply Forall_forallb].
       by apply (value_class _ _ value_dot). }
  cbn [groups mbind option_bind map].
  by rewrite <- !chars_app, string_of_list_ascii_of_string.
Qed.

Lemma param_value_cleaned JSON_parse :
  clean_param_value JSON_parse ("'" +:+ val +:+ "')") = JStr val.
Proof.
  unfold clean_param_value.
  assert (Hrep : replace1 re_closing (fun _ => []) ("'" +:+ val +:+ "')")
                 = "'" +:+ val +:+ "'").
  { unfold replace1, re_closing.
    replace (chars ("'" +:+ val +:+ "')"))
      with (chars ("'" +:+ val +:+ "'") ++ chars ")")
      by (rewrite !chars_app, <- !app_assoc; reflexivity).
    rewrite search_skip_char.
    2: { rewrite !chars_app.
         repeat (apply Forall_app; split); [by repeat constructor| |by repeat constructor].
         eapply Forall_impl; [exact Hval|]. apply value_no_closing. }
    rewrite (search_here _ (chars ")")
               {| text := chars ")"; groups := []; rest := [] |}) by reflexivity.
    cbn [mbind option_bind rest]. by rewrite !app_nil_r, string_of_list_ascii_of_string. }
  rewrite Hrep.
  assert (startsWith "'" ("'" +:+ val +:+ "'") = true) as -> by reflexivity.
  assert (endsWith "'" ("'" +:+ val +:+ "'") = true) as ->.
  { unfold endsWith.
    replace (chars ("'" +:+ val +:+ "'")) with (("'"%char :: chars val) ++ ["'"%char])
      by (rewrite !chars_app; reflexivity).
    by rewrite rev_app_distr. }
  cbn [andb]. unfold slice_1_m1.
  replace (chars ("'" +:+ val +:+ "'")) with ("'"%char :: chars val ++ ["'"%char])
    by (rewrite !chars_app; reflexivity).
  cbn [tl]. by rewrite removelast_last, string_of_list_ascii_of_string.
Qed.
End Param.

(** A list of such parameters. *)

Lemma chars_more_params p v l :
  chars (more_params ((p, v) :: l))
  = chars ", " ++ chars (node_param p v) ++ chars (more_params l).
Proof. cbn [more_params]. by rewrite !chars_app. Qed.

Lemma chars_node_params p v l :
  chars (node_params ((p, v) :: l)) = chars (node_param p v) ++ chars (more_params l).
Proof. cbn [node_params]. by rewrite chars_app. Qed.

Lemma more_params_text l :
  params_ok l ->
  Forall (fun c => dot c && negb (Ascii.eqb c "]") = true) (chars (more_params l)).
Proof.
  induction 1 as [|[p v] l [Hp Hv] _ IH]; [constructor|].
  rewrite chars_more_params.
  apply Forall_app; split; [by apply Forall_forallb|].
  apply Forall_app; split; [by apply param_params_text|done].
Qed.

Lemma node_params_text l : params_ok l -> params_text (node_params l) = true.
Proof.
  intros H. apply forallb_Forall. destruct H as [|[p v] l [Hp Hv] Hl]; [constructor|].
  rewrite chars_node_params.
  apply Forall_app; split; [by apply param_params_text|by apply more_params_text].
Qed.

Lemma more_params_loop_over l s :
  params_ok l ->
  captures re_loop_over (chars (more_params l) ++ s) = captures re_loop_over s.
Proof.
  induction 1 as [|[p v] l [Hp Hv] _ IH]; [done|].
  rewrite chars_more_params, <- !app_assoc.
  unfold re_loop_over. rewrite captures_skip_clash by reflexivity.
  fold re_loop_over. by rewrite param_loop_over.
Qed.

Lemma node_params_loop_over l s :
  params_ok l ->
  captures re_loop_over (chars (node_params l) ++ s) = captures re_loop_over s.
Proof.
  intros [|[p v] l' [Hp Hv] Hl]; [done|].
  rewrite chars_node_params, <- app_assoc, param_loop_over by done.
  by apply more_params_loop_over.
Qed.

(** One round of the scan: a match of some length behind a text the search
    moves over. *)
Lemma scan_step fuel re w s r :
  search re (w ++ s) = ('(b, r') ← search re s; Some (w ++ b, r')) ->
  exec re s = Some r -> text r <> [] ->
  scan (S fuel) re (w ++ s) = (w ++ [], r) :: scan fuel re (rest r).
Proof.
  intros Hw He Ht. simpl. rewrite Hw, (search_here _ _ _ He). simpl.
  by destruct (text r).
Qed.

Lemma scan_here fuel re s r :
  exec re s = Some r -> text r <> [] ->
  scan (S fuel) re s = ([], r) :: scan fuel re (rest r).
Proof.
  intros He Ht. apply (scan_step fuel re [] s r); [|done|done].
  cbn [app]. by destruct (search re s) as [[??]|].
Qed.

Lemma param_not_empty p v : chars (node_param p v) <> [].
Proof. rewrite chars_param. discriminate. Qed.

(** The matches of the parameter expression in the rest of a list. *)
Lemma scan_more_params l fuel :
  params_ok l -> (length l < fuel)%nat ->
  map (fun m => string_of_list_ascii (text (snd m)))
    (scan fuel re_NodeParams (chars (more_params l)))
  = map (fun pv => node_param (fst pv) (snd pv)) l.
Proof.
  intros Hl. revert fuel. induction Hl as [|[p v] l [Hp Hv] _ IH]; intros fuel Hfuel.
  - destruct fuel; [done|]. reflexivity.
  - destruct fuel as [|fuel]; [simpl in Hfuel; lia|].
    rewrite chars_more_params.
    erewrite scan_step;
      [|unfold re_NodeParams; by apply search_skip_clash
       |by apply exec_param
       |by apply param_not_empty].
    cbn [map snd text rest fst].
    rewrite string_of_list_ascii_of_string. f_equal.
    apply IH. simpl in Hfuel. lia.
Qed.

Lemma length_chars s : length (chars s) = String.length s.
Proof. induction s; simpl; congruence. Qed.

Lemma length_more_params l : (length l <= length (chars (more_params l)))%nat.
Proof.
  induction l as [|[p v] l IH]; [done|].
  rewrite chars_more_params, !length_app. simpl. lia.
Qed.

Lemma scan_node_params p v l fuel :
  params_ok ((p, v) :: l) -> (length l < fuel)%nat ->
  map (fun m => string_of_list_ascii (text (snd m)))
    (scan (S fuel) re_NodeParams (chars (node_params ((p, v) :: l))))
  = map (fun pv => node_param (fst pv) (snd pv)) ((p, v) :: l).
Proof.
  intros H Hfuel. apply Forall_cons in H as [[Hp Hv] Hl]. simpl in Hp, Hv.
  rewrite chars_node_params.
  erewrite scan_here; [|by apply exec_param|by apply param_not_empty].
  cbn [map snd text rest fst].
  rewrite string_of_list_ascii_of_string. f_equal.
  by apply scan_more_params.
Qed.

Lemma match_all_scan re s :
  match_all re s
  = match map (fun m => string_of_list_ascii (text (snd m)))
            (scan (S (String.length s)) re (chars s)) with
    | [] => None
    | ms => Some ms
    end.
Proof. unfold match_all. by destruct (scan _ _ _). Qed.

Lemma node_params_match_all p v l :
  params_ok ((p, v) :: l) ->
  match_all re_NodeParams (node_params ((p, v) :: l))
  = Some (map (fun pv => node_param (fst pv) (snd pv)) ((p, v) :: l)).
Proof.
  intros H. rewrite match_all_scan, scan_node_params; [done|done|].
  pose proof (length_more_params l) as Hlen.
  pose proof (param_not_empty p v) as Hne.
  rewrite <- length_chars, chars_node_params, length_app.
  destruct (chars (node_param p v)); [done|]. cbn [length]. lia.
Qed.

(** The parameters the parser reads from a list in the printed form: each
    one assigned in turn. *)
Lemma node_params_parsed JSON_parse l :
  params_ok l ->
  parse_params JSON_parse (node_params l)
  = fold_left (fun o pv => assign (fst pv) (JStr (snd pv)) o) l [].
Proof.
  intros Hl. unfold parse_params. destruct l as [|[p v] l]; [reflexivity|].
  rewrite node_params_match_all by done.
  generalize (@nil (string * JVal)). revert Hl.
  generalize ((p, v) :: l). clear p v l.
  induction 1 as [|[p v] l [Hp Hv] _ IH]; intros o; [done|].
  cbn [map fold_left fst snd].
  rewrite param_name, param_value by done. cbn [group1].
  rewrite param_value_cleaned by done. apply IH.
Qed.

(** *** References in parameter values *)

Lemma exec_variable A f post :
  A <> [] -> Forall (fun c => none_of ".}" c = true) A ->
  Forall (fun c => none_of "}" c = true) f ->
  exec re_variable (chars "{{$" ++ A ++ "."%char :: f ++ chars "}}" ++ post)
  = Some {| text := chars "{{$" ++ A ++ "."%char :: f ++ chars "}}";
            groups := [A]; rest := post |}.
Proof.
  intros HA HAc Hf. unfold re_variable. rewrite exec_Lit.
  rewrite (exec_Plus _ _ _ A ("."%char :: f ++ chars "}}" ++ post)
             {| text := "."%char :: f ++ chars "}}"; groups := []; rest := post |});
    try done.
  change ("."%char :: f ++ chars "}}" ++ post)
    with (("."%char :: f) ++ chars "}}" ++ post).
  rewrite (exec_Star _ _ _ ("."%char :: f) (chars "}}" ++ post)
             {| text := chars "}}"; groups := []; rest := post |}); try done.
  by constructor.
Qed.

Lemma exec_variable_id A post :
  A <> [] -> Forall (fun c => none_of ".}" c = true) A ->
  exec re_variable_id (chars "{{$" ++ A ++ "."%char :: post)
  = Some {| text := chars "{{$" ++ A; groups := [A]; rest := "."%char :: post |}.
Proof.
  intros HA HAc. unfold re_variable_id. rewrite exec_Lit.
  rewrite (exec_Plus _ _ _ A ("."%char :: post)
             {| text := []; groups := []; rest := "."%char :: post |}); try done.
  unfold push. simpl. by rewrite app_nil_r.
Qed.

Lemma scan_absent fuel re s : search re s = None -> scan fuel re s = [].
Proof. intros H. destruct fuel; [done|]. simpl. by rewrite H. Qed.

(** A plain text holds no reference. *)
Lemma references_plain w : plain w = true -> references w = [].
Proof.
  intros H. unfold references. rewrite match_all_scan, scan_absent; [done|].
  by apply search_absent, plain_no_brace.
Qed.

Lemma chars_reference A f :
  chars (reference A f) = chars "{{$" ++ chars A ++ chars "." ++ chars f ++ chars "}}".
Proof. unfold reference. rewrite !chars_app. reflexivity. Qed.

(** A reference between two plain texts. *)
Section Reference.
Variables pre A f post : string.
Hypothesis Hpre : plain pre = true.
Hypothesis HA : clean A = true.
Hypothesis Hf : clean f = true.
Hypothesis Hpost : plain post = true.

Local Abbreviation val := (pre +:+ reference A f +:+ post).

Lemma chars_embedded :
  chars val = chars pre ++ chars (reference A f) ++ chars post.
Proof. by rewrite !chars_app. Qed.

Lemma embedded_value : Forall (fun c => value_char c = true) (chars val).
Proof.
  pose proof (plain_chars _ Hpre). pose proof (plain_chars _ Hpost).
  destruct (clean_chars _ HA) as [_ HcA].
  destruct (clean_chars _ Hf) as [_ Hcf].
  rewrite chars_embedded, chars_reference.
  pieces (fun (c : ascii) (H : value_char c = true) => H).
Qed.

Lemma reference_id : match1 re_variable_id (reference A f) = Some [A].
Proof.
  destruct (clean_chars _ HA) as [HnA _].
  rewrite match1_captures, chars_reference.
  erewrite captures_here; [|by apply exec_variable_id, clean_ref_id].
  cbn [groups mbind option_bind map].
  by rewrite string_of_list_ascii_of_string.
Qed.

Lemma references_embedded : references val = [A].
Proof.
  destruct (clean_chars _ HA) as [HnA _].
  assert (Hexec : exec re_variable (chars (reference A f) ++ chars post)
                  = Some {| text := chars (reference A f); groups := [chars A];
                            rest := chars post |}).
  { rewrite chars_reference, <- !app_assoc.
    by apply exec_variable; [|apply clean_ref_id|apply clean_not_brace]. }
  unfold references. rewrite match_all_scan, chars_embedded.
  erewrite scan_step; [|by apply search_skip_char, plain_no_brace|exact Hexec|].
  2: { cbn [text]. rewrite chars_reference. discriminate. }
  rewrite scan_absent by by apply search_absent, plain_no_brace.
  cbn [map snd text rest omap list_omap].
  by rewrite string_of_list_ascii_of_string, reference_id.
Qed.
End Reference.

(** *** Extraction from the recovered nodes *)

Lemma obj_set_Forall (P : string * JVal -> Prop) k v o :
  P (k, v) -> Forall P o -> Forall P (obj_set k v o).
Proof.
  intros Hk. induction 1 as [|[k' v'] o Hkv Ho IH]; simpl.
  - by repeat constructor.
  - destruct (String.eqb k k'); by constructor.
Qed.

Lemma ordered_Forall (P : string * JVal -> Prop) o :
  Forall P o -> Forall P (ordered o).
Proof.
  intros H. unfold ordered. apply Forall_app. split.
  - apply Forall_map.
    induction H as [|[k v] o Hkv Ho IH]; simpl; [constructor|].
    destruct (array_index k); simpl; [|done].
    by apply insert_by_index_Forall.
  - induction H as [|kv o Hkv Ho IH]; [constructor|].
    rewrite filter_cons. case_decide; [by constructor|done].
Qed.

(** The parameters read from a list of plain parameters hold no
    reference. *)
Lemma plain_params_ok l : plain_params l = true -> params_ok l.
Proof.
  unfold plain_params, params_ok. induction l as [|[p v] l IH]; simpl; [constructor|].
  intros [[Hp Hv]%andb_true_iff Hl]%andb_true_iff.
  constructor; [|by apply IH]. split; [done|by apply plain_chars].
Qed.

Lemma plain_params_silent l o :
  plain_params l = true ->
  Forall (fun kv => forall w, snd kv = JStr w -> references w = []) o ->
  Forall (fun kv => forall w, snd kv = JStr w -> references w = [])
    (fold_left (fun o pv => assign (fst pv) (JStr (snd pv)) o) l o).
Proof.
  unfold plain_params. revert o. induction l as [|[p v] l IH]; intros o; simpl; [done|].
  intros [[Hp Hv]%andb_true_iff Hl]%andb_true_iff Ho.
  apply IH; [done|]. unfold assign. destruct (String.eqb p "__proto__"); [done|].
  apply obj_set_Forall; [|done]. simpl. intros w [= <-]. by apply references_plain.
Qed.

(** A node whose parameters hold no reference adds no connection. *)
Lemma scan_node_silent nodes acc node o :
  params node = Some (JObj o) ->
  Forall (fun kv => forall w, snd kv = JStr w -> references w = []) o ->
  scan_node nodes acc node = acc.
Proof.
  intros Hp Ho. unfold scan_node. rewrite Hp. cbn [truthy_opt truthy entries].
  apply ordered_Forall in Ho. induction Ho as [|[k v] l Hkv _ IH]; [done|].
  cbn [fold_left]. unfold scan_param at 2. cbn [snd].
  destruct v; try apply IH. by rewrite (Hkv _ eq_refl).
Qed.

Lemma ordered_singleton k x : ordered [(k, x)] = [(k, x)].
Proof.
  unfold ordered. cbn [omap list_omap fst mbind option_bind].
  rewrite filter_cons, filter_nil. cbn [fst].
  destruct (array_index k); cbn; by case_decide.
Qed.

(** A node whose only parameter refers to another node of the list adds
    the connection from that node. *)
Lemma scan_node_single nodes node A B p val :
  nodeId node = JStr B ->
  params node = Some (JObj [(p, JStr val)]) ->
  references val = [A] -> A <> B ->
  existsb (fun n => strict_eq (Some (nodeId n)) (Some (JStr A))) nodes = true ->
  (scan_node nodes ([], ∅) node).1
  = [{| source := Some (JStr A); target := Some (JStr B);
        conn_id := "edge_" +:+ A +:+ "_" +:+ B |}].
Proof.
  intros HB Hp Href Hne Hin.
  unfold scan_node. rewrite Hp. cbn [truthy_opt truthy entries].
  rewrite ordered_singleton. cbn [fold_left]. unfold scan_param. cbn [snd].
  rewrite Href. cbn [fold_left]. unfold add_connection.
  rewrite Hin, HB. cbn [strict_eq].
  apply String.eqb_neq in Hne as ->. cbn [negb andb fst snd ToString].
  case_decide; [set_solver|done].
Qed.

(** Extraction on two nodes, in either order, of which one refers to the
    other in its only parameter and the other refers to no node. *)
Lemma extract_pair swapped a b A B oA p val :
  nodeId a = JStr A -> nodeId b = JStr B ->
  params a = Some (JObj oA) ->
  Forall (fun kv => forall w, snd kv = JStr w -> references w = []) oA ->
  params b = Some (JObj [(p, JStr val)]) ->
  references val = [A] -> A <> B ->
  extractConnectionsFromNodes (in_order swapped a b)
  = [{| source := Some (JStr A); target := Some (JStr B);
        conn_id := "edge_" +:+ A +:+ "_" +:+ B |}].
Proof.
  intros HA HB HpA HoA HpB Href Hne.
  unfold extractConnectionsFromNodes.
  destruct swapped; cbn [in_order fold_left].
  - rewrite (scan_node_silent _ _ a oA) by done.
    apply (scan_node_single _ b A B p val); try done.
    cbn [existsb]. rewrite HA, HB. cbn [strict_eq].
    by rewrite String.eqb_refl, orb_true_r.
  - rewrite (scan_node_silent _ _ a oA) by done.
    apply (scan_node_single _ b A B p val); try done.
    cbn [existsb]. rewrite HA. cbn [strict_eq].
    by rewrite String.eqb_refl.
Qed.

Lemma append_nil_r s : s +:+ EmptyString = s.
Proof.
  induction s as [|c s IH]; [done|].
  change (String c (s +:+ EmptyString) = String c s). by rewrite IH.
Qed.

(** The recovery branch on two records of the printed form. *)
Lemma extract_nodes_two_records JSON_parse txt swapped A B nA nB tA tB psA p pre f post :
  clean A = true -> clean B = true -> clean nA = true -> clean nB = true ->
  clean tA = true -> clean tB = true -> plain_params psA = true ->
  clean p = true -> plain pre = true -> clean f = true -> plain post = true ->
  p <> "__proto__" ->
  JSON_parse txt
  = Some (JArr (in_order swapped
                  (JStr (record A nA tA (node_params psA)))
                  (JStr (record B nB tB
                           (node_param p (pre +:+ reference A f +:+ post)))))) ->
  exists a b oA,
    extract_nodes JSON_parse txt = Some (in_order swapped a b)
    /\ nodeId a = JStr A /\ nodeId b = JStr B
    /\ params a = Some (JObj oA)
    /\ Forall (fun kv => forall w, snd kv = JStr w -> references w = []) oA
    /\ params b = Some (JObj [(p, JStr (pre +:+ reference A f +:+ post))]).
Proof.
  intros HA HB HnA HnB HtA HtB HpsA Hp Hpre Hf Hpost Hproto Hparse.
  pose proof (plain_params_ok _ HpsA) as HokA.
  pose proof (embedded_value pre A f post Hpre HA Hf Hpost) as Hval.
  assert (HokB : params_ok [(p, pre +:+ reference A f +:+ post)])
    by by repeat constructor.
  assert (HrA := parse_record A nA tA (node_params psA) HA HnA HtA
                   (node_params_text _ HokA)
                   (fun s => node_params_loop_over _ s HokA) JSON_parse).
  assert (HrB := parse_record B nB tB (node_params [(p, pre +:+ reference A f +:+ post)])
                   HB HnB HtB (node_params_text _ HokB)
                   (fun s => node_params_loop_over _ s HokB) JSON_parse).
  rewrite !node_params_parsed in HrA, HrB by done.
  cbn [fold_left fst snd] in HrB. unfold assign at 1 in HrB.
  apply String.eqb_neq in Hproto. rewrite Hproto in HrB.
  change (node_params [(p, pre +:+ reference A f +:+ post)])
    with (node_param p (pre +:+ reference A f +:+ post) +:+ EmptyString) in HrB.
  rewrite append_nil_r in HrB.
  unfold extract_nodes. rewrite Hparse. cbn [mbind option_bind].
  eexists _, _, _.
  split; [destruct swapped; cbn [in_order omap list_omap]; by rewrite HrA, HrB|].
  repeat split; try reflexivity.
  by apply plain_params_silent.
Qed.

(** C1, where the code agrees with it.  Corruption recovery: a [node_configurator/done]
    event whose payload has [nodeId] [unknown] and whose name is the JSON
    text of an array of two records of the printed form, in either order,
    the parameter of one embedding a reference to a field of the other
    (whose own parameters refer to no node), reduced in a snapshot that
    holds fewer than two nodes, yields a snapshot with exactly the two nodes
    and exactly one connection, from the node referred to to the node that
    refers to it. *)
Theorem corruption_recovery JSON_parse (t : Z) (s : GenerationState)
    (event : SSEEvent) (d : Obj) (txt : string) (swapped : bool)
    (A B nA nB tA tB p pre f post : string) (psA : list (string * string)) :
  clean A = true -> clean B = true -> clean nA = true -> clean nB = true ->
  clean tA = true -> clean tB = true -> plain_params psA = true ->
  clean p = true -> plain pre = true -> clean f = true -> plain post = true ->
  A <> B -> p <> "__proto__" ->
  assoc "step" event = Some (JStr "node_configurator") ->
  assoc "status" event = Some (JStr "done") ->
  assoc "data" event = Some (JObj d) ->
  assoc "nodeId" d = Some (JStr "unknown") ->
  assoc "name" d = Some (JStr txt) ->
  startsWith "[" txt = true ->
  JSON_parse txt
  = Some (JArr (in_order swapped
                  (JStr (record A nA tA (node_params psA)))
                  (JStr (record B nB tB
                           (node_param p (pre +:+ reference A f +:+ post)))))) ->
  (length (nodes s) < 2)%nat ->
  exists s',
    reduce JSON_parse t s (sanitizeEventData event) = Some s'
    /\ map nodeId (nodes s') = in_order swapped (JStr A) (JStr B)
    /\ connections s'
       = [{| source := Some (JStr A); target := Some (JStr B);
             conn_id := "edge_" +:+ A +:+ "_" +:+ B |}].
Proof.
  intros HA HB HnA HnB HtA HtB HpsA Hp Hpre Hf Hpost Hne Hproto Hstep Hstatus
    Hdata Hid Hname Hstart Hparse Hlen.
  destruct (extract_nodes_two_records JSON_parse txt swapped A B nA nB tA tB
              psA p pre f post)
    as (a & b & oA & Hex & Ha & Hb & Hpa & HoA & Hpb); try done.
  assert (Hs : is_str "node_configurator" (assoc "step" event) = true)
    by by apply is_str_true.
  assert (Hst : is_str "done" (assoc "status" event) = true) by by apply is_str_true.
  assert (Hc : corrupted (JObj d) = Some txt).
  { unfold corrupted. cbn [prop]. by rewrite Hid, Hname, Hstart. }
  rewrite (sanitize_configurator event d Hs Hdata).
  rewrite (reduce_recovery JSON_parse t s event d txt (in_order swapped a b));
    [|done|done|done|done|done|by destruct swapped].
  eexists. split; [reflexivity|].
  cbn [nodes connections set_showCanvas set_connections set_nodes].
  split; [destruct swapped; cbn [in_order map]; by rewrite Ha, Hb|].
  apply (extract_pair swapped a b A B oA p (pre +:+ reference A f +:+ post));
    try done.
  by apply references_embedded.
Qed.

Lemma corruption_recovery_witness :
  exists s',
    reduce Sample.parse 1 (createInitialState None)
      (sanitizeEventData Sample.corrupted_event) = Some s'
    /\ map nodeId (nodes s') = [JStr "A"; JStr "B"]
    /\ connections s'
       = [{| source := Some (JStr "A"); target := Some (JStr "B");
             conn_id := "edge_A_B" |}].
Proof.
  apply (corruption_recovery Sample.parse 1 (createInitialState None)
           Sample.corrupted_event
           [("nodeId", JStr "unknown"); ("name", JStr Sample.payload);
            ("description", JStr "unknown"); ("params", JObj []); ("loop_text", JNull)]
           Sample.payload false
           "A" "B" "Fetch" "Summarize" "HttpRequestNode" "AiNode"
           "prompt" "Summarize " "body" " briefly"
           [("url", "https://example.com/feed"); ("method", "GET")]);
    first [ reflexivity | discriminate | simpl; lia ].
Defined.

(** C1, where the code departs from it.  The same event, reduced in a
    snapshot that already holds two or more nodes: the recovery parser
    extracts the two nodes and they replace the node list, but the hook
    takes an extraction to have happened only when the node list got
    longer, so it derives no connection although the two nodes have one:
    the connections stay those of the nodes that are gone, and the canvas
    flag is left as it was. *)
Theorem recovery_goes_undetected JSON_parse (t : Z) (s : GenerationState)
    (event : SSEEvent) (d : Obj) (txt : string) (swapped : bool)
    (A B nA nB tA tB p pre f post : string) (psA : list (string * string)) :
  clean A = true -> clean B = true -> clean nA = true -> clean nB = true ->
  clean tA = true -> clean tB = true -> plain_params psA = true ->
  clean p = true -> plain pre = true -> clean f = true -> plain post = true ->
  A <> B -> p <> "__proto__" ->
  assoc "step" event = Some (JStr "node_configurator") ->
  assoc "status" event = Some (JStr "done") ->
  assoc "data" event = Some (JObj d) ->
  assoc "nodeId" d = Some (JStr "unknown") ->
  assoc "name" d = Some (JStr txt) ->
  startsWith "[" txt = true ->
  JSON_parse txt
  = Some (JArr (in_order swapped
                  (JStr (record A nA tA (node_params psA)))
                  (JStr (record B nB tB
                           (node_param p (pre +:+ reference A f +:+ post)))))) ->
  (2 <= length (nodes s))%nat ->
  exists s',
    reduce JSON_parse t s (sanitizeEventData event) = Some s'
    /\ map nodeId (nodes s') = in_order swapped (JStr A) (JStr B)
    /\ extractConnectionsFromNodes (nodes s')
       = [{| source := Some (JStr A); target := Some (JStr B);
             conn_id := "edge_" +:+ A +:+ "_" +:+ B |}]
    /\ connections s' = connections s
    /\ showCanvas s' = showCanvas s.
Proof.
  intros HA HB HnA HnB HtA HtB HpsA Hp Hpre Hf Hpost Hne Hproto Hstep Hstatus
    Hdata Hid Hname Hstart Hparse Hlen.
  destruct (extract_nodes_two_records JSON_parse txt swapped A B nA nB tA tB
              psA p pre f post)
    as (a & b & oA & Hex & Ha & Hb & Hpa & HoA & Hpb); try done.
  assert (Hs : is_str "node_configurator" (assoc "step" event) = true)
    by by apply is_str_true.
  assert (Hst : is_str "done" (assoc "status" event) = true) by by apply is_str_true.
  assert (Hc : corrupted (JObj d) = Some txt).
  { unfold corrupted. cbn [prop]. by rewrite Hid, Hname, Hstart. }
  assert (Hpair : extractConnectionsFromNodes (in_order swapped a b)
                  = [{| source := Some (JStr A); target := Some (JStr B);
                        conn_id := "edge_" +:+ A +:+ "_" +:+ B |}]).
  { apply (extract_pair swapped a b A B oA p (pre +:+ reference A f +:+ post));
      try done.
    by apply references_embedded. }
  assert (Hshort : (length (nodes s) <? 2)%nat = false) by by apply Nat.ltb_ge.
  rewrite (sanitize_configurator event d Hs Hdata).
  assert (Hred : reduce JSON_parse t s event
                 = Some (set_nodes (in_order swapped a b)
                           (set_currentStep (Some (JStr "node_configurator")) s))).
  { destruct swapped; cbn [in_order] in Hex |- *.
    - rewrite (reduce_recovery_either JSON_parse t s event d txt b [a]) by done.
      cbn [length]. by rewrite Hshort.
    - rewrite (reduce_recovery_either JSON_parse t s event d txt a [b]) by done.
      cbn [length]. by rewrite Hshort. }
  eexists. split; [exact Hred|].
  cbn [nodes connections showCanvas set_nodes set_currentStep].
  split; [destruct swapped; cbn [in_order map]; by rewrite Ha, Hb|].
  by split.
Qed.

Lemma recovery_goes_undetected_witness :
  let s := state (Sample.after [Deliver 1 1 (Sample.selector_event ["X"; "Y"]);
                                Deliver 2 2 (Sample.builder_event [("X", "Y")])]) in
  exists s',
    reduce Sample.parse 3 s (sanitizeEventData Sample.corrupted_event) = Some s'
    /\ map nodeId (nodes s') = [JStr "A"; JStr "B"]
    /\ map conn_id (extractConnectionsFromNodes (nodes s')) = ["edge_A_B"]
    /\ map conn_id (connections s') = ["edge_X_Y_0"]
    /\ showCanvas s' = false.
Proof.
  intros s.
  destruct (recovery_goes_undetected Sample.parse 3 s
              Sample.corrupted_event
              [("nodeId", JStr "unknown"); ("name", JStr Sample.payload);
               ("description", JStr "unknown"); ("params", JObj []); ("loop_text", JNull)]
              Sample.payload false
              "A" "B" "Fetch" "Summarize" "HttpRequestNode" "AiNode"
              "prompt" "Summarize " "body" " briefly"
              [("url", "https://example.com/feed"); ("method", "GET")])
    as (s' & Hred & Hnodes & Hedge & Hconn & Hcanvas);
    try match goal with
        | |- (_ <= _)%nat => vm_compute; lia
        | |- _ => first [ reflexivity | discriminate ]
        end.
  exists s'. split; [exact Hred|]. split; [exact Hnodes|].
  rewrite Hedge, Hconn, Hcanvas. repeat split; vm_compute; reflexivity.
Defined.

(** The same in a session: after [node_selector/done] has given two nodes,
    the event replaces them and leaves the connection list empty. *)
Lemma recovery_without_connections :
  let h := Sample.after [Deliver 1 1 (Sample.selector_event ["X"; "Y"])] in
  let s' := state (handleSSEMessage Sample.parse 2 2 Sample.corrupted_event h) in
  map nodeId (nodes (state h)) = [JStr "X"; JStr "Y"]
  /\ map nodeId (nodes s') = [JStr "A"; JStr "B"]
  /\ connections s' = [].
Proof. vm_compute. auto. Qed.

(* ================================================================== *)
(** ** Further properties of the code *)
(* ================================================================== *)

(** *** The hook over a session *)

Lemma hook_invariant JSON_parse (P : HookState -> Prop) l h :
  (forall a h, P h -> P (act JSON_parse a h)) ->
  P h -> P (run_session JSON_parse l h).
Proof.
  intros Hstep. revert h. induction l as [|a l IH]; intros h Hh; simpl; [done|].
  apply IH, Hstep, Hh.
Qed.

(** X4.  The deduplication key ignores the payload: an event that arrives in the
    same millisecond as another event of the same step (or type) is dropped,
    whatever it carries. *)
Theorem same_key_other_event_dropped JSON_parse (now t t' : Z)
    (event event' : SSEEvent) (h : HookState) :
  eventId now event' = eventId now event ->
  handleSSEMessage JSON_parse now t' event' (handleSSEMessage JSON_parse now t event h)
  = handleSSEMessage JSON_parse now t event h.
Proof.
  intros Hkey. unfold handleSSEMessage at 1. rewrite Hkey.
  rewrite decide_True; [done|].
  unfold handleSSEMessage. case_decide; [done|].
  destruct (reduce _ _ _ _); simpl; set_solver.
Qed.

Lemma same_key_other_event_dropped_witness :
  let h := handleSSEMessage Sample.parse 1 1 (Sample.selector_event ["A"])
             (initialHook None) in
  handleSSEMessage Sample.parse 1 1 (Sample.selector_event ["A"; "B"; "C"]) h = h
  /\ length (nodes (state h)) = 1%nat.
Proof.
  intros h. split; [|reflexivity].
  apply (same_key_other_event_dropped Sample.parse 1 1 1
           (Sample.selector_event ["A"]) (Sample.selector_event ["A"; "B"; "C"])
           (initialHook None)).
  reflexivity.
Defined.

Lemma reduce_chat JSON_parse t s ev s' :
  reduce JSON_parse t s ev = Some s' ->
  chatMessages s `prefix_of` chatMessages s'.
Proof.
  apply (reduce_blockwise JSON_parse t ev
           (fun s s' => chatMessages s `prefix_of` chatMessages s')).
  - done.
  - intros s1 s2 s3 H1 H2. by etrans.
  - intros s0. unfold reduce_system. repeat case_match; try done.
    all: by apply prefix_app_r.
  - done.
  - intros s0. unfold on_prompt. repeat case_match; try done.
    by apply prefix_app_r.
  - blocks.
  - blocks.
  - blocks.
  - blocks.
  - blocks.
  - intros s0. unfold on_step_error. case_match; [|done].
    by apply prefix_app_r.
Qed.

Lemma act_chat JSON_parse a h :
  not_reset a ->
  chatMessages (state h) `prefix_of` chatMessages (state (act JSON_parse a h)).
Proof.
  destruct a as [now t event|g| |t names|t rnd message]; cbn [act not_reset]; intros Hr.
  - destruct (handleSSEMessage_state JSON_parse now t event h) as [->|E];
      [done|by eapply reduce_chat].
  - done.
  - done.
  - by destruct (setMockNodes_state t names h) as [->|(mock & _ & ->)].
  - destruct (onError_state t rnd message h) as [->|(m & ->)]; [done|].
    by apply prefix_app_r.
Qed.

Lemma chatLines_prefix l1 l2 :
  l1 `prefix_of` l2 -> chatLines l1 `prefix_of` chatLines l2.
Proof.
  intros [k ->]. unfold chatLines. rewrite omap_app. by apply prefix_app_r.
Qed.

(** X5.  Between two resets the chat only grows: the messages of the snapshot,
    and so the lines the page shows, are extended at their end and never
    changed or removed. *)
Theorem chat_append_only JSON_parse (l : list Action) (h : HookState) :
  Forall not_reset l ->
  chatMessages (state h) `prefix_of` chatMessages (state (run_session JSON_parse l h))
  /\ chatLines (chatMessages (state h))
     `prefix_of` chatLines (chatMessages (state (run_session JSON_parse l h))).
Proof.
  intros Hl.
  assert (H : chatMessages (state h)
              `prefix_of` chatMessages (state (run_session JSON_parse l h))).
  { revert h. induction Hl as [|a l Ha Hl IH]; intros h; simpl; [done|].
    etrans; [by apply (act_chat JSON_parse a h)|apply IH]. }
  split; [done|by apply chatLines_prefix].
Qed.

Lemma chat_append_only_witness :
  let h := Sample.after [Deliver 1 1 Sample.completed_event] in
  chatLines (chatMessages (state h))
  `prefix_of` chatLines (chatMessages (state (run_session Sample.parse
                 [Deliver 2 2 (Sample.step_event "node_selector" "error" [])] h))).
Proof.
  intros h.
  apply (chat_append_only Sample.parse
           [Deliver 2 2 (Sample.step_event "node_selector" "error" [])] h).
  by repeat constructor.
Defined.

Lemma act_counters JSON_parse a h : counters_ok h -> counters_ok (act JSON_parse a h).
Proof.
  unfold counters_ok.
  destruct a as [now t event|g| |t names|t rnd message]; cbn [act]; intros [Hr Hp].
  - unfold handleSSEMessage. case_decide as Hin; [done|].
    assert (size ({[eventId now event]} ∪ processedEventIds h)
            = S (size (processedEventIds h))) as Hsize.
    { rewrite size_union by set_solver. by rewrite size_singleton. }
    destruct (reduce _ _ _ _); simpl; rewrite Hsize; split; try lia.
    case_match; lia.
  - unfold reset. cbn [received processedEventIds processed].
    by rewrite size_empty.
  - done.
  - unfold setMockNodes. by case_match.
  - unfold onError. by case_match.
Qed.

(** X6.  The counter [received] is the number of keys the hook recorded, and
    [processed] never exceeds it: in every session, each counted event has
    its own key. *)
Theorem counters_match_keys JSON_parse (g : option string) (l : list Action) :
  let h := run_session JSON_parse l (initialHook g) in
  received h = size (processedEventIds h) /\ (processed h <= received h)%nat.
Proof.
  apply (hook_invariant JSON_parse counters_ok); [apply act_counters|].
  split; [|done]. cbn [initialHook received processedEventIds].
  by rewrite size_empty.
Qed.

Lemma act_agree JSON_parse a h1 h2 :
  hook_agree h1 h2 -> hook_agree (act JSON_parse a h1) (act JSON_parse a h2).
Proof.
  destruct h1 as [s1 ids1 r1 p1 c1 i1], h2 as [s2 ids2 r2 p2 c2 i2].
  unfold hook_agree. simpl. intros (-> & -> & -> & -> & ->).
  destruct a as [now t event|g| |t names|t rnd message]; cbn [act].
  - unfold handleSSEMessage. simpl. case_decide; [done|].
    by destruct (reduce _ _ _ _).
  - done.
  - done.
  - unfold setMockNodes. simpl. by case_match.
  - done.
Qed.

(** The reset forgets the session: whatever happens after it gives the
    snapshot, the keys and the counters it gives on a hook that has seen
    nothing. *)
Theorem reset_forgets JSON_parse (g : option string) (l : list Action) (h : HookState) :
  state (run_session JSON_parse l (reset g h))
  = state (run_session JSON_parse l (initialHook g))
  /\ processedEventIds (run_session JSON_parse l (reset g h))
     = processedEventIds (run_session JSON_parse l (initialHook g)).
Proof.
  assert (H : hook_agree (run_session JSON_parse l (reset g h))
                (run_session JSON_parse l (initialHook g))).
  { assert (H0 : hook_agree (reset g h) (initialHook g)) by done.
    revert H0. generalize (reset g h), (initialHook g).
    induction l as [|a l IH]; intros h1 h2 H0; simpl; [done|].
    by apply IH, act_agree. }
  destruct H as (? & ? & _). done.
Qed.

Lemma act_flags_session JSON_parse l h :
  Forall not_reset l -> flags_kept (state h) (state (run_session JSON_parse l h)).
Proof.
  intros Hl. revert h. induction Hl as [|a l Ha Hl IH]; intros h; simpl.
  - apply flags_kept_refl.
  - eapply flags_kept_trans; [by apply (act_flags JSON_parse a h)|apply IH].
Qed.

(** X7.  A session that has completed or failed is never shown as processing
    again, whatever arrives, until it is reset. *)
Theorem terminal_never_processing JSON_parse (l : list Action) (h : HookState) :
  isComplete (state h) = true \/ hasError (state h) = true ->
  Forall not_reset l ->
  isProcessing (state (run_session JSON_parse l h)) = false.
Proof.
  intros Hterm Hl.
  destruct (act_flags_session JSON_parse l h Hl) as [Hc He].
  unfold isProcessing. destruct Hterm as [H|H].
  - rewrite (Hc H). by rewrite andb_false_r.
  - rewrite (He H). by rewrite andb_false_r.
Qed.

Lemma terminal_never_processing_witness :
  let h := Sample.after [Deliver 1 1 Sample.completed_event] in
  isProcessing (state (run_session Sample.parse
                         [Deliver 2 2 (Sample.selector_event ["A"])] h)) = false.
Proof.
  intros h.
  apply (terminal_never_processing Sample.parse
           [Deliver 2 2 (Sample.selector_event ["A"])] h).
  - by left.
  - by repeat constructor.
Defined.

(** X8.  Whenever the projector has something to render, the hook allows the
    canvas to be shown: in every state a session can reach, a non-empty
    rendered population makes [canShowCanvas] true. *)
Theorem renderable_means_canvas JSON_parse (g : option string) (l : list Action) :
  Canvas.nodesToRender (state (run_session JSON_parse l (initialHook g))) <> [] ->
  canShowCanvas (state (run_session JSON_parse l (initialHook g))) = true.
Proof.
  set (s := state (run_session JSON_parse l (initialHook g))).
  assert (Hflag : mock_flag_ok s).
  { apply session_invariant; [apply act_mock_flag|]. by split. }
  unfold Canvas.nodesToRender, canShowCanvas. destruct (nodes s) as [|n ns]; simpl.
  - intros Hm. apply Hflag in Hm. rewrite Hm. by rewrite orb_true_r.
  - intros _. by rewrite orb_true_r.
Qed.

Lemma renderable_means_canvas_witness :
  canShowCanvas (state (run_session Sample.parse
                          [Deliver 1 1 (Sample.selector_event ["A"])]
                          (initialHook None))) = true.
Proof.
  apply (renderable_means_canvas Sample.parse None
           [Deliver 1 1 (Sample.selector_event ["A"])]).
  discriminate.
Defined.

(** *** The chat of the page *)

(** X10.  A transport error is recorded in [hasError] but adds no line to the
    chat: the [null] the callback appends is filtered out by the page.  If
    the snapshot held no message before, the effect even replaces the
    history of the page, lines typed by the user included, by the empty
    list. *)
Theorem transport_error_not_in_chat (t : Z) (rnd message : string) (h : HookState) :
  hasError (state (onError t rnd message h)) = true
  /\ chatLines (chatMessages (state (onError t rnd message h)))
     = chatLines (chatMessages (state h))
  /\ (forall chatHistory,
        chatMessages (state h) <> [] ->
        chatEffect (state (onError t rnd message h)) chatHistory
        = chatEffect (state h) chatHistory)
  /\ (forall chatHistory,
        chatMessages (state h) = [] ->
        chatEffect (state (onError t rnd message h)) chatHistory = []).
Proof.
  destruct (onError_appends_null t rnd message h) as [Hm He].
  assert (Hl : chatLines (chatMessages (state (onError t rnd message h)))
               = chatLines (chatMessages (state h))).
  { rewrite Hm. unfold chatLines. rewrite omap_app. simpl. by rewrite app_nil_r. }
  split; [done|]. split; [done|]. split.
  - intros hist Hne. unfold chatEffect. rewrite Hl, Hm, length_app. simpl.
    by destruct (chatMessages (state h)).
  - intros hist Hnil. unfold chatEffect. rewrite Hl, Hm, Hnil. done.
Qed.

Lemma truthy_or_val a b : truthy b = true -> truthy (or_val a b) = true.
Proof. intros Hb. unfold or_val. destruct a as [v|]; [|done]. by destruct (truthy v) eqn:E. Qed.

Lemma reduce_messages JSON_parse t s ev s' :
  reduce JSON_parse t s ev = Some s' -> messages_ok s -> messages_ok s'.
Proof.
  unfold messages_ok.
  apply (reduce_blockwise JSON_parse t ev
           (fun s s' => messages_ok s -> messages_ok s')); unfold messages_ok.
  - done.
  - auto.
  - intros s0 H. unfold reduce_system. repeat case_match; try done.
    all: apply Forall_app; split; [done|]; constructor; [|done].
    all: by intros msg [= <-].
  - done.
  - intros s0 H. unfold on_prompt.
    destruct (opt_prop "summary" _) as [summary|]; [|done].
    destruct (_ && _) eqn:E; [|done]. simpl.
    apply Forall_app; split; [done|]. constructor; [|done].
    intros msg [= <-]. simpl. by apply andb_true_iff in E as [_ ?].
  - blocks.
  - blocks.
  - blocks.
  - blocks.
  - blocks.
  - intros s0 H. unfold on_step_error. case_match; [|done]. simpl.
    apply Forall_app; split; [done|]. constructor; [|done].
    intros msg [= <-]. simpl. apply truthy_or_val.
    unfold truthy. by destruct (ToString_opt _).
Qed.

Lemma act_messages JSON_parse a h :
  messages_ok (state h) -> messages_ok (state (act JSON_parse a h)).
Proof.
  destruct a as [now t event|g| |t names|t rnd message]; cbn [act]; intros Hi.
  - destruct (handleSSEMessage_state JSON_parse now t event h) as [->|E];
      [done|by eapply reduce_messages].
  - constructor.
  - done.
  - by destruct (setMockNodes_state t names h) as [->|(mock & _ & ->)].
  - unfold messages_ok.
    destruct (onError_appends_null t rnd message h) as [-> _].
    apply Forall_app; split; [done|]. by constructor.
Qed.

(** X11.  In every state a session can reach, the page shows each message of the
    snapshot with the content it has, in order, and leaves out nothing but
    the [null]s: every message the reducer makes has a content. *)
Theorem session_messages_all_shown JSON_parse (g : option string) (l : list Action) :
  let msgs := chatMessages (state (run_session JSON_parse l (initialHook g))) in
  chatLines msgs = omap line_of msgs.
Proof.
  intros msgs.
  assert (H : messages_ok (state (run_session JSON_parse l (initialHook g)))).
  { apply session_invariant; [apply act_messages|]. constructor. }
  unfold messages_ok in H. fold msgs in H. clearbody msgs. unfold chatLines.
  induction H as [|m ms Hm Hms IH]; [done|].
  destruct m as [msg|]; cbn [omap list_omap chatLine line_of mbind option_bind];
    [|exact IH].
  rewrite (Hm msg eq_refl). unfold or_val. rewrite (Hm msg eq_refl).
  cbn [omap list_omap] in IH. by rewrite IH.
Qed.

(** X12.  After a [null] has entered the messages (a transport error) with no
    prompt message before it, [generationStateToWorkflow] throws unless it
    is given a name: its search for the prompt reads the type of the
    [null].  With a name it never throws. *)
Theorem workflow_name_needs_messages (s : GenerationState)
    (before after : list (option ChatMessage)) :
  chatMessages s = before ++ None :: after ->
  Forall (fun m => exists msg, m = Some msg /\ msg_type msg <> msg_system) before ->
  generationStateToWorkflow s None = None
  /\ generationStateToWorkflow s (Some EmptyString) = None
  /\ (forall n, n <> EmptyString -> generationStateToWorkflow s (Some n) <> None).
Proof.
  intros Hm Hb.
  assert (Hfind : find_system (chatMessages s) = None).
  { rewrite Hm. clear Hm. induction Hb as [|m ms (msg & -> & Ht) _ IH]; [done|].
    simpl. by destruct (msg_type msg). }
  unfold generationStateToWorkflow. rewrite Hfind. repeat split; try done.
  intros n Hn. apply String.eqb_neq in Hn. by rewrite Hn.
Qed.

Lemma workflow_name_needs_messages_witness :
  generationStateToWorkflow
    (state (onError 1 "r" "SSE connection error" (initialHook None))) None = None.
Proof.
  apply (workflow_name_needs_messages
           (state (onError 1 "r" "SSE connection error" (initialHook None))) [] []).
  - reflexivity.
  - constructor.
Defined.

(** *** The canvas *)

Lemma ltb_true a b : (a <? b)%nat = true <-> (a < b)%nat.
Proof. apply Nat.ltb_lt. Qed.

Lemma ltb_false a b : (a <? b)%nat = false <-> (b <= a)%nat.
Proof. apply Nat.ltb_ge. Qed.

Ltac order_nat :=
  repeat match goal with
         | H : (_ <? _)%nat = true |- _ => apply ltb_true in H
         | H : (_ <? _)%nat = false |- _ => apply ltb_false in H
         | H : (_ =? _)%nat = true |- _ => apply Nat.eqb_eq in H
         | H : (_ =? _)%nat = false |- _ => apply Nat.eqb_neq in H
         | H : _ && _ = true |- _ => apply andb_true_iff in H as [? ?]
         | H : _ && _ = false |- _ => apply andb_false_iff in H as [?|?]
         end;
  simpl in *; try lia.

(** X13.  Each of the two effects settles after one run: run again on the
    coordinator it left, with the same snapshot, it changes nothing, so the
    re-render its own updates cause does not start it over. *)
Theorem effects_settle (gs : GenerationState) (c : Canvas.Coordinator) :
  Canvas.nodeCountEffect gs (Canvas.nodeCountEffect gs c) = Canvas.nodeCountEffect gs c
  /\ Canvas.connectionsEffect gs (Canvas.connectionsEffect gs c)
     = Canvas.connectionsEffect gs c.
Proof.
  split.
  - unfold Canvas.nodeCountEffect.
    destruct ((Canvas.lastNodeCount c <? Canvas.currentNodeCount gs)%nat
              && (0 <? Canvas.currentNodeCount gs)%nat) eqn:E1; simpl.
    { rewrite Nat.ltb_irrefl. simpl.
      destruct (Canvas.currentNodeCount gs =? 0)%nat eqn:E; [|done]. order_nat. }
    destruct (Canvas.currentNodeCount gs <? Canvas.lastNodeCount c)%nat eqn:E2; simpl.
    { rewrite Nat.ltb_irrefl. simpl.
      by destruct ((Canvas.currentNodeCount gs =? 0)%nat
                   && (0 <? Canvas.currentNodeCount gs)%nat). }
    destruct ((Canvas.lastNodeCount c =? 0)%nat && (0 <? Canvas.currentNodeCount gs)%nat)
      eqn:E3; simpl.
    { order_nat. }
    by rewrite E1, E2, E3.
  - unfold Canvas.connectionsEffect. destruct (connections gs) as [|first rest]; [done|].
    destruct (negb (Canvas.isProcessingConnections c) && _) eqn:E; simpl; [done|].
    by rewrite E.
Qed.

Lemma imap_snoc {A B} (f : nat -> A -> B) l x :
  imap f (l ++ [x]) = imap f l ++ [f (length l) x].
Proof. rewrite imap_app. simpl. by rewrite Nat.add_0_r. Qed.

(** The coordinator after [k] rounds of an undisturbed reveal. *)
Lemma reveal_rounds gs c k :
  Canvas.edges c = [] -> Canvas.isProcessingConnections c = false ->
  Canvas.reveals c = [] -> (k < length (connections gs))%nat ->
  Nat.iter k (Canvas.resume 0) (Canvas.connectionsEffect gs c)
  = {| Canvas.edges := imap (fun i conn => Canvas.convertToFlowEdge conn i)
                         (take (S k) (connections gs));
       Canvas.isProcessingConnections := true;
       Canvas.lastNodeCount := Canvas.lastNodeCount c;
       Canvas.reveals := [{| Canvas.captured := connections gs; Canvas.i := k |}] |}.
Proof.
  intros He Hp Hr. induction k as [|k IH]; intros Hk.
  - simpl. unfold Canvas.connectionsEffect.
    destruct (connections gs) as [|first rest]; [simpl in Hk; lia|].
    rewrite Hp, He, Hr. reflexivity.
  - rewrite Nat.iter_succ, IH by lia. unfold Canvas.resume. cbn.
    destruct (lookup_lt_is_Some_2 (connections gs) (S k) Hk) as [conn Hconn].
    rewrite Hconn. f_equal.
    rewrite (take_S_r _ _ _ Hconn), imap_snoc.
    rewrite length_take_le by lia. done.
Qed.

(** X14.  A reveal that nothing disturbs shows every connection exactly once, in
    order: started on a coordinator with no edge and no reveal under way, it
    ends, after as many rounds as there are connections, with one edge per
    connection and the flag cleared. *)
Theorem undisturbed_reveal (gs : GenerationState) (c : Canvas.Coordinator) :
  Canvas.edges c = [] -> Canvas.isProcessingConnections c = false ->
  Canvas.reveals c = [] -> connections gs <> [] ->
  Nat.iter (length (connections gs)) (Canvas.resume 0) (Canvas.connectionsEffect gs c)
  = revealed (connections gs) c.
Proof.
  intros He Hp Hr Hne.
  destruct (length (connections gs)) as [|k] eqn:Hlen.
  { by destruct (connections gs). }
  rewrite Nat.iter_succ, reveal_rounds by (done || lia).
  unfold Canvas.resume. cbn.
  rewrite (lookup_ge_None_2 (connections gs) (S k)) by lia.
  unfold revealed. f_equal. by rewrite <- Hlen, firstn_all.
Qed.

Lemma undisturbed_reveal_witness :
  edge_ids (Nat.iter 2 (Canvas.resume 0)
              (Canvas.connectionsEffect reveal_before Canvas.initial))
  = ["edge_A_B_0"; "edge_B_A_1"].
Proof.
  change 2%nat with (length (connections reveal_before)).
  rewrite (undisturbed_reveal reveal_before Canvas.initial); done.
Defined.

Lemma map_from_lookup {A B} (f : nat -> A -> option B) l i k j y :
  map_from i f l = Some k -> k !! j = Some y ->
  exists x, l !! j = Some x /\ f (i + j)%nat x = Some y.
Proof.
  revert i k j. induction l as [|x l IH]; intros i k j H Hj; simpl in H.
  - by injection H as <-.
  - destruct (f i x) as [y0|] eqn:Ey; [|done]. simpl in H.
    destruct (map_from (S i) f l) as [k'|] eqn:Ek; [|done]. simpl in H.
    injection H as <-. destruct j as [|j]; simpl in *.
    + injection Hj as <-. exists x. by rewrite Nat.add_0_r.
    + destruct (IH _ _ _ Ek Hj) as (x' & Hx & Hf). exists x'.
      split; [done|]. by rewrite <- Nat.add_succ_comm.
Qed.

(** X15.  The seed positions of the flow nodes: all on one line, 350 apart in
    list order, so that two cards, 280 wide, never overlap before the first
    layout pass. *)
Theorem flow_positions (s : GenerationState) (fl : list Canvas.FlowNode)
    (i j : nat) (fi fj : Canvas.FlowNode) :
  Canvas.flowNodes s = Some fl ->
  fl !! i = Some fi -> fl !! j = Some fj ->
  Canvas.x fi = (100 + Z.of_nat i * 350)%Z
  /\ Canvas.y fi = Canvas.y fj
  /\ (i <> j -> (350 <= Z.abs (Canvas.x fi - Canvas.x fj))%Z).
Proof.
  intros Hfl Hi Hj. unfold Canvas.flowNodes, map_indexed in Hfl.
  destruct (map_from_lookup _ _ _ _ _ _ Hfl Hi) as (ni & _ & Hfi).
  destruct (map_from_lookup _ _ _ _ _ _ Hfl Hj) as (nj & _ & Hfj).
  unfold Canvas.convertToFlowNode in Hfi, Hfj. simplify_option_eq. lia.
Qed.

Lemma flow_positions_witness :
  exists fl fi fj,
    Canvas.flowNodes reveal_before = Some fl
    /\ fl !! 0%nat = Some fi /\ fl !! 1%nat = Some fj
    /\ Canvas.x fi = 100%Z /\ (350 <= Z.abs (Canvas.x fi - Canvas.x fj))%Z.
Proof.
  destruct (Canvas.flowNodes reveal_before) as [[|fi [|fj fl]]|] eqn:Hfl;
    try (vm_compute in Hfl; discriminate).
  exists (fi :: fj :: fl), fi, fj. repeat split.
  - apply (flow_positions reveal_before (fi :: fj :: fl) 0 1 fi fj Hfl); reflexivity.
  - apply (flow_positions reveal_before (fi :: fj :: fl) 0 1 fi fj Hfl);
      [reflexivity|reflexivity|lia].
Defined.

(** X16.  The projector throws exactly when one of the nodes it renders cannot be
    converted: a node that is no mock node and whose [nodeId] is no string
    (a number in the payload of [node_selector], say), or a node whose
    [loop_text] is neither a string nor [null] nor left out. *)
Theorem projector_throws_iff (s : GenerationState) :
  Canvas.flowNodes s = None <-> Exists unprojectable (Canvas.nodesToRender s).
Proof. apply convert_all_None. Qed.

Lemma transformMockNodes_ok t names l :
  transformMockNodes t names = Some l -> Forall (fun n => ~ unprojectable n) l.
Proof.
  unfold transformMockNodes. intros H.
  eapply map_indexed_Forall; [|exact H].
  intros i x y Hy. simplify_option_eq. unfold unprojectable. simpl.
  intros [[? Hid]|(v & ? & _)]; [first [ done | by destruct (Hid _ eq_refl) ]|done].
Qed.

Lemma transformArchitecturePlannerNodes_ok t v l :
  transformArchitecturePlannerNodes t v = Some l ->
  Forall (fun n => ~ unprojectable n) l.
Proof.
  unfold transformArchitecturePlannerNodes. intros H.
  destruct v; simplify_eq; [constructor|].
  eapply map_indexed_Forall; [|exact H].
  intros i x y Hy. simplify_option_eq. unfold unprojectable. simpl.
  intros [[? Hid]|(v & ? & _)]; [first [ done | by destruct (Hid _ eq_refl) ]|done].
Qed.

Lemma reduce_placeholders JSON_parse t s ev s' :
  reduce JSON_parse t s ev = Some s' -> placeholders_ok s -> placeholders_ok s'.
Proof.
  apply (reduce_blockwise JSON_parse t ev
           (fun s s' => placeholders_ok s -> placeholders_ok s')); [ auto | auto | .. ].
  all: try blocks.
  - intros s0 s1 H Hi. unfold on_architecture_done in H.
    destruct (_ && _) in H; [|by simplify_eq].
    destruct (transformArchitecturePlannerNodes _ _) eqn:E in H; [|done].
    simpl in H. injection H as <-.
    by eapply transformArchitecturePlannerNodes_ok.
  - intros s0 s1 H Hi. unfold on_nodes_selected in H.
    destruct (_ && _) in H; [|by simplify_eq].
    destruct (transformNodes _) in H; simplify_eq/=. constructor.
Qed.

Lemma act_placeholders JSON_parse a h :
  placeholders_ok (state h) -> placeholders_ok (state (act JSON_parse a h)).
Proof.
  destruct a as [now t event|g| |t names|t rnd message]; cbn [act]; intros Hi.
  - destruct (handleSSEMessage_state JSON_parse now t event h) as [->|E];
      [done|by eapply reduce_placeholders].
  - constructor.
  - done.
  - destruct (setMockNodes_state t names h) as [->|(mock & E & ->)]; [done|].
    by eapply transformMockNodes_ok.
  - destruct (onError_state t rnd message h) as [->|(m & ->)]; done.
Qed.

(** X17.  While a session has no real node, the projector cannot throw: the
    placeholders the hook builds (from the initial details and from the
    summary of the planner) always convert, one flow node for each. *)
Theorem placeholders_always_project JSON_parse (g : option string) (l : list Action) :
  nodes (state (run_session JSON_parse l (initialHook g))) = [] ->
  exists fl,
    Canvas.flowNodes (state (run_session JSON_parse l (initialHook g))) = Some fl
    /\ map Canvas.data fl = mockNodes (state (run_session JSON_parse l (initialHook g))).
Proof.
  set (s := state (run_session JSON_parse l (initialHook g))). intros Hn.
  assert (Hok : placeholders_ok s).
  { apply session_invariant; [apply act_placeholders|]. constructor. }
  destruct (Canvas.flowNodes s) as [fl|] eqn:E.
  - exists fl. split; [done|].
    rewrite (flowNodes_data s fl E). by apply nodesToRender_mock.
  - apply convert_all_None in E. rewrite (nodesToRender_mock s Hn) in E.
    apply Exists_exists in E as (n & Hin & Hbad).
    unfold placeholders_ok in Hok. rewrite Forall_forall in Hok.
    by destruct (Hok n Hin).
Qed.

Lemma placeholders_always_project_witness :
  exists fl,
    Canvas.flowNodes
      (state (run_session Sample.parse
                [SetMockNodes 1 [JStr "Fetch"]; Deliver 2 2 (Sample.planner_event ["Plan"])]
                (initialHook None))) = Some fl
    /\ length fl = 1%nat.
Proof.
  destruct (placeholders_always_project Sample.parse None
              [SetMockNodes 1 [JStr "Fetch"]; Deliver 2 2 (Sample.planner_event ["Plan"])])
    as (fl & Hfl & Hdata); [reflexivity|].
  exists fl. split; [exact Hfl|].
  rewrite <- (length_map Canvas.data), Hdata. reflexivity.
Defined.

(** *** The loop reference shown on a node *)

Lemma greedy_none {R} (c : cls) (k : list ascii -> option R) s :
  (forall s1 s2, s = s1 ++ s2 -> k s2 = None) -> greedy c k s = None.
Proof.
  induction s as [|x s IH]; intros Hk; simpl.
  - by rewrite (Hk [] [] eq_refl).
  - rewrite IH by (intros s1 s2 ->; by apply (Hk (x :: s1) s2)).
    rewrite (Hk [] (x :: s) eq_refl). by destruct (c x).
Qed.

(** The greedy run gives back as little as it must. *)
Lemma greedy_longest {R} (c : cls) (k : list ascii -> option R) w s r :
  Forall (fun x => c x = true) w ->
  k s = Some r ->
  (forall s1 s2, s = s1 ++ s2 -> s1 <> [] -> k s2 = None) ->
  greedy c k (w ++ s) = Some (w, r).
Proof.
  intros Hw Hk Hshort. induction Hw as [|x w Hx Hw IH]; simpl.
  - destruct s as [|y s]; simpl; [by rewrite Hk|].
    rewrite greedy_none by (intros s1 s2 ->; by apply (Hshort (y :: s1) s2)).
    rewrite Hk. by destruct (c y).
  - by rewrite Hx, IH.
Qed.

(** X18.  The projector shows a loop reference without its braces, and leaves a
    loop text that does not start like a reference as it is. *)
Theorem unwrap_variable_round_trip (v : string) :
  v <> EmptyString -> forallb dot (chars v) = true ->
  Canvas.unwrap_variable ("{{$" +:+ v +:+ "}}") = v
  /\ (forall s, startsWith "{{$" s = false -> Canvas.unwrap_variable s = s).
Proof.
  intros Hne Hdot. split.
  - unfold Canvas.unwrap_variable, Canvas.re_whole_variable.
    rewrite !chars_app, exec_Lit.
    destruct (chars v) as [|x w] eqn:Hv.
    { destruct v; [done|discriminate]. }
    apply Forall_forallb in Hdot. apply Forall_cons in Hdot as [Hx Hw].
    cbn [exec run greedy1 app]. rewrite Hx.
    rewrite (greedy_longest dot _ w (chars "}}")
               {| text := chars "}}"; groups := []; rest := [] |}); [| done | done |].
    + cbn [mbind option_bind push groups rest].
      rewrite app_nil_r, <- Hv. apply string_of_list_ascii_of_string.
    + intros [|a [|b [|? ?]]] s2 E Hs1; try done; by simplify_eq/=.
  - intros s Hs. unfold Canvas.unwrap_variable, Canvas.re_whole_variable, startsWith in *.
    cbn [exec]. by destruct (strip_prefix _ _).
Qed.

Lemma unwrap_variable_round_trip_witness :
  Canvas.unwrap_variable "{{$items}}" = "items".
Proof. apply (unwrap_variable_round_trip "items"); [discriminate|reflexivity]. Defined.

(** *** Generated ids *)

Lemma pretty_N_char_not_underscore d : pretty_N_char d <> "_"%char.
Proof. unfold pretty_N_char. by repeat case_match. Qed.

Lemma pretty_N_go_no_underscore x s :
  "_"%char ∉ chars s -> "_"%char ∉ chars (pretty_N_go x s).
Proof.
  revert s. induction (N.lt_wf_0 x) as [x _ IH]; intros s Hs.
  assert (x = 0 \/ 0 < x)%N as [->|Hx] by lia.
  - by rewrite pretty_N_go_0.
  - rewrite pretty_N_go_step by done. apply IH; [by apply N.div_lt|].
    simpl. intros [E|Hin]%elem_of_cons; [|done].
    by apply (pretty_N_char_not_underscore (x `mod` 10)%N).
Qed.

Lemma pretty_nat_no_underscore (n : nat) : "_"%char ∉ chars (pretty n).
Proof.
  unfold pretty, pretty_nat, pretty, pretty_N. case_decide.
  - simpl. by intros [?|?%elem_of_nil]%elem_of_cons.
  - apply pretty_N_go_no_underscore. simpl. by intros ?%elem_of_nil.
Qed.

(** What follows the last separator of a text determines itself. *)
Lemma after_last_separator {A} (c : A) a1 r1 a2 r2 :
  a1 ++ c :: r1 = a2 ++ c :: r2 -> c ∉ r1 -> c ∉ r2 -> r1 = r2.
Proof.
  revert a2. induction a1 as [|x a1 IH]; intros [|y a2] E H1 H2; simplify_eq/=.
  - done.
  - destruct H1. set_solver.
  - destruct H2. set_solver.
  - by eapply IH.
Qed.

Lemma chars_inj s1 s2 : chars s1 = chars s2 -> s1 = s2.
Proof.
  intros E. by rewrite <- (string_of_list_ascii_of_string s1),
    <- (string_of_list_ascii_of_string s2), E.
Qed.

(** Two ids that end in an underscore and an index are equal only if the
    indices are. *)
Lemma index_suffix_inj b1 b2 (i j : nat) :
  b1 +:+ "_" +:+ pretty i = b2 +:+ "_" +:+ pretty j -> i = j.
Proof.
  intros E. apply (f_equal chars) in E. rewrite !chars_app in E.
  apply after_last_separator in E; try apply pretty_nat_no_underscore.
  by apply (inj pretty), chars_inj.
Qed.

Lemma append_assoc a b c : (a +:+ b) +:+ c = a +:+ b +:+ c.
Proof. apply chars_inj. by rewrite !chars_app, app_assoc. Qed.

Lemma map_from_NoDup {A B K} (f : nat -> A -> option B) (g : B -> K) l i k :
  (forall a b x x' y y', f a x = Some y -> f b x' = Some y' -> g y = g y' -> a = b) ->
  map_from i f l = Some k -> NoDup (map g k).
Proof.
  intros Hf Hk. apply NoDup_alt. intros j1 j2 key H1 H2.
  apply list_lookup_fmap_Some in H1 as (y1 & -> & H1).
  apply list_lookup_fmap_Some in H2 as (y2 & E & H2).
  destruct (map_from_lookup _ _ _ _ _ _ Hk H1) as (x1 & _ & Hf1).
  destruct (map_from_lookup _ _ _ _ _ _ Hk H2) as (x2 & _ & Hf2).
  pose proof (Hf _ _ _ _ _ _ Hf1 Hf2 E). lia.
Qed.

Ltac generated_id Hy Hy' E :=
  repeat (apply bind_Some in Hy as (? & _ & Hy));
  repeat (apply bind_Some in Hy' as (? & _ & Hy'));
  injection Hy as <-; injection Hy' as <-; cbn [nodeId conn_id] in E.

(** X19.  The ids the hook generates for placeholders are pairwise distinct, also
    when two placeholders have the same name: the index at their end tells
    them apart. *)
Theorem generated_node_ids_distinct (t : Z) :
  (forall nodeNames l,
     transformMockNodes t nodeNames = Some l -> NoDup (map nodeId l))
  /\ (forall summary l,
        transformArchitecturePlannerNodes t summary = Some l -> NoDup (map nodeId l)).
Proof.
  split.
  - intros names l H. unfold transformMockNodes, map_indexed in H.
    eapply map_from_NoDup; [|exact H].
    intros a b x x' y y' Hy Hy' E. generated_id Hy Hy' E.
    apply (f_equal ToString) in E. cbn [ToString] in E.
    rewrite <- !(append_assoc _ "_" (pretty t +:+ _)) in E.
    rewrite <- !(append_assoc _ (pretty t) ("_" +:+ _)) in E.
    rewrite <- !(append_assoc "mock_") in E.
    by apply index_suffix_inj in E.
  - intros summary l H. unfold transformArchitecturePlannerNodes in H.
    destruct summary; simplify_eq; try apply NoDup_nil_2.
    unfold map_indexed in H.
    eapply map_from_NoDup; [|exact H].
    intros a b x x' y y' Hy Hy' E. generated_id Hy Hy' E.
    apply (f_equal ToString) in E. cbn [ToString] in E.
    rewrite <- !(append_assoc _ "_" (pretty t +:+ _)) in E.
    rewrite <- !(append_assoc _ (pretty t) ("_" +:+ _)) in E.
    rewrite <- !(append_assoc "node_") in E.
    by apply index_suffix_inj in E.
Qed.

(** X20.  The edge ids [transformConnections] builds are pairwise distinct, also
    for two connections with the same source and target. *)
Theorem connection_ids_distinct (data : option JVal) (l : list InternalConnection) :
  transformConnections data = Some l -> NoDup (map conn_id l).
Proof.
  unfold transformConnections. intros H.
  destruct (member "connections" data) as [[[| | | |items|]|]|]; simplify_eq/=.
  unfold map_indexed in H. eapply map_from_NoDup; [|exact H].
  intros a b x x' y y' Hy Hy' E. generated_id Hy Hy' E.
  rewrite <- !(append_assoc _ "_" (ToString_opt _ +:+ _)) in E.
  rewrite <- !(append_assoc _ (ToString_opt _) ("_" +:+ _)) in E.
  rewrite <- !(append_assoc "edge_") in E.
  by apply index_suffix_inj in E.
Qed.

Lemma connection_ids_distinct_witness :
  exists l,
    transformConnections (Some (JObj [("connections",
        JArr [JObj [("source", JStr "A"); ("target", JStr "B")];
              JObj [("source", JStr "A"); ("target", JStr "B")]])])) = Some l
    /\ NoDup (map conn_id l).
Proof.
  match goal with
  | |- exists l, transformConnections ?d = _ /\ _ =>
      destruct (transformConnections d) as [l|] eqn:H;
      [exists l; split; [done|by apply (connection_ids_distinct d)]
      |vm_compute in H; discriminate]
  end.
Defined.

(** *** The selected nodes *)

Lemma transformNode_Some node n :
  transformNode node = Some (Some n) ->
  truthy node = true /\ prop "nodeId" node = Some (nodeId n)
  /\ truthy (nodeId n) = true /\ truthy (name n) = true
  /\ status n = idle /\ params n = None /\ isMock n = false
  /\ exists s, prop "name" node = Some (JStr s).
Proof.
  unfold transformNode. intros H.
  destruct (truthy node); [|done].
  destruct (prop "nodeId" node) as [id|]; [|done].
  destruct (truthy id) eqn:Hid; [|done].
  destruct (prop "name" node) as [[]|]; simplify_eq/=.
  repeat split; eauto. by case_match.
Qed.

Lemma transformNode_null node :
  transformNode node = Some None ->
  (id ← (if truthy node then prop "nodeId" node else None);
   if truthy id then Some id else None) = None.
Proof.
  unfold transformNode. intros H.
  destruct (if truthy node then _ else _) as [id|]; [simpl|done].
  destruct (truthy id); [|done].
  by destruct (generateMockInputs _), (generateMockOutputs _).
Qed.

(** X21.  The nodes [transformNodes] returns are those of the payload that are
    truthy and have a truthy [nodeId], in the payload's order and under
    that id; each is idle, unconfigured, no placeholder, and has a
    non-empty name. *)
Theorem selected_nodes (data : option JVal) (l : list InternalWorkflowNode) :
  transformNodes data = Some l ->
  map nodeId l = kept_ids data
  /\ Forall (fun n => truthy (nodeId n) = true /\ truthy (name n) = true
                      /\ status n = idle /\ params n = None /\ isMock n = false) l.
Proof.
  unfold transformNodes, kept_ids. intros H.
  destruct (opt_prop "nodes" data) as [[| | | |items|]|] eqn:Hn; simplify_eq/=;
    try by split.
  assert (truthy_opt data = true) as Hd.
  { by destruct data as [[| | | | |]|]. }
  rewrite Hd in H. clear Hn Hd.
  apply bind_Some in H as (k & Hk & H). injection H as <-.
  apply mapM_Some_1 in Hk.
  induction Hk as [|item y items k Hy _ [IH1 IH2]]; [by split|].
  - destruct y as [n|]; simpl.
    + destruct (transformNode_Some _ _ Hy) as (Ht & Hid & Hti & Hnm & Hst & Hp & Hm & _).
      rewrite Ht, Hid. simpl. rewrite Hti. simpl. split; [by f_equal|].
      by constructor.
    + apply transformNode_null in Hy. by rewrite Hy.
Qed.

Lemma selected_nodes_witness :
  exists l,
    transformNodes (Some (JObj [("nodes",
        JArr [JObj [("nodeId", JStr "A"); ("name", JStr "Fetch")];
              JNull;
              JObj [("name", JStr "No id")];
              JObj [("nodeId", JStr "B"); ("name", JStr "")]])])) = Some l
    /\ map nodeId l = [JStr "A"; JStr "B"]
    /\ map name l = [JStr "Fetch"; JStr "Unnamed Node"].
Proof.
  match goal with
  | |- exists l, transformNodes ?d = _ /\ _ =>
      destruct (transformNodes d) as [l|] eqn:H;
      [exists l; split; [done|]; split;
       [by rewrite (proj1 (selected_nodes d l H))
       |by vm_compute in H; injection H as <-]
      |vm_compute in H; discriminate]
  end.
Defined.

Lemma mapM_None_elem {A B} (f : A -> option B) l x :
  x ∈ l -> f x = None -> mapM f l = None.
Proof.
  intros Hx Hf. destruct (mapM f l) as [k|] eqn:E; [|done].
  apply mapM_Some_1 in E.
  apply list_elem_of_lookup in Hx as [i Hi].
  destruct (Forall2_lookup_l _ _ _ _ _ E Hi) as (y & _ & Hy). congruence.
Qed.

(** X22.  A [node_selector/done] event that lists a node with an id but without a
    name that is a string makes the state updater throw: the default name
    is of no help, [generateMockInputs] calls [toLowerCase] on the name the
    payload has. *)
Theorem unnamed_node_throws JSON_parse (t : Z) (s : GenerationState)
    (event : SSEEvent) (d node : JVal) (items : list JVal) :
  assoc "step" event = Some (JStr "node_selector") ->
  assoc "status" event = Some (JStr "done") ->
  assoc "data" event = Some d ->
  prop "nodes" d = Some (JArr items) ->
  node ∈ items ->
  truthy node = true ->
  truthy_opt (prop "nodeId" node) = true ->
  (forall name, prop "name" node <> Some (JStr name)) ->
  sanitizeEventData event = event
  /\ reduce JSON_parse t s (sanitizeEventData event) = None.
Proof.
  intros Hstep Hstatus Hdata Hnodes Hin Hnode Hid Hname.
  assert (Hsan : sanitizeEventData event = event).
  { unfold sanitizeEventData, isSSEStepEvent.
    rewrite (has_assoc _ _ _ Hstep), (has_assoc _ _ _ Hstatus), Hdata, Hstep. simpl.
    destruct d; try done; by rewrite Hnodes. }
  split; [done|]. rewrite Hsan.
  unfold reduce, isSSESystemEvent, isSSEStepEvent.
  rewrite (has_assoc _ _ _ Hstep), (has_assoc _ _ _ Hstatus), andb_false_r. simpl.
  unfold reduce_step. rewrite Hdata, Hstep, Hstatus.
  assert (Hopt : opt_prop "nodes" (Some d) = Some (JArr items)) by by destruct d.
  assert (Hthrow : transformNodes (Some d) = None).
  { unfold transformNodes. rewrite Hopt.
    replace (truthy_opt (Some d)) with true by by destruct d.
    rewrite (mapM_None_elem _ _ node); [done|done|].
    unfold transformNode. rewrite Hnode.
    destruct (prop "nodeId" node) as [id|]; [simpl in Hid|done]. rewrite Hid.
    destruct (prop "name" node) as [[]|]; try done. by destruct (Hname s0). }
  unfold on_architecture_done, on_nodes_selected.
  by rewrite Hopt, Hthrow.
Qed.

Lemma unnamed_node_throws_witness :
  let event := Sample.step_event "node_selector" "done"
                 [("nodes", JArr [JObj [("nodeId", JStr "A")]])] in
  reduce Sample.parse 1 (createInitialState None) (sanitizeEventData event) = None.
Proof.
  intros event.
  apply (unnamed_node_throws Sample.parse 1 (createInitialState None) event
           (JObj [("nodes", JArr [JObj [("nodeId", JStr "A")]])])
           (JObj [("nodeId", JStr "A")]) [JObj [("nodeId", JStr "A")]]);
    try reflexivity; [apply list_elem_of_here|done].
Defined.

(** *** What an update keeps of a node *)

Lemma updateNodeStatus_fixed l id st :
  map fixed_part (updateNodeStatus l id st) = map fixed_part l.
Proof.
  unfold updateNodeStatus. rewrite map_map. apply map_ext. intros n.
  by destruct (strict_eq _ _).
Qed.

Lemma configure_fixed d l : map fixed_part (map (configure d) l) = map fixed_part l.
Proof.
  rewrite map_map. apply map_ext. intros n. unfold configure.
  by destruct (strict_eq _ _).
Qed.

Lemma reduce_fixed JSON_parse t s ev s' :
  replaces_nodes ev = false ->
  reduce JSON_parse t s ev = Some s' ->
  map fixed_part (nodes s') = map fixed_part (nodes s).
Proof.
  intros Hno.
  apply (reduce_blockwise JSON_parse t ev
           (fun s s' => map fixed_part (nodes s') = map fixed_part (nodes s)));
    [ done | congruence | .. ].
  all: try blocks.
  - intros s0 s1 H. unfold on_nodes_selected in H.
    destruct (is_str "node_selector" _) eqn:Hsel; [|by simplify_eq/=].
    destruct (is_str "done" _) eqn:Hdone; [|by simplify_eq/=].
    unfold replaces_nodes in Hno. by rewrite Hsel, Hdone in Hno.
  - intros s0 s1 H. unfold on_configurator in H.
    destruct (is_str "node_configurator" _) eqn:Hcfg; [|by simplify_eq/=].
    destruct (_ && _) in H.
    { injection H as <-. apply updateNodeStatus_fixed. }
    destruct (is_str "done" _) eqn:Hdone; [|by simplify_eq/=].
    unfold replaces_nodes in Hno. rewrite Hcfg, Hdone in Hno.
    rewrite (is_str_other _ _ _ Hcfg) in Hno by done. simpl in Hno.
    destruct (assoc "data" ev) as [d|]; [|done].
    destruct (corrupted d) eqn:Hc; [done|].
    destruct (updateNodeConfiguration _ _ _) as [l'|] eqn:E in H; [|done].
    apply updateNodeConfiguration_normal in E as ->; [|done].
    simpl in H. rewrite length_map, Nat.ltb_irrefl in H.
    injection H as <-. simpl. apply configure_fixed.
Qed.

(** X23.  Apart from the reset and the two events that replace the node list, no
    operation of the hook adds, removes or reorders nodes, or changes a
    node's id, category, icon, outputs or placeholder marks: an update
    touches only the name, description, status, parameters, loop text and
    inputs. *)
Theorem node_updates_keep_identity JSON_parse (a : Action) (h : HookState) :
  may_replace_nodes a = false ->
  map fixed_part (nodes (state (act JSON_parse a h))) = map fixed_part (nodes (state h)).
Proof.
  destruct a as [now t event|g| |t names|t rnd message]; cbn [act may_replace_nodes];
    intros Hno.
  - destruct (handleSSEMessage_state JSON_parse now t event h) as [->|E]; [done|].
    eapply reduce_fixed; [|exact E]. by rewrite replaces_nodes_sanitize.
  - done.
  - done.
  - by destruct (setMockNodes_state t names h) as [->|(mock & _ & ->)].
  - by destruct (onError_state t rnd message h) as [->|(m & ->)].
Qed.

Lemma node_updates_keep_identity_witness :
  let h := Sample.after [Deliver 1 1 (Sample.selector_event ["A"; "B"])] in
  let a := Deliver 2 2 (Sample.step_event "node_configurator" "done"
                          [("nodeId", JStr "B"); ("name", JStr "Fetch");
                           ("description", JStr "fetches"); ("params", JObj []);
                           ("loop_text", JNull)]) in
  map nodeId (nodes (state h)) = [JStr "A"; JStr "B"]
  /\ map status (nodes (state (act Sample.parse a h))) = [idle; configured]
  /\ map fixed_part (nodes (state (act Sample.parse a h)))
     = map fixed_part (nodes (state h)).
Proof.
  intros h a. split; [reflexivity|]. split; [reflexivity|].
  apply (node_updates_keep_identity Sample.parse a h). reflexivity.
Defined.

(** X24.  A configurator event that names an id no node has changes no node: the
    status update and the configuration both return the list as it was. *)
Theorem unknown_id_changes_nothing JSON_parse (nodes : list InternalWorkflowNode)
    (d : JVal) (st : NodeStatus) :
  names_no_node nodes d -> corrupted d = None -> d <> JNull ->
  updateNodeStatus nodes (prop "nodeId" d) st = nodes
  /\ updateNodeConfiguration JSON_parse nodes (Some d) = Some nodes.
Proof.
  intros Hno Hc Hd.
  split.
  - unfold updateNodeStatus. induction Hno as [|n l Hn _ IH]; [done|].
    cbn [map]. by rewrite Hn, IH.
  - unfold updateNodeConfiguration. rewrite Hc.
    replace (map (configure d) nodes) with nodes; [by destruct d|].
    induction Hno as [|n l Hn _ IH]; [done|].
    cbn [map]. unfold configure at 1. by rewrite Hn, <- IH.
Qed.

Lemma unknown_id_changes_nothing_witness :
  let nodes := nodes (state (Sample.after [Deliver 1 1 (Sample.selector_event ["A"; "B"])])) in
  let d := JObj [("nodeId", JStr "C"); ("name", JStr "Fetch"); ("params", JObj [])] in
  updateNodeConfiguration Sample.parse nodes (Some d) = Some nodes.
Proof.
  intros nodes d.
  apply (unknown_id_changes_nothing Sample.parse nodes d idle); [|done|done].
  vm_compute. repeat constructor.
Defined.

(** *** What a match of the expression engine consists of *)

Lemma strip_prefix_Some p s s' : strip_prefix p s = Some s' -> s = p ++ s'.
Proof.
  revert s. induction p as [|a p IH]; intros [|b s] H; simplify_eq/=; try done.
  destruct (Ascii.eqb_spec a b) as [->|]; [|done]. f_equal. by apply IH.
Qed.

Lemma greedy_sound {R} (c : cls) (k : list ascii -> option R) s w r :
  greedy c k s = Some (w, r) ->
  exists s', s = w ++ s' /\ k s' = Some r /\ Forall (fun x => c x = true) w.
Proof.
  revert w r. induction s as [|x s IH]; intros w r H; simpl in H.
  - destruct (k []) eqn:E; simplify_eq/=. by exists [].
  - destruct (c x) eqn:Hc.
    + destruct (greedy c k s) as [[w' r']|] eqn:G.
      * simplify_eq. destruct (IH _ _ eq_refl) as (s' & -> & ? & ?).
        exists s'. repeat split; auto.
      * destruct (k (x :: s)) eqn:E; simplify_eq/=. by exists (x :: s).
    + destruct (k (x :: s)) eqn:E; simplify_eq/=. by exists (x :: s).
Qed.

Lemma greedy1_sound {R} (c : cls) (k : list ascii -> option R) s w r :
  greedy1 c k s = Some (w, r) ->
  exists s', s = w ++ s' /\ k s' = Some r /\ Forall (fun x => c x = true) w /\ w <> [].
Proof.
  destruct s as [|x s]; [done|]. simpl. destruct (c x) eqn:Hc; [|done].
  destruct (greedy c k s) as [[w' r']|] eqn:G; [|done]. intros [= <- <-].
  destruct (greedy_sound _ _ _ _ _ G) as (s' & -> & ? & ?).
  exists s'. repeat split; auto.
Qed.

Lemma lazy_sound {R} (c : cls) (k : list ascii -> option R) s w r :
  lazy c k s = Some (w, r) ->
  exists s', s = w ++ s' /\ k s' = Some r /\ Forall (fun x => c x = true) w.
Proof.
  revert w r. induction s as [|x s IH]; intros w r H; simpl in H.
  - destruct (k []) eqn:E; simplify_eq/=. by exists [].
  - destruct (k (x :: s)) eqn:E; [simplify_eq/=; by exists (x :: s)|].
    destruct (c x) eqn:Hc; [|done].
    destruct (lazy c k s) as [[w' r']|] eqn:G; [|done]. simplify_eq/=.
    destruct (IH _ _ eq_refl) as (s' & -> & ? & ?).
    exists s'. repeat split; auto.
Qed.

Lemma run_sound {R} q (c : cls) (k : list ascii -> option R) s w r :
  run q c k s = Some (w, r) ->
  exists s', s = w ++ s' /\ k s' = Some r /\ Forall (fun x => c x = true) w
             /\ (q = Plus -> w <> []).
Proof.
  destruct q; simpl; intros H.
  - destruct (greedy_sound _ _ _ _ _ H) as (s' & ? & ? & ?). by exists s'.
  - destruct (greedy1_sound _ _ _ _ _ H) as (s' & ? & ? & ? & ?). by exists s'.
  - destruct (lazy_sound _ _ _ _ _ H) as (s' & ? & ? & ?). by exists s'.
Qed.

(** A match is a piece of the input: its text and the rest make up what the
    expression was run on. *)
Lemma exec_sound re s r : exec re s = Some r -> s = text r ++ rest r.
Proof.
  revert s r. induction re as [|[l|c|q c cap|] re IH]; intros s r H; cbn [exec] in H.
  - by simplify_eq.
  - apply bind_Some in H as (s' & Hs & H). apply bind_Some in H as (r' & Hr & H).
    simplify_eq. apply strip_prefix_Some in Hs as ->. simpl.
    by rewrite <- app_assoc, <- (IH _ _ Hr).
  - destruct s as [|x s]; [done|]. destruct (c x); [|done].
    apply bind_Some in H as (r' & Hr & H). simplify_eq. simpl.
    by rewrite <- (IH _ _ Hr).
  - apply bind_Some in H as ([w r'] & Hw & H). simplify_eq.
    destruct (run_sound _ _ _ _ _ _ Hw) as (s' & -> & Hr & _). simpl.
    by rewrite <- app_assoc, <- (IH _ _ Hr).
  - destruct s; [|done]. by apply IH.
Qed.

Lemma search_eq re s :
  search re s = match exec re s with
                | Some r => Some ([], r)
                | None => match s with
                          | x :: s' => '(b, r) ← search re s'; Some (x :: b, r)
                          | [] => None
                          end
                end.
Proof. by destruct s. Qed.

Lemma search_sound re s b r :
  search re s = Some (b, r) ->
  s = b ++ text r ++ rest r /\ exec re (text r ++ rest r) = Some r.
Proof.
  revert b. induction s as [|x s IH]; intros b; rewrite search_eq.
  - destruct (exec re []) eqn:E; [|done]. intros [= <- <-].
    by rewrite <- (exec_sound _ _ _ E).
  - destruct (exec re (x :: s)) eqn:E.
    + intros [= <- <-]. by rewrite <- (exec_sound _ _ _ E).
    + intros H. apply bind_Some in H as ([b' r'] & Hs & H). simplify_eq.
      destruct (IH _ Hs) as [-> ?]. by split.
Qed.

Lemma search_Lit_includes l k s b r :
  search (Lit l :: k) s = Some (b, r) -> includes_l (chars l) s = true.
Proof.
  revert b. induction s as [|x s IH]; intros b; rewrite search_eq; cbn [exec includes_l].
  - destruct (strip_prefix (chars l) []); [done|]. simpl. done.
  - destruct (strip_prefix (chars l) (x :: s)); [done|]. simpl.
    intros H. apply bind_Some in H as ([b' r'] & Hs & H). simplify_eq. by eapply IH.
Qed.

(** *** The records the recovery parser accepts *)

Lemma attr_sound attr str g :
  group1 (match1 (re_attr attr) str) = Some g ->
  includes (attr +:+ "=") str = true /\ quoted_value g.
Proof.
  unfold match1. intros H.
  destruct (search (re_attr attr) (chars str)) as [[b r]|] eqn:Hs; [|done].
  split; [by eapply search_Lit_includes|].
  apply search_sound in Hs as [_ He]. simpl in H.
  unfold re_attr in He. cbn [exec] in He.
  apply bind_Some in He as (s1 & _ & He). apply bind_Some in He as (r1 & He & ?).
  destruct s1 as [|x s1]; [done|]. destruct (quote x); [|done].
  apply bind_Some in He as (r2 & He & ?).
  apply bind_Some in He as ([w r3] & Hw & ?). simplify_eq/=.
  apply greedy1_sound in Hw as (s' & _ & _ & Hall & Hne).
  split.
  - by destruct w.
  - by rewrite list_ascii_of_string_of_list_ascii.
Qed.

(** X25.  What the recovery parser returns is a configured node whose id and name
    are non-empty texts without quotes and whose inputs are its parameters;
    and it returns a node only for a text that contains [id=], [name=] and
    [type=]. *)
Theorem parsed_record_sound JSON_parse (str : string) (n : InternalWorkflowNode) :
  parseNodeString JSON_parse (JStr str) = Some n ->
  (includes "id=" str && includes "name=" str && includes "type=" str = true)
  /\ (exists id nm, nodeId n = JStr id /\ name n = JStr nm
                    /\ quoted_value id /\ quoted_value nm)
  /\ status n = configured
  /\ params n = Some (JObj (inputs n))
  /\ isMock n = false.
Proof.
  unfold parseNodeString. intros H.
  destruct (group1 (match1 (re_attr "id") str)) as [id|] eqn:Hid; [|done].
  destruct (group1 (match1 (re_attr "name") str)) as [nm|] eqn:Hnm; [|done].
  destruct (group1 (match1 (re_attr "type") str)) as [ty|] eqn:Hty; [|done].
  apply attr_sound in Hid as [Hi ?], Hnm as [Hn ?], Hty as [Ht _].
  injection H as <-. cbn [nodeId name status params inputs loop_text isMock].
  split; [|split; [by exists id, nm|done]].
  change ("id=") with ("id" +:+ "="). change ("name=") with ("name" +:+ "=").
  change ("type=") with ("type" +:+ "="). by rewrite Hi, Hn, Ht.
Qed.

Lemma parsed_record_sound_witness :
  exists n, parseNodeString Sample.parse (JStr Sample.recordA) = Some n
            /\ status n = configured /\ params n = Some (JObj (inputs n)).
Proof.
  destruct (parseNodeString Sample.parse (JStr Sample.recordA)) as [n|] eqn:H;
    [|vm_compute in H; discriminate].
  exists n. split; [done|].
  destruct (parsed_record_sound Sample.parse Sample.recordA n H) as (_ & _ & ? & ? & _).
  by split.
Defined.

(** *** Template variables in a node card *)

Lemma string_of_app a b :
  string_of_list_ascii (a ++ b) = string_of_list_ascii a +:+ string_of_list_ascii b.
Proof. induction a as [|x a IH]; simpl; [done|]. by rewrite IH. Qed.

Lemma joined_strings l :
  joined (map string_of_list_ascii l) = string_of_list_ascii (concat l).
Proof.
  induction l as [|a l IH]; [done|]. cbn [map joined fold_right concat].
  fold (joined (map string_of_list_ascii l)). by rewrite IH, string_of_app.
Qed.

Lemma split_at_concat fuel s : concat (split_at fuel s) = s.
Proof.
  revert s. induction fuel as [|fuel IH]; intros s; cbn [split_at].
  - apply app_nil_r.
  - destruct (search re_pill s) as [[b r]|] eqn:E; [|apply app_nil_r].
    cbn [concat]. rewrite IH. symmetry. by apply search_sound in E as [? _].
Qed.

(** Each match of the separator takes at least its opening characters, so
    the rounds [split_pills] allows are enough. *)
Lemma pill_match_shrinks s b r :
  search re_pill s = Some (b, r) -> (length (rest r) < length s)%nat.
Proof.
  intros [-> He]%search_sound. unfold re_pill in He. cbn [exec] in He.
  apply bind_Some in He as (s1 & _ & He). apply bind_Some in He as (r1 & _ & ?).
  simplify_eq. rewrite !length_app. simpl. lia.
Qed.

Lemma split_at_enough fuel1 fuel2 s :
  (length s < fuel1)%nat -> (length s < fuel2)%nat -> split_at fuel1 s = split_at fuel2 s.
Proof.
  revert fuel2 s. induction fuel1 as [|fuel1 IH]; intros [|fuel2] s H1 H2; try lia.
  cbn [split_at]. destruct (search re_pill s) as [[b r]|] eqn:E; [|done].
  apply pill_match_shrinks in E. do 2 f_equal. apply IH; lia.
Qed.

Lemma piece_Pill part inside :
  piece part = Pill inside ->
  part = "{{$" +:+ inside +:+ "}}" /\ inside <> EmptyString.
Proof.
  unfold piece.
  destruct (exec re_whole_pill (chars part)) as [r|] eqn:He; [|done].
  destruct (groups r) as [|g gs] eqn:Hg; [done|]. intros [= <-].
  unfold re_whole_pill in He. cbn [exec] in He.
  apply bind_Some in He as (s1 & Hs1 & He). apply bind_Some in He as (r1 & He & ?).
  apply bind_Some in He as ([w r2] & Hw & ?).
  apply greedy1_sound in Hw as (s2 & -> & He & _ & Hne).
  apply bind_Some in He as (s3 & Hs3 & He). apply bind_Some in He as (r3 & He & ?).
  apply strip_prefix_Some in Hs1, Hs3.
  destruct s3; [|done]. simplify_eq. cbn [push groups] in Hg. simplify_eq.
  split; [|by destruct g].
  apply chars_inj. rewrite !chars_app, list_ascii_of_string_of_list_ascii.
  by rewrite Hs1.
Qed.

Lemma piece_shown part : shown (piece part) = part.
Proof.
  destruct (piece part) as [inside|p] eqn:E.
  - by apply piece_Pill in E as [-> _].
  - unfold piece in E. by repeat case_match; simplify_eq.
Qed.

(** X26.  [HighlightedText] loses nothing of a parameter value: its pieces, a
    pill standing for the template variable whose inside it shows, make up
    the text again; and no pill is empty. *)
Theorem highlighted_text_lossless (txt : string) :
  joined (map shown (HighlightedText txt)) = txt
  /\ Forall (fun p => p <> Pill EmptyString) (HighlightedText txt).
Proof.
  unfold HighlightedText. split.
  - rewrite map_map, (map_ext _ id) by apply piece_shown. rewrite map_id.
    unfold split_pills. rewrite joined_strings, split_at_concat.
    apply string_of_list_ascii_of_string.
  - apply Forall_map, Forall_forall. intros part _ E.
    by apply piece_Pill in E as [_ ?].
Qed.

(** *** The normaliser, applied again *)

Lemma repaired_keeps k v event :
  k <> "data" -> array_index k = None ->
  assoc k (obj_set "data" v (ordered event)) = assoc k event.
Proof.
  intros Hd%String.eqb_neq Hk. by rewrite assoc_obj_set, Hd, assoc_ordered.
Qed.

Lemma repaired_is_step v event :
  isSSEStepEvent event = true ->
  isSSEStepEvent (obj_set "data" v (ordered event)) = true.
Proof. unfold isSSEStepEvent, has. by rewrite !repaired_keeps. Qed.

Lemma repaired_steps_fun step field field' :
  (step, field) ∈ repaired_steps -> (step, field') ∈ repaired_steps ->
  field = field' /\ (field = "nodes" \/ field = "connections" \/ field = "databases").
Proof.
  unfold repaired_steps. rewrite !elem_of_cons, !elem_of_nil.
  intros [?|[?|[?|[]]]] [?|[?|[?|[]]]]; simplify_eq; auto.
Qed.

Lemma repaired_steps_step step field :
  (step, field) ∈ repaired_steps ->
  step = "node_selector" \/ step = "connection_builder" \/ step = "database_setup".
Proof.
  unfold repaired_steps. rewrite !elem_of_cons, !elem_of_nil.
  intros [?|[?|[?|[]]]]; simplify_eq; auto.
Qed.

(** An event whose data is an object or an array and whose expected field
    is an array is left as it is. *)
Lemma sanitize_fixed event d :
  assoc "data" event = Some d -> truthy d && typeof_object d = true ->
  (forall step field, (step, field) ∈ repaired_steps ->
     is_str step (assoc "step" event) = true -> isArray (prop field d) = true) ->
  sanitizeEventData event = event.
Proof.
  intros Hd Ht Hf. unfold sanitizeEventData.
  destruct (isSSEStepEvent event); [simpl|done]. rewrite Hd.
  assert (Hrep : forall step field, (step, field) ∈ repaired_steps ->
            (if is_str step (assoc "step" event)
             then if isArray (prop field d) then event
                  else obj_set "data" (JObj [(field, JArr [])]) (ordered event)
             else event) = event).
  { intros step field Hin. destruct (is_str step _) eqn:E; [|done].
    by rewrite (Hf _ _ Hin E). }
  pose proof (Hrep "node_selector" "nodes" ltac:(repeat constructor)) as H1.
  pose proof (Hrep "connection_builder" "connections" ltac:(repeat constructor)) as H2.
  pose proof (Hrep "database_setup" "databases" ltac:(repeat constructor)) as H3.
  apply andb_true_iff in Ht as [Ht1 Ht2].
  destruct d; try done.
  all: destruct (is_str "node_selector" _); [apply H1|].
  all: destruct (is_str "connection_builder" _); [apply H2|].
  all: destruct (is_str "database_setup" _); [apply H3|done].
Qed.

Lemma sanitize_repaired event step field :
  (step, field) ∈ repaired_steps ->
  is_str step (assoc "step" event) = true ->
  let repaired := obj_set "data" (JObj [(field, JArr [])]) (ordered event) in
  sanitizeEventData repaired = repaired.
Proof.
  intros Hin Hstep repaired.
  apply (sanitize_fixed _ (JObj [(field, JArr [])])).
  - unfold repaired. by rewrite assoc_obj_set.
  - done.
  - intros step' field' Hin'. unfold repaired. rewrite repaired_keeps by done.
    intros Hstep'. apply is_str_true in Hstep, Hstep'.
    assert (step' = step) as -> by congruence.
    destruct (repaired_steps_fun _ _ _ Hin Hin') as [<- Hfield].
    by destruct Hfield as [-> | [-> | ->]].
Qed.

Lemma sanitize_again event :
  data_missing event = false ->
  sanitizeEventData (sanitizeEventData event) = sanitizeEventData event.
Proof.
  unfold data_missing. intros Hd.
  destruct (assoc "data" event) as [d|] eqn:Hdata; [|done].
  apply negb_false_iff in Hd.
  destruct (isSSEStepEvent event) eqn:Hstep; [|by rewrite !(sanitize_system event Hstep)].
  unfold sanitizeEventData at 2 3. rewrite Hstep, Hdata. simpl.
  assert (Hrep : forall step field, (step, field) ∈ repaired_steps ->
            is_str step (assoc "step" event) = true ->
            (forall step', step' <> step -> is_str step' (assoc "step" event) = false) ->
            let e := if isArray (prop field d) then event
                     else obj_set "data" (JObj [(field, JArr [])]) (ordered event) in
            sanitizeEventData e = e).
  { intros step field Hin Hs Hother. destruct (isArray _) eqn:Ha; simpl.
    - apply (sanitize_fixed _ d); [done..|].
      intros step' field' Hin' Hs'. apply is_str_true in Hs, Hs'.
      assert (step' = step) as -> by congruence.
      by destruct (repaired_steps_fun _ _ _ Hin Hin') as [<- _].
    - by apply (sanitize_repaired event step field). }
  destruct (andb_prop _ _ Hd) as [Ht1 Ht2].
  destruct d; try done.
  all: destruct (is_str "node_selector" _) eqn:E1;
    [apply (Hrep "node_selector" "nodes");
       [repeat constructor|done|by intros; eapply is_str_other]|].
  all: destruct (is_str "connection_builder" _) eqn:E2;
    [apply (Hrep "connection_builder" "connections");
       [repeat constructor|done|by intros; eapply is_str_other]|].
  all: destruct (is_str "database_setup" _) eqn:E3;
    [apply (Hrep "database_setup" "databases");
       [repeat constructor|done|by intros; eapply is_str_other]|].
  all: apply (sanitize_fixed _ _ Hdata); [done|].
  all: intros step field Hin Hs.
  all: destruct (repaired_steps_step _ _ Hin) as [-> | [-> | ->]]; congruence.
Qed.

(** X27.  Normalising an event a second time changes nothing when the event has
    an object or an array as data, and in any case a third pass changes
    nothing: the first pass may only put the data there, and it takes the
    second to repair the expected field. *)
Theorem sanitize_settles (event : SSEEvent) :
  (data_missing event = false ->
   sanitizeEventData (sanitizeEventData event) = sanitizeEventData event)
  /\ sanitizeEventData (sanitizeEventData (sanitizeEventData event))
     = sanitizeEventData (sanitizeEventData event).
Proof.
  split; [apply sanitize_again|].
  destruct (isSSEStepEvent event) eqn:Hstep; [|by rewrite !(sanitize_system event Hstep)].
  apply sanitize_again. unfold data_missing.
  unfold sanitizeEventData. rewrite Hstep. simpl.
  destruct (assoc "data" event) as [d|] eqn:Hd; [|by rewrite assoc_obj_set].
  destruct d; rewrite ?assoc_obj_set; try done.
  all: destruct (is_str "node_selector" _);
    [destruct (isArray _); by rewrite ?assoc_obj_set, ?Hd|].
  all: destruct (is_str "connection_builder" _);
    [destruct (isArray _); by rewrite ?assoc_obj_set, ?Hd|].
  all: destruct (is_str "database_setup" _);
    [destruct (isArray _); by rewrite ?assoc_obj_set, ?Hd|by rewrite Hd].
Qed.

(** *** What the repair of a payload costs *)

(** X28.  An error event of one of the three repaired steps loses its message:
    its payload has no array in the expected field, the normaliser replaces
    the whole payload, and the chat gets the default text. *)
Theorem repair_drops_error_message JSON_parse (t : Z) (s : GenerationState)
    (event : SSEEvent) (data : Obj) (step field : string) :
  (step, field) ∈ repaired_steps ->
  assoc "step" event = Some (JStr step) ->
  assoc "status" event = Some (JStr "error") ->
  assoc "data" event = Some (JObj data) ->
  isArray (assoc field data) = false ->
  assoc "data" (sanitizeEventData event) = Some (JObj [(field, JArr [])])
  /\ reduce JSON_parse t s (sanitizeEventData event)
     = Some (append_message
               {| msg_id := "msg_" +:+ pretty t +:+ "_step_error";
                  msg_type := msg_error;
                  content := JStr ("Error in " +:+ step);
                  timestamp := t;
                  step := Some (JStr step) |}
               (set_hasError true (set_currentStep (Some (JStr step)) s))).
Proof.
  intros Hin Hstep Hstatus Hdata Harr.
  assert (Hsan : sanitizeEventData event
                 = obj_set "data" (JObj [(field, JArr [])]) (ordered event)).
  { unfold sanitizeEventData, isSSEStepEvent.
    rewrite (has_assoc _ _ _ Hstep), (has_assoc _ _ _ Hstatus), Hdata, Hstep.
    cbn [andb negb prop].
    unfold repaired_steps in Hin. rewrite !elem_of_cons, elem_of_nil in Hin.
    destruct Hin as [?|[?|[?|[]]]]; simplify_eq; simpl; by rewrite Harr. }
  assert (Hd : assoc "data" (sanitizeEventData event) = Some (JObj [(field, JArr [])]))
    by by rewrite Hsan, assoc_obj_set.
  assert (Hs : assoc "step" (sanitizeEventData event) = Some (JStr step))
    by by rewrite sanitize_keeps.
  assert (Hst : assoc "status" (sanitizeEventData event) = Some (JStr "error"))
    by by rewrite sanitize_keeps.
  split; [done|].
  unfold reduce, isSSESystemEvent, isSSEStepEvent.
  rewrite (has_assoc _ _ _ Hs), (has_assoc _ _ _ Hst), andb_false_r.
  cbn [andb negb]. unfold reduce_step. rewrite Hd, Hs, Hst.
  unfold repaired_steps in Hin. rewrite !elem_of_cons, elem_of_nil in Hin.
  by destruct Hin as [?|[?|[?|[]]]]; simplify_eq.
Qed.

Lemma repair_drops_error_message_witness :
  let event := Sample.step_event "database_setup" "error"
                 [("message", JStr "disk full")] in
  exists s', reduce Sample.parse 1 (createInitialState None) (sanitizeEventData event)
             = Some s'
             /\ map (fun m => content <$> m) (chatMessages s')
                = [Some (JStr "Error in database_setup")].
Proof.
  intros event. eexists. split; [|shelve].
  apply (repair_drops_error_message Sample.parse 1 (createInitialState None) event
           [("message", JStr "disk full")] "database_setup" "databases");
    [repeat constructor|reflexivity..].
  Unshelve. reflexivity.
Defined.

(** *** The transport and its parser *)

(** X9.  [parseSSEMessage] returns only objects that are step or system events,
    and a message it rejects would not change the snapshot: the transport,
    which hands every parsed message to the hook without calling it, is as
    safe without it.  A text that does not parse, or parses to [null],
    leaves the whole hook as it was. *)
Theorem rejected_message_keeps_snapshot JSON_parse (now t : Z) (raw : string)
    (h : HookState) :
  (parseSSEMessage JSON_parse raw = None ->
   state (onmessage JSON_parse now t raw h) = state h)
  /\ (JSON_parse raw = None \/ JSON_parse raw = Some JNull ->
      parseSSEMessage JSON_parse raw = None
      /\ onmessage JSON_parse now t raw h = h)
  /\ (forall v, parseSSEMessage JSON_parse raw = Some v ->
        exists event, v = JObj event /\ JSON_parse raw = Some (JObj event)
                      /\ xorb (isSSEStepEvent event) (isSSESystemEvent event) = true).
Proof.
  unfold parseSSEMessage, onmessage.
  destruct (JSON_parse raw) as [[| | | | |event]|] eqn:E;
    try (split; [by intros; try case_decide|split; [by intros [?|?]|done]]).
  split; [|split; [by intros [?|?]|]].
  - destruct (isSSEStepEvent event) eqn:Hstep; [done|].
    destruct (isSSESystemEvent event) eqn:Hsys; [done|]. intros _.
    unfold handleSSEMessage. case_decide; [done|].
    rewrite (sanitize_system _ Hstep). unfold reduce. by rewrite Hstep, Hsys.
  - intros v Hv. exists event.
    unfold isSSESystemEvent, isSSEStepEvent in *.
    destruct (has "step" event), (has "status" event), (has "type" event);
      by simplify_eq/=.
Qed.

(** *** Chat messages of step events *)

Lemma append_truthy a b : b <> EmptyString -> truthy (JStr (a +:+ b)) = true.
Proof.
  intros Hb. simpl. apply negb_true_iff, String.eqb_neq. intros E.
  apply (f_equal chars) in E. rewrite chars_app in E.
  apply app_eq_nil in E as [_ E]. by destruct b.
Qed.

(** X29.  [createChatMessage] makes a message only of a [database_setup] event
    whose status is [error] or [done]; the message is never empty, and it
    is an error message exactly for the status [error]. *)
Theorem chat_message_only_for_database_setup (t : Z) (rnd : string) (event : JVal)
    (text : option JVal) (m : ChatMessage) :
  createChatMessage t rnd event text = Some (Some m) ->
  prop "step" event = Some (JStr "database_setup")
  /\ step m = Some (JStr "database_setup")
  /\ truthy (content m) = true
  /\ ((prop "status" event = Some (JStr "error") /\ msg_type m = msg_error)
      \/ (prop "status" event = Some (JStr "done") /\ msg_type m = msg_step)).
Proof.
  unfold createChatMessage. intros H.
  apply bind_Some in H as (step & Hstep & H).
  apply bind_Some in H as (status & Hstatus & H).
  apply bind_Some in H as (data & Hdata & H).
  assert (Hp : forall k v, member k (Some event) = Some v -> prop k event = v).
  { intros k v. destruct event; simpl; congruence. }
  apply Hp in Hstep, Hstatus. subst step status.
  destruct (is_str "database_setup" (prop "step" event)) eqn:Es; [|done].
  apply is_str_true in Es. rewrite Es in *. cbn [negb] in H.
  destruct (is_str "error" (prop "status" event)) eqn:Ee.
  { apply is_str_true in Ee.
    apply bind_Some in H as (message & _ & H). injection H as <-.
    cbn [step content msg_type]. repeat split; auto.
    by apply truthy_or_val. }
  destruct (is_str "done" (prop "status" event)) eqn:Ed; [|done].
  apply is_str_true in Ed. cbn [negb] in H.
  assert (Hc : forall c, truthy c = true ->
            Some (Some {| msg_id := "msg_" +:+ pretty t +:+ "_" +:+ rnd;
                          msg_type := msg_step; content := c; timestamp := t;
                          step := Some (JStr "database_setup") |}) = Some (Some m) ->
            Some (JStr "database_setup") = Some (JStr "database_setup")
            /\ step m = Some (JStr "database_setup") /\ truthy (content m) = true
            /\ (prop "status" event = Some (JStr "error") /\ msg_type m = msg_error
                \/ prop "status" event = Some (JStr "done") /\ msg_type m = msg_step)).
  { intros c Hc [= <-]. cbn [step content msg_type]. repeat split; auto. }
  assert (Hcount :
    (member "databases" data ≫= fun databases =>
       let dbCount := or_val (opt_prop "length" databases) (JNum "0") in
       if strict_eq (Some dbCount) (Some (JNum "0")) then Some None
       else Some (Some {| msg_id := "msg_" +:+ pretty t +:+ "_" +:+ rnd;
                          msg_type := msg_step;
                          content := JStr (ToString dbCount +:+ " database"
                                           +:+ (if strict_eq (Some dbCount) (Some (JNum "1"))
                                                then EmptyString else "s")
                                           +:+ " set up successfully");
                          timestamp := t;
                          step := Some (JStr "database_setup") |})) = Some (Some m) ->
    Some (JStr "database_setup") = Some (JStr "database_setup")
    /\ step m = Some (JStr "database_setup") /\ truthy (content m) = true
    /\ (prop "status" event = Some (JStr "error") /\ msg_type m = msg_error
        \/ prop "status" event = Some (JStr "done") /\ msg_type m = msg_step)).
  { intros Hm. apply bind_Some in Hm as (dbs & _ & Hm). cbv zeta in Hm.
    destruct (strict_eq _ (Some (JNum "0"))); [done|].
    revert Hm. apply Hc.
    rewrite <- append_assoc, <- append_assoc. by apply append_truthy. }
  destruct text as [c|]; [|by apply Hcount].
  destruct (truthy c) eqn:Et; [by apply (Hc c)|by apply Hcount].
Qed.

Lemma chat_message_only_for_database_setup_witness :
  exists m,
    createChatMessage 1 "abc"
      (JObj (Sample.step_event "database_setup" "done"
               [("databases", JArr [JStr "users"; JStr "orders"])])) None = Some (Some m)
    /\ content m = JStr "2 databases set up successfully"
    /\ msg_type m = msg_step.
Proof.
  match goal with
  | |- exists m, ?c = _ /\ _ =>
      destruct c as [[m|]|] eqn:H; try (vm_compute in H; discriminate)
  end.
  exists m. split; [done|].
  destruct (chat_message_only_for_database_setup _ _ _ _ _ H)
    as (_ & _ & _ & [[E _]|[_ ->]]); [vm_compute in E; discriminate|].
  split; [|done]. vm_compute in H. by injection H as <-.
Defined.

(** *** Category and icon *)

Lemma includes_l_eq p s :
  includes_l p s = match strip_prefix p s with
                   | Some _ => true
                   | None => match s with [] => false | _ :: s' => includes_l p s' end
                   end.
Proof. by destruct s. Qed.

Lemma includes_l_spec p s :
  includes_l p s = true <-> exists a b, s = a ++ p ++ b.
Proof.
  split.
  - induction s as [|x s IH]; rewrite includes_l_eq.
    + destruct (strip_prefix p []) as [r|] eqn:E; [|done].
      intros _. exists [], r. simpl. by apply strip_prefix_Some.
    + destruct (strip_prefix p (x :: s)) as [r|] eqn:E.
      * intros _. exists [], r. simpl. by apply strip_prefix_Some.
      * intros (a & b & ->)%IH. by exists (x :: a), b.
  - intros (a & b & ->). induction a as [|x a IH]; rewrite includes_l_eq.
    + cbn [app]. by rewrite strip_prefix_app.
    + simpl. by destruct (strip_prefix p _).
Qed.

Lemma includes_trans q p s :
  includes q p = true -> includes p s = true -> includes q s = true.
Proof.
  unfold includes. rewrite !includes_l_spec.
  intros (a & b & ->) (a' & b' & ->). exists (a' ++ a), (b ++ b').
  by rewrite <- !app_assoc.
Qed.

(** X30.  The icon [mail] is never chosen, and a text that mentions mail gets
    the category and the icon of an input or of an AI node: it contains
    [ai], which both functions test before [email] and [mail]. *)
Theorem mail_is_read_as_ai (name description : option JVal) :
  inferNodeIcon name description <> "mail"
  /\ (includes "mail" (node_text name description) = true ->
      inferNodeIcon name description ∈ ["user"; "brain"]
      /\ inferNodeCategory name description ∈ [Input; AI]).
Proof.
  unfold inferNodeIcon, inferNodeCategory. fold (node_text name description).
  set (text := node_text name description).
  destruct (includes "ai" text) eqn:Hai.
  - split; [by repeat case_match|]. intros _. cbn [orb].
    split; repeat case_match; repeat constructor.
  - assert (Hmail : includes "mail" text = false).
    { destruct (includes "mail" text) eqn:E; [|done].
      by rewrite (includes_trans "ai" "mail" text) in Hai. }
    assert (Hemail : includes "email" text = false).
    { destruct (includes "email" text) eqn:E; [|done].
      by rewrite (includes_trans "ai" "email" text) in Hai. }
    split; [|by rewrite Hmail].
    cbv zeta. rewrite Hmail, Hemail. by repeat case_match.
Qed.

Lemma mail_is_read_as_ai_witness :
  inferNodeIcon (Some (JStr "Send Mail")) (Some (JStr "notifies the team")) = "brain"
  /\ inferNodeCategory (Some (JStr "Send Mail")) (Some (JStr "notifies the team")) = AI.
Proof.
  destruct (mail_is_read_as_ai (Some (JStr "Send Mail")) (Some (JStr "notifies the team")))
    as [_ H].
  destruct H as [_ _]; [reflexivity|]. by split.
Defined.
